(** * pyworkflow: the in-memory workflow backend

    A shallow embedding of [pyworkflow/memory/backend.py] (class
    [MemoryBackend]) and the properties of its scheduler.

    Conventions of the embedding.
    - The backend object is a record; every method is a function in a
      state-and-exception monad [M].  A raised exception keeps the state
      reached so far, as in Python.
    - Process objects are mutable and shared between the store, the queues
      and the running tables, so they live in an object heap ([objects])
      and are referred to by reference.  Python's default object equality
      (identity) is the equality of references.
    - The lists held by [scheduled_decisions] are rebound by
      [_schedule_decision] (the result of [sorted] is a new list), so they
      live in a heap of list objects ([lists]); the deques of
      [scheduled_activities] are only ever mutated in place and are kept
      by value.
    - [datetime.now()] is read as one instant [now] for the whole of a
      call; times are integers (seconds).
    - [uuid4()] is a counter-driven supply of fresh identifiers. *)

From stdpp Require Import gmap strings list fin_maps.
From Stdlib Require Import ZArith Lia.

Open Scope Z_scope.

(** ** Identifiers *)

Inductive ident :=
| Uuid (n : nat)
| Name (s : string).

#[global] Instance ident_eq_dec : EqDecision ident.
Proof. solve_decision. Defined.

Definition ident_encode (i : ident) : nat + string :=
  match i with Uuid n => inl n | Name s => inr s end.

Definition ident_decode (x : nat + string) : ident :=
  match x with inl n => Uuid n | inr s => Name s end.

#[global] Instance ident_countable : Countable ident.
Proof.
  refine (inj_countable' ident_encode ident_decode _).
  intros []; reflexivity.
Defined.

(** References to process objects and to list objects. *)
Definition ref := nat.
Definition loc := nat.

(** Payloads (inputs, results, details, signal data); [None] is Python's
    [None]. *)
Definition payload := option string.

(** ** Activities, decisions, events *)

Record ActivityExecution := {
  ae_activity : string;
  ae_id : string;
  ae_input : payload
}.

#[global] Instance ActivityExecution_eq_dec : EqDecision ActivityExecution.
Proof. solve_decision. Defined.

(** What a caller hands to [start_process] or puts in [StartChildProcess]:
    a process without server-side state. *)
Record ProcessTemplate := {
  t_id : option ident;
  t_workflow : string;
  t_input : payload;
  t_tags : list string;
  t_parent : option ident
}.

#[global] Instance ProcessTemplate_eq_dec : EqDecision ProcessTemplate.
Proof. solve_decision. Defined.

Inductive decision :=
| ScheduleActivity (activity : string) (id : string) (input : payload)
                   (category : option string)
| CancelActivity (id : string)
| StartChildProcess (process : ProcessTemplate)
| Timer (delay : Z)
| CompleteProcess (result : payload)
| CancelProcess (details : payload).

#[global] Instance decision_eq_dec : EqDecision decision.
Proof. solve_decision. Defined.

Inductive ActivityResult :=
| ActivityCompleted (result : payload)
| ActivityCanceled
| ActivityTimedOut
| ActivityFailed (reason : payload).

#[global] Instance ActivityResult_eq_dec : EqDecision ActivityResult.
Proof. solve_decision. Defined.

Inductive ProcessResult :=
| ProcessCompleted (result : payload)
| ProcessCanceled (details : payload).

#[global] Instance ProcessResult_eq_dec : EqDecision ProcessResult.
Proof. solve_decision. Defined.

(** The first argument of [ActivityEvent] is whatever the caller indexes
    out of a table entry: an execution, or (in the [CancelActivity] branch,
    for a running activity) the key of the running table. *)
Inductive ActivitySubject :=
| OfExecution (e : ActivityExecution)
| OfRunId (k : ident).

#[global] Instance ActivitySubject_eq_dec : EqDecision ActivitySubject.
Proof. solve_decision. Defined.

Inductive Event :=
| ProcessStartedEvent
| DecisionStartedEvent
| DecisionEvent (d : decision)
| ActivityStartedEvent (e : ActivityExecution)
| ActivityEvent (a : ActivitySubject) (result : option ActivityResult)
| SignalEvent (name : string) (data : payload)
| TimerEvent (timer : option decision)
| ChildProcessEvent (process_id : ident) (result : ProcessResult)
                    (workflow : string) (tags : list string).

#[global] Instance Event_eq_dec : EqDecision Event.
Proof. solve_decision. Defined.

(** ** Process objects *)

Record Process := {
  p_id : ident;
  p_workflow : string;
  p_input : payload;
  p_tags : list string;
  p_parent : option ident;
  history : list Event
}.

#[global] Instance Process_eq_dec : EqDecision Process.
Proof. solve_decision. Defined.

Definition push_event (ev : Event) (p : Process) : Process :=
  {| p_id := p_id p; p_workflow := p_workflow p; p_input := p_input p;
     p_tags := p_tags p; p_parent := p_parent p;
     history := history p ++ [ev] |}.

(** ** Registry descriptors and table entries *)

Record WorkflowInfo := {
  wf_category : string;
  wf_timeout : Z;
  wf_decision_timeout : Z
}.

Record ActivityInfo := {
  act_category : string;
  act_scheduled_timeout : Z;
  act_execution_timeout : Z;
  act_heartbeat_timeout : Z
}.

(** [(execution, process, expiration)] *)
Record ScheduledActivity := {
  sa_execution : ActivityExecution;
  sa_process : ref;
  sa_expiration : Z
}.

#[global] Instance ScheduledActivity_eq_dec : EqDecision ScheduledActivity.
Proof. solve_decision. Defined.

(** [(execution, process, expiration, heartbeat_expiration)] *)
Record RunningActivity := {
  ra_execution : ActivityExecution;
  ra_process : ref;
  ra_expiration : Z;
  ra_heartbeat : Z
}.

#[global] Instance RunningActivity_eq_dec : EqDecision RunningActivity.
Proof. solve_decision. Defined.

(** [(process, start, expiration, timer)] *)
Record ScheduledDecision := {
  sd_process : ref;
  sd_start : option Z;
  sd_expiration : option Z;
  sd_timer : option decision
}.

#[global] Instance ScheduledDecision_eq_dec : EqDecision ScheduledDecision.
Proof. solve_decision. Defined.

(** [(process, expiration)] *)
Record RunningDecision := {
  rd_process : ref;
  rd_expiration : Z
}.

#[global] Instance RunningDecision_eq_dec : EqDecision RunningDecision.
Proof. solve_decision. Defined.

(** Tasks handed to workers. *)
Record ActivityTask := {
  at_execution : ActivityExecution;
  at_process_id : ident;
  at_run_id : ident
}.

Record DecisionTask := {
  dt_process : ref;
  dt_run_id : ident
}.

(** ** The backend state *)

Record MemoryBackend := {
  workflows : gmap string WorkflowInfo;
  activities : gmap string ActivityInfo;
  running_processes : gmap ident ref;
  running_activities : gmap ident RunningActivity;
  running_decisions : gmap ident RunningDecision;
  scheduled_decisions : gmap string loc;
  scheduled_activities : gmap string (list ScheduledActivity);
  (* the heap: process objects, list objects, allocation counters *)
  objects : gmap ref Process;
  lists : gmap loc (list ScheduledDecision);
  next_ref : ref;
  next_loc : loc;
  next_uuid : nat
}.

(** Modelled from the spec: the [Defaults] bundle of the package is not
    part of [backend.py]; only the names of the two default categories
    matter to the backend. *)
Module Defaults.
Definition DECISION_CATEGORY : string := "default".
Definition ACTIVITY_CATEGORY : string := "default".
End Defaults.

(** [MemoryBackend.__init__]: the two default queues exist from the
    start; the decision queue is list object 0. *)
Definition init : MemoryBackend :=
  {| workflows := ∅; activities := ∅;
     running_processes := ∅; running_activities := ∅; running_decisions := ∅;
     scheduled_decisions := {[ Defaults.DECISION_CATEGORY := 0%nat ]};
     scheduled_activities := {[ Defaults.ACTIVITY_CATEGORY := [] ]};
     objects := ∅; lists := {[ 0%nat := [] ]};
     next_ref := 0%nat; next_loc := 1%nat; next_uuid := 0%nat |}.

(** Field updates. *)
Definition set_workflows (f : gmap string WorkflowInfo → gmap string WorkflowInfo)
    (s : MemoryBackend) : MemoryBackend :=
  {| workflows := f (workflows s); activities := activities s;
     running_processes := running_processes s;
     running_activities := running_activities s;
     running_decisions := running_decisions s;
     scheduled_decisions := scheduled_decisions s;
     scheduled_activities := scheduled_activities s;
     objects := objects s; lists := lists s; next_ref := next_ref s;
     next_loc := next_loc s; next_uuid := next_uuid s |}.

Definition set_activities (f : gmap string ActivityInfo → gmap string ActivityInfo)
    (s : MemoryBackend) : MemoryBackend :=
  {| workflows := workflows s; activities := f (activities s);
     running_processes := running_processes s;
     running_activities := running_activities s;
     running_decisions := running_decisions s;
     scheduled_decisions := scheduled_decisions s;
     scheduled_activities := scheduled_activities s;
     objects := objects s; lists := lists s; next_ref := next_ref s;
     next_loc := next_loc s; next_uuid := next_uuid s |}.

Definition set_running_processes (f : gmap ident ref → gmap ident ref)
    (s : MemoryBackend) : MemoryBackend :=
  {| workflows := workflows s; activities := activities s;
     running_processes := f (running_processes s);
     running_activities := running_activities s;
     running_decisions := running_decisions s;
     scheduled_decisions := scheduled_decisions s;
     scheduled_activities := scheduled_activities s;
     objects := objects s; lists := lists s; next_ref := next_ref s;
     next_loc := next_loc s; next_uuid := next_uuid s |}.

Definition set_running_activities
    (f : gmap ident RunningActivity → gmap ident RunningActivity)
    (s : MemoryBackend) : MemoryBackend :=
  {| workflows := workflows s; activities := activities s;
     running_processes := running_processes s;
     running_activities := f (running_activities s);
     running_decisions := running_decisions s;
     scheduled_decisions := scheduled_decisions s;
     scheduled_activities := scheduled_activities s;
     objects := objects s; lists := lists s; next_ref := next_ref s;
     next_loc := next_loc s; next_uuid := next_uuid s |}.

Definition set_running_decisions
    (f : gmap ident RunningDecision → gmap ident RunningDecision)
    (s : MemoryBackend) : MemoryBackend :=
  {| workflows := workflows s; activities := activities s;
     running_processes := running_processes s;
     running_activities := running_activities s;
     running_decisions := f (running_decisions s);
     scheduled_decisions := scheduled_decisions s;
     scheduled_activities := scheduled_activities s;
     objects := objects s; lists := lists s; next_ref := next_ref s;
     next_loc := next_loc s; next_uuid := next_uuid s |}.

Definition set_scheduled_decisions (f : gmap string loc → gmap string loc)
    (s : MemoryBackend) : MemoryBackend :=
  {| workflows := workflows s; activities := activities s;
     running_processes := running_processes s;
     running_activities := running_activities s;
     running_decisions := running_decisions s;
     scheduled_decisions := f (scheduled_decisions s);
     scheduled_activities := scheduled_activities s;
     objects := objects s; lists := lists s; next_ref := next_ref s;
     next_loc := next_loc s; next_uuid := next_uuid s |}.

Definition set_scheduled_activities
    (f : gmap string (list ScheduledActivity) → gmap string (list ScheduledActivity))
    (s : MemoryBackend) : MemoryBackend :=
  {| workflows := workflows s; activities := activities s;
     running_processes := running_processes s;
     running_activities := running_activities s;
     running_decisions := running_decisions s;
     scheduled_decisions := scheduled_decisions s;
     scheduled_activities := f (scheduled_activities s);
     objects := objects s; lists := lists s; next_ref := next_ref s;
     next_loc := next_loc s; next_uuid := next_uuid s |}.

Definition set_objects (f : gmap ref Process → gmap ref Process)
    (s : MemoryBackend) : MemoryBackend :=
  {| workflows := workflows s; activities := activities s;
     running_processes := running_processes s;
     running_activities := running_activities s;
     running_decisions := running_decisions s;
     scheduled_decisions := scheduled_decisions s;
     scheduled_activities := scheduled_activities s;
     objects := f (objects s); lists := lists s; next_ref := next_ref s;
     next_loc := next_loc s; next_uuid := next_uuid s |}.

Definition set_lists
    (f : gmap loc (list ScheduledDecision) → gmap loc (list ScheduledDecision))
    (s : MemoryBackend) : MemoryBackend :=
  {| workflows := workflows s; activities := activities s;
     running_processes := running_processes s;
     running_activities := running_activities s;
     running_decisions := running_decisions s;
     scheduled_decisions := scheduled_decisions s;
     scheduled_activities := scheduled_activities s;
     objects := objects s; lists := f (lists s); next_ref := next_ref s;
     next_loc := next_loc s; next_uuid := next_uuid s |}.

Definition bump_ref (s : MemoryBackend) : MemoryBackend :=
  {| workflows := workflows s; activities := activities s;
     running_processes := running_processes s;
     running_activities := running_activities s;
     running_decisions := running_decisions s;
     scheduled_decisions := scheduled_decisions s;
     scheduled_activities := scheduled_activities s;
     objects := objects s; lists := lists s; next_ref := S (next_ref s);
     next_loc := next_loc s; next_uuid := next_uuid s |}.

Definition bump_loc (s : MemoryBackend) : MemoryBackend :=
  {| workflows := workflows s; activities := activities s;
     running_processes := running_processes s;
     running_activities := running_activities s;
     running_decisions := running_decisions s;
     scheduled_decisions := scheduled_decisions s;
     scheduled_activities := scheduled_activities s;
     objects := objects s; lists := lists s; next_ref := next_ref s;
     next_loc := S (next_loc s); next_uuid := next_uuid s |}.

Definition bump_uuid (s : MemoryBackend) : MemoryBackend :=
  {| workflows := workflows s; activities := activities s;
     running_processes := running_processes s;
     running_activities := running_activities s;
     running_decisions := running_decisions s;
     scheduled_decisions := scheduled_decisions s;
     scheduled_activities := scheduled_activities s;
     objects := objects s; lists := lists s; next_ref := next_ref s;
     next_loc := next_loc s; next_uuid := S (next_uuid s) |}.

(** ** Exceptions and the monad *)

(** The exceptions the backend can raise: Python's own, and the three that
    [backend.py] imports from the package's [exceptions] module.
    [UnknownProcessException] stands for the error kind "UnknownProcess"
    of the specification; [backend.py] neither imports nor raises it.
    [OutOfFuel] is not a Python exception: it marks the exhaustion of the
    recursion budget of [cancel_process] (shown below never to happen). *)
Inductive exn :=
| KeyError
| TypeError
| ValueError
| AttributeError
| UnknownActivityException
| UnknownDecisionException
| TimedOutException
| UnknownProcessException
| OutOfFuel.

#[global] Instance exn_eq_dec : EqDecision exn.
Proof. solve_decision. Defined.

Inductive Res (A : Type) :=
| Ok (a : A)
| Raise (e : exn).
Arguments Ok {A} a.
Arguments Raise {A} e.

Definition M (A : Type) : Type := MemoryBackend → Res A * MemoryBackend.

Definition ret {A} (a : A) : M A := λ s, (Ok a, s).
Definition raise {A} (e : exn) : M A := λ s, (Raise e, s).
Definition bind {A B} (m : M A) (k : A → M B) : M B :=
  λ s, match m s with
       | (Ok a, s') => k a s'
       | (Raise e, s') => (Raise e, s')
       end.

Notation "'let*' x ':=' m 'in' k" := (bind m (λ x, k))
  (at level 10, x pattern, m at level 100, k at level 200).
Notation "m ';;' k" := (bind m (λ _, k))
  (at level 100, k at level 200, right associativity).

Definition gets {A} (f : MemoryBackend → A) : M A := λ s, (Ok (f s), s).
Definition modify (f : MemoryBackend → MemoryBackend) : M unit := λ s, (Ok tt, f s).

(** [d[k]] on a possibly missing key, and friends. *)
Definition or_raise {A} (e : exn) (o : option A) : M A :=
  match o with Some a => ret a | None => raise e end.

(** [for x in l: body(x)] over a list fixed before the loop starts. *)
Fixpoint for_each {A} (l : list A) (body : A → M unit) : M unit :=
  match l with
  | [] => ret tt
  | x :: l' => body x ;; for_each l' body
  end.

Definition run {A} (m : M A) (s : MemoryBackend) : MemoryBackend := snd (m s).
Definition outcome {A} (m : M A) (s : MemoryBackend) : Res A := fst (m s).

(** ** Python helpers *)

(** [list.remove(x)] / [deque.remove(x)]: drop the first element equal to
    [x]; [None] when there is none (Python raises [ValueError]). *)
Fixpoint py_remove {A} `{EqDecision A} (x : A) (l : list A) : option (list A) :=
  match l with
  | [] => None
  | y :: l' => if decide (x = y) then Some l'
               else cons y <$> py_remove x l'
  end.

(** [sorted(l, key=...)]: a stable sort, here by insertion. *)
Fixpoint insert_by {A} (key : A → Z) (x : A) (l : list A) : list A :=
  match l with
  | [] => [x]
  | y :: l' => if key x <=? key y then x :: y :: l' else y :: insert_by key x l'
  end.

Definition sorted {A} (key : A → Z) (l : list A) : list A :=
  foldr (insert_by key) [] l.

(** Truthiness of an optional string-like value: [None] and the empty
    string are both false. *)
Definition truthy_str (o : option string) : option string :=
  match o with
  | Some EmptyString => None
  | _ => o
  end.

Definition truthy_id (o : option ident) : option ident :=
  match o with
  | Some (Name EmptyString) => None
  | _ => o
  end.

(** ** Heap access *)

(** Attribute reads of a process object. *)
Definition the_process (r : ref) : M Process :=
  let* o := gets (λ s, objects s !! r) in or_raise AttributeError o.

(** [process.history.append(ev)] *)
Definition history_append (r : ref) (ev : Event) : M unit :=
  the_process r ;;
  modify (set_objects (alter (push_event ev) r)).

(** Allocation of a new process object. *)
Definition new_process (p : Process) : M ref :=
  let* r := gets next_ref in
  modify (λ s, bump_ref (set_objects (insert r p) s)) ;;
  ret r.

(** The contents of a list object, and its in-place mutations. *)
Definition list_read (l : loc) : M (list ScheduledDecision) :=
  let* o := gets (λ s, lists s !! l) in or_raise AttributeError o.

Definition list_append (l : loc) (d : ScheduledDecision) : M unit :=
  let* q := list_read l in
  modify (set_lists (insert l (q ++ [d]))).

Definition list_remove (l : loc) (d : ScheduledDecision) : M unit :=
  let* q := list_read l in
  let* q' := or_raise ValueError (py_remove d q) in
  modify (set_lists (insert l q')).

Definition new_list (q : list ScheduledDecision) : M loc :=
  let* l := gets next_loc in
  modify (λ s, bump_loc (set_lists (insert l q) s)) ;;
  ret l.

(** [str(uuid4())] *)
Definition uuid4 : M ident :=
  let* n := gets next_uuid in
  modify bump_uuid ;;
  ret (Uuid n).

(** ** The methods of [MemoryBackend]

    Every method that reads the clock takes the instant [now]. *)

Definition _managed_process (pid : ident) : M ref :=
  let* o := gets (λ s, running_processes s !! pid) in or_raise KeyError o.

Definition _schedule_activity (now : Z) (process : ref) (activity id : string)
    (input : payload) (queue : option string) : M unit :=
  let* info := (let* o := gets (λ s, activities s !! activity) in or_raise KeyError o) in
  let expiration := now + act_scheduled_timeout info in
  let execution := {| ae_activity := activity; ae_id := id; ae_input := input |} in
  let queue := default (act_category info) (truthy_str queue) in
  let* q := (let* o := gets (λ s, scheduled_activities s !! queue) in or_raise KeyError o) in
  modify (set_scheduled_activities
            (insert queue (q ++ [ {| sa_execution := execution;
                                     sa_process := process;
                                     sa_expiration := expiration |} ]))).

(** What [_activity_by_id] returns: an item of the running table (a pair
    of key and entry), an entry of a scheduled queue, or [None]. *)
Inductive FoundActivity :=
| FoundRunning (key : ident) (a : RunningActivity)
| FoundScheduled (a : ScheduledActivity).

(** The [for ... break] over the scheduled queues: the last filter result
    computed, which is the first non-empty one if there is any. *)
Fixpoint first_scheduled_match (id : string)
    (queues : list (string * list ScheduledActivity)) : list ScheduledActivity :=
  match queues with
  | [] => []
  | (_, queue) :: rest =>
      match filter (λ a, ae_id (sa_execution a) = id) queue with
      | [] => first_scheduled_match id rest
      | found => found
      end
  end.

Definition _activity_by_id (id : string) : M (option FoundActivity) :=
  let* running := gets (λ s, filter (λ ka, ae_id (ra_execution ka.2) = id)
                                    (map_to_list (running_activities s))) in
  match running with
  | (key, a) :: _ => ret (Some (FoundRunning key a))
  | [] =>
      let* queues := gets (λ s, map_to_list (scheduled_activities s)) in
      ret (FoundScheduled <$> head (first_scheduled_match id queues))
  end.

(** [queue.remove(a)] on the deque of category [q]. *)
Definition deque_remove (q : string) (a : ScheduledActivity) : M unit :=
  let* queue := (let* o := gets (λ s, scheduled_activities s !! q) in or_raise KeyError o) in
  let* queue' := or_raise ValueError (py_remove a queue) in
  modify (set_scheduled_activities (insert q queue')).

Definition deque_of (q : string) : M (list ScheduledActivity) :=
  let* o := gets (λ s, scheduled_activities s !! q) in or_raise KeyError o.

(** [del self.running_activities[key]] *)
Definition del_running_activity (key : ident) : M unit :=
  let* o := gets (λ s, running_activities s !! key) in
  or_raise KeyError o ;;
  modify (set_running_activities (delete key)).

Definition _cancel_activity (id : string) : M unit :=
  let* items := gets (λ s, map_to_list (scheduled_activities s)) in
  for_each items (λ item,
    let* queue := deque_of item.1 in
    let to_cancel := filter (λ a, ae_id (sa_execution a) = id) queue in
    for_each to_cancel (λ a, deque_remove item.1 a)) ;;
  let* to_cancel := gets (λ s, filter (λ ka, ae_id (ra_execution ka.2) = id)
                                      (map_to_list (running_activities s))) in
  for_each to_cancel (λ ka, del_running_activity ka.1).

(** The sort key of [_schedule_decision]: [d[1] or datetime.now()]. *)
Definition start_key (now : Z) (d : ScheduledDecision) : Z :=
  default now (sd_start d).

(** [not a[1] or a[1] <= (start or datetime.now())] *)
Definition due_by (now : Z) (start : option Z) (a : ScheduledDecision) : Prop :=
  match sd_start a with
  | None => True
  | Some t => t ≤ default now start
  end.

#[global] Instance due_by_dec now start a : Decision (due_by now start a).
Proof. unfold due_by. destruct (sd_start a); apply _. Defined.

(** The entries of a queue that make a new non-timer decision for
    [process] redundant. *)
Definition matching (now : Z) (process : ref) (start : option Z)
    (queue : list ScheduledDecision) : list ScheduledDecision :=
  let existing := filter (λ a, sd_process a = process) queue in
  filter (due_by now start) existing.

Definition _schedule_decision (now : Z) (process : ref) (start : option Z)
    (timer : option decision) : M unit :=
  let* p := the_process process in
  let* info := (let* o := gets (λ s, workflows s !! p_workflow p) in or_raise KeyError o) in
  let queue := wf_category info in
  let* l := (let* o := gets (λ s, scheduled_decisions s !! queue) in or_raise KeyError o) in
  let* q := list_read l in
  if bool_decide (is_Some timer ∨ matching now process start q = []) then
    let expiration :=
      match timer with
      | Some _ => None
      | None => Some (now + wf_decision_timeout info)
      end in
    list_append l {| sd_process := process; sd_start := start;
                     sd_expiration := expiration; sd_timer := timer |} ;;
    let* q' := list_read l in
    let* l' := new_list (sorted (start_key now) q') in
    modify (set_scheduled_decisions (insert queue l'))
  else ret tt.

Definition _cancel_decision (process : ref) : M unit :=
  let* items := gets (λ s, map_to_list (scheduled_decisions s)) in
  for_each items (λ item,
    let* queue := list_read item.2 in
    let to_cancel := filter (λ a, sd_process a = process) queue in
    for_each to_cancel (λ a, list_remove item.2 a)).

Definition register_workflow (name category : string) (timeout decision_timeout : Z)
    : M unit :=
  modify (set_workflows (insert name {| wf_category := category;
                                        wf_timeout := timeout;
                                        wf_decision_timeout := decision_timeout |})) ;;
  let* o := gets (λ s, scheduled_decisions s !! category) in
  match o with
  | Some _ => ret tt
  | None => let* l := new_list [] in
            modify (set_scheduled_decisions (insert category l))
  end.

Definition register_activity (name category : string)
    (scheduled_timeout execution_timeout heartbeat_timeout : Z) : M unit :=
  modify (set_activities (insert name {| act_category := category;
                                         act_scheduled_timeout := scheduled_timeout;
                                         act_execution_timeout := execution_timeout;
                                         act_heartbeat_timeout := heartbeat_timeout |})) ;;
  let* o := gets (λ s, scheduled_activities s !! category) in
  match o with
  | Some _ => ret tt
  | None => modify (set_scheduled_activities (insert category []))
  end.

Definition start_process (now : Z) (process : ProcessTemplate) : M ident :=
  let* pid := uuid4 in
  let* process := new_process {| p_id := pid; p_workflow := t_workflow process;
                                 p_input := t_input process; p_tags := t_tags process;
                                 p_parent := t_parent process;
                                 history := [ProcessStartedEvent] |} in
  modify (set_running_processes (insert pid process)) ;;
  _schedule_decision now process None None ;;
  ret pid.

Definition signal_process (now : Z) (process_id : ident) (signal : string)
    (data : payload) : M unit :=
  let* managed_process := _managed_process process_id in
  history_append managed_process (SignalEvent signal data) ;;
  _schedule_decision now managed_process None None.

(** [_cancel_process_internal], with the call it makes back to
    [cancel_process] as a parameter. *)
Definition _cancel_process_internal (cancel_process : ident → M unit)
    (managed_process : ref) : M unit :=
  _cancel_decision managed_process ;;
  let* mp := the_process managed_process in
  (let* o := gets (λ s, running_processes s !! p_id mp) in or_raise KeyError o) ;;
  modify (set_running_processes (delete (p_id mp))) ;;
  let* children := gets (λ s,
     filter (λ kr, p_parent <$> (objects s !! kr.2) = Some (Some (p_id mp)))
            (map_to_list (running_processes s))) in
  for_each children (λ kr,
     let* c := the_process kr.2 in cancel_process (p_id c)).

(** [cancel_process] and [_cancel_process_internal] call each other; the
    recursion is bounded by [fuel]. *)
Fixpoint cancel_process_rec (fuel : nat) (process_id : ident) (details : payload)
    : M unit :=
  match fuel with
  | O => raise OutOfFuel
  | S fuel' =>
      let* managed_process := _managed_process process_id in
      history_append managed_process (DecisionEvent (CancelProcess details)) ;;
      _cancel_process_internal (λ c, cancel_process_rec fuel' c None) managed_process
  end.

(** Every nested call removes a process from the store first, so one more
    unit of fuel than there are live processes is enough. *)
Definition cancel_process (process_id : ident) (details : payload) : M unit :=
  λ s, cancel_process_rec (S (size (running_processes s))) process_id details s.

Definition overdue_activity (now : Z) (a : RunningActivity) : Prop :=
  ra_expiration a < now ∨ ra_heartbeat a < now.

Definition _time_out_activities (now : Z) : M unit :=
  let* items := gets (λ s, map_to_list (scheduled_activities s)) in
  for_each items (λ item,
    let* queue := deque_of item.1 in
    for_each (filter (λ a, sa_expiration a < now) queue) (λ expired,
      deque_remove item.1 expired ;;
      _schedule_decision now (sa_process expired) None None ;;
      history_append (sa_process expired)
        (ActivityEvent (OfExecution (sa_execution expired)) (Some ActivityTimedOut)))) ;;
  let* running := gets (λ s, filter (λ ia, overdue_activity now ia.2)
                                    (map_to_list (running_activities s))) in
  for_each running (λ ia,
    del_running_activity ia.1 ;;
    _schedule_decision now (ra_process ia.2) None None ;;
    history_append (ra_process ia.2)
      (ActivityEvent (OfExecution (ra_execution ia.2)) (Some ActivityTimedOut))).

(** [del self.running_decisions[key]] *)
Definition del_running_decision (key : ident) : M unit :=
  let* o := gets (λ s, running_decisions s !! key) in
  or_raise KeyError o ;;
  modify (set_running_decisions (delete key)).

(** [d[2] and d[2] < datetime.now()] *)
Definition stale_decision (now : Z) (d : ScheduledDecision) : Prop :=
  match sd_expiration d with
  | None => False
  | Some t => t < now
  end.

#[global] Instance stale_decision_dec now d : Decision (stale_decision now d).
Proof. unfold stale_decision. destruct (sd_expiration d); apply _. Defined.

Definition _time_out_decisions (now : Z) : M unit :=
  let* running := gets (λ s, filter (λ ia, rd_expiration ia.2 < now)
                                    (map_to_list (running_decisions s))) in
  for_each running (λ ia,
    del_running_decision ia.1 ;;
    _schedule_decision now (rd_process ia.2) None None) ;;
  let* items := gets (λ s, map_to_list (scheduled_decisions s)) in
  for_each items (λ item,
    let* queue := list_read item.2 in
    for_each (filter (stale_decision now) queue) (λ expired,
      list_remove item.2 expired ;;
      _schedule_decision now (sd_process expired) None None)).

Definition heartbeat_activity_task (now : Z) (task : ActivityTask) : M unit :=
  _time_out_activities now ;;
  let* activity := gets (λ s, running_activities s !! at_run_id task) in
  (* activity[0] on None *)
  let* activity := or_raise TypeError activity in
  let* info := (let* o := gets (λ s, activities s !! ae_activity (ra_execution activity)) in
                or_raise KeyError o) in
  let new_timeout := now + act_heartbeat_timeout info in
  modify (set_running_activities
            (insert (at_run_id task)
                    {| ra_execution := ra_execution activity;
                       ra_process := ra_process activity;
                       ra_expiration := ra_expiration activity;
                       ra_heartbeat := new_timeout |})).

(** The body of the decision loop of [complete_decision_task], after the
    [DecisionEvent] has been appended: the side effect of the decision. *)
Definition decision_effect (now : Z) (task : DecisionTask) (managed_process : ref)
    (d : decision) : M unit :=
  match d with
  | ScheduleActivity activity id input category =>
      _schedule_activity now managed_process activity id input category
  | CancelActivity id =>
      let* activity := _activity_by_id id in
      _cancel_activity id ;;
      (* activity[0] *)
      match activity with
      | Some (FoundRunning key _) =>
          history_append managed_process
            (ActivityEvent (OfRunId key) (Some ActivityCanceled))
      | Some (FoundScheduled a) =>
          history_append managed_process
            (ActivityEvent (OfExecution (sa_execution a)) (Some ActivityCanceled))
      | None => raise TypeError
      end
  | CompleteProcess _ | CancelProcess _ =>
      let* mp := the_process managed_process in
      let* live := gets (λ s, running_processes s !! p_id mp) in
      match live with
      | Some _ =>
          _cancel_process_internal (λ c, cancel_process c None) managed_process ;;
          match truthy_id (p_parent mp) with
          | Some parent_id =>
              let* parent := _managed_process parent_id in
              history_append parent
                (ChildProcessEvent (p_id mp)
                   (match d with
                    | CancelProcess details => ProcessCanceled details
                    | CompleteProcess result => ProcessCompleted result
                    | _ => ProcessCompleted None
                    end)
                   (p_workflow mp) (p_tags mp)) ;;
              _schedule_decision now parent None None
          | None => ret tt
          end
      | None => ret tt
      end
  | StartChildProcess template =>
      let* id := match truthy_id (t_id template) with
                 | Some i => ret i
                 | None => uuid4
                 end in
      let* tp := the_process (dt_process task) in
      let* process := new_process {| p_id := id; p_workflow := t_workflow template;
                                     p_input := t_input template;
                                     p_tags := t_tags template;
                                     p_parent := Some (p_id tp);
                                     history := [] |} in
      modify (set_running_processes (insert id process)) ;;
      _schedule_decision now process None None
  | Timer delay =>
      _schedule_decision now managed_process (Some (now + delay)) (Some d)
  end.

(** The body of the decision loop of [complete_decision_task]. *)
Definition apply_decision (now : Z) (task : DecisionTask) (managed_process : ref)
    (d : decision) : M unit :=
  history_append managed_process (DecisionEvent d) ;;
  decision_effect now task managed_process d.

(** The [decisions] argument: one decision or a list of them. *)
Inductive decisions_arg :=
| One (d : decision)
| Many (ds : list decision).

Definition as_list (a : decisions_arg) : list decision :=
  match a with One d => [d] | Many ds => ds end.

Definition complete_decision_task (now : Z) (task : DecisionTask)
    (decisions : decisions_arg) : M unit :=
  _time_out_decisions now ;;
  let decisions := as_list decisions in
  let* found := gets (λ s, running_decisions s !! dt_run_id task) in
  let* found := or_raise UnknownDecisionException found in
  del_running_decision (dt_run_id task) ;;
  let managed_process := rd_process found in
  for_each decisions (apply_decision now task managed_process).

Definition complete_activity_task (now : Z) (task : ActivityTask)
    (result : option ActivityResult) : M unit :=
  _time_out_activities now ;;
  let* activity := gets (λ s, running_activities s !! at_run_id task) in
  let* activity := or_raise UnknownActivityException activity in
  del_running_activity (at_run_id task) ;;
  history_append (ra_process activity)
    (ActivityEvent (OfExecution (ra_execution activity)) result) ;;
  _schedule_decision now (ra_process activity) None None.

Definition process_by_id (pid : ident) : M ref := _managed_process pid.

(** [(p.workflow == workflow or not workflow) and (tag in p.tags or not tag)] *)
Definition passes (workflow tag : option string) (p : Process) : bool :=
  match truthy_str workflow with
  | None => true
  | Some w => bool_decide (p_workflow p = w)
  end
  && match truthy_str tag with
     | None => true
     | Some t => bool_decide (t ∈ p_tags p)
     end.

(** [processes(workflow, tag)]: the live processes that pass both filters. *)
Definition processes (workflow tag : option string) : M (list ref) :=
  gets (λ s, filter (λ r, passes workflow tag <$> objects s !! r = Some true)
                    (map_to_list (running_processes s)).*2).

(** The [while True: popleft()] loop of [poll_activity_task]: entries
    whose expiration has passed are dropped on the way. *)
Fixpoint pop_live (now : Z) (queue : list ScheduledActivity)
    : option ScheduledActivity * list ScheduledActivity :=
  match queue with
  | [] => (None, [])
  | a :: queue' =>
      if bool_decide (now ≤ sa_expiration a) then (Some a, queue')
      else pop_live now queue'
  end.

Definition poll_activity_task (now : Z) (category : string) : M (option ActivityTask) :=
  let* o := gets (λ s, scheduled_activities s !! category) in
  match o with
  | None => ret None                     (* KeyError, swallowed *)
  | Some queue =>
      let popped := pop_live now queue in
      modify (set_scheduled_activities (insert category popped.2)) ;;
      match popped.1 with
      | None => ret None                 (* IndexError, swallowed *)
      | Some a =>
          let* run_id := uuid4 in
          let* info := (let* o := gets (λ s, activities s !! ae_activity (sa_execution a)) in
                        or_raise KeyError o) in
          let expiration := now + act_execution_timeout info in
          let heartbeat_expiration := now + act_heartbeat_timeout info in
          modify (set_running_activities
                    (insert run_id {| ra_execution := sa_execution a;
                                      ra_process := sa_process a;
                                      ra_expiration := expiration;
                                      ra_heartbeat := heartbeat_expiration |})) ;;
          history_append (sa_process a) (ActivityStartedEvent (sa_execution a)) ;;
          let* p := the_process (sa_process a) in
          ret (Some {| at_execution := sa_execution a;
                       at_process_id := p_id p;
                       at_run_id := run_id |})
      end
  end.

(** The test of the scan in [poll_decision_task]: the start is not in the
    future and the expiration, if any, has not passed. *)
Definition deliverable (now : Z) (d : ScheduledDecision) : Prop :=
  match sd_start d with Some t => t ≤ now | None => True end
  ∧ match sd_expiration d with Some t => now ≤ t | None => True end.

#[global] Instance deliverable_dec now d : Decision (deliverable now d).
Proof.
  unfold deliverable.
  destruct (sd_start d), (sd_expiration d); apply _.
Defined.

Definition poll_decision_task (now : Z) (category : string) : M (option DecisionTask) :=
  _time_out_activities now ;;
  _time_out_decisions now ;;
  let* l := (let* o := gets (λ s, scheduled_decisions s !! category) in
             or_raise KeyError o) in
  let* queue := list_read l in
  match head (filter (deliverable now) queue) with
  | None => ret None
  | Some d =>
      let process := sd_process d in
      (match sd_start d with
       | Some _ => history_append process (TimerEvent (sd_timer d))
       | None => ret tt
       end) ;;
      list_remove l d ;;
      let* run_id := uuid4 in
      let* p := the_process process in
      let* info := (let* o := gets (λ s, workflows s !! p_workflow p) in
                    or_raise KeyError o) in
      let expiration := now + wf_timeout info in
      modify (set_running_decisions
                (insert run_id {| rd_process := process; rd_expiration := expiration |})) ;;
      history_append process DecisionStartedEvent ;;
      ret (Some {| dt_process := process; dt_run_id := run_id |})
  end.

(** * Reasoning about methods *)

(** ** Equations of the monad *)

Lemma run_bind {A B} (m : M A) (k : A → M B) s :
  run (bind m k) s =
  match outcome m s with
  | Ok a => run (k a) (run m s)
  | Raise _ => run m s
  end.
Proof. unfold run, outcome, bind. destruct (m s) as [[a|e] s']; reflexivity. Qed.

Lemma outcome_bind {A B} (m : M A) (k : A → M B) s :
  outcome (bind m k) s =
  match outcome m s with
  | Ok a => outcome (k a) (run m s)
  | Raise e => Raise e
  end.
Proof. unfold run, outcome, bind. destruct (m s) as [[a|e] s']; reflexivity. Qed.

Lemma M_eta {A} (m : M A) s : m s = (outcome m s, run m s).
Proof. unfold outcome, run. destruct (m s); reflexivity. Qed.

(** ** Hoare triples

    [hoare P m Q]: from a state satisfying [P], the outcome of [m] (a value
    or an exception) and the state it leaves satisfy [Q]. *)
Definition hoare {A} (P : MemoryBackend → Prop) (m : M A)
    (Q : Res A → MemoryBackend → Prop) : Prop :=
  ∀ s, P s → Q (outcome m s) (run m s).

(** [preserves I m]: [m] keeps the state predicate [I], however it ends. *)
Definition preserves {A} (I : MemoryBackend → Prop) (m : M A) : Prop :=
  ∀ s, I s → I (run m s).

Section rules.
Context {A B : Type}.
Implicit Types (P I : MemoryBackend → Prop).

Lemma hoare_ret P (a : A) (Q : Res A → MemoryBackend → Prop) :
  (∀ s, P s → Q (Ok a) s) → hoare P (ret a) Q.
Proof. intros H s Hs. apply H, Hs. Qed.

Lemma hoare_raise P e (Q : Res A → MemoryBackend → Prop) :
  (∀ s, P s → Q (Raise e) s) → hoare P (raise e) Q.
Proof. intros H s Hs. apply H, Hs. Qed.

Lemma hoare_bind P (m : M A) (k : A → M B) (R : A → MemoryBackend → Prop)
    (Q : Res B → MemoryBackend → Prop) :
  hoare P m (λ r s, match r with Ok a => R a s | Raise e => Q (Raise e) s end) →
  (∀ a, hoare (R a) (k a) Q) →
  hoare P (bind m k) Q.
Proof.
  intros Hm Hk s Hs. specialize (Hm s Hs).
  rewrite outcome_bind, run_bind.
  destruct (outcome m s) as [a|e]; [apply Hk, Hm | apply Hm].
Qed.

Lemma hoare_consequence P P' (m : M A) (Q Q' : Res A → MemoryBackend → Prop) :
  hoare P' m Q' → (∀ s, P s → P' s) → (∀ r s, Q' r s → Q r s) → hoare P m Q.
Proof. intros H HP HQ s Hs. apply HQ, H, HP, Hs. Qed.

Lemma preserves_hoare I (m : M A) : preserves I m → hoare I m (λ _, I).
Proof. intros H s Hs. apply H, Hs. Qed.

Lemma preserves_ret I (a : A) : preserves I (ret a).
Proof. intros s Hs. exact Hs. Qed.

Lemma preserves_raise I e : preserves I (raise e : M A).
Proof. intros s Hs. exact Hs. Qed.

Lemma preserves_gets I (f : MemoryBackend → A) : preserves I (gets f).
Proof. intros s Hs. exact Hs. Qed.

Lemma preserves_or_raise I e (o : option A) : preserves I (or_raise e o).
Proof. destruct o; intros s Hs; exact Hs. Qed.

Lemma preserves_modify I f : (∀ s, I s → I (f s)) → preserves I (modify f).
Proof. intros H s Hs. apply H, Hs. Qed.

Lemma preserves_bind I (m : M A) (k : A → M B) :
  preserves I m → (∀ a, preserves I (k a)) → preserves I (bind m k).
Proof.
  intros Hm Hk s Hs. rewrite run_bind.
  destruct (outcome m s) as [a|e]; [apply (Hk a)|]; apply Hm, Hs.
Qed.

Lemma preserves_and I J (m : M A) :
  preserves I m → (∀ s, I s → J s → J (run m s)) →
  preserves (λ s, I s ∧ J s) m.
Proof. intros HI HJ s [H1 H2]. split; [apply HI, H1 | apply HJ; assumption]. Qed.

End rules.

Lemma preserves_for_each {A} (I : MemoryBackend → Prop) (l : list A)
    (body : A → M unit) :
  (∀ x, x ∈ l → preserves I (body x)) → preserves I (for_each l body).
Proof.
  induction l as [|x l IH]; intros H; simpl.
  - apply preserves_ret.
  - apply preserves_bind.
    + apply H. left.
    + intros _. apply IH. intros y Hy. apply H. right. exact Hy.
Qed.

(** A tactic for state predicates that a method keeps because each of its
    steps does: it walks through the binds and loops and leaves the
    [modify] steps (and calls it does not know) to the caller. *)
Ltac preserve_step :=
  lazymatch goal with
  | |- preserves _ (bind _ _) => apply preserves_bind; [|intros ?]
  | |- preserves _ (ret _) => apply preserves_ret
  | |- preserves _ (raise _) => apply preserves_raise
  | |- preserves _ (gets _) => apply preserves_gets
  | |- preserves _ (or_raise _ _) => apply preserves_or_raise
  | |- preserves _ (for_each _ _) => apply preserves_for_each; intros ? ?
  | |- preserves _ (match ?x with _ => _ end) => destruct x
  | |- preserves _ (if ?x then _ else _) => destruct x
  | |- preserves _ (let _ := _ in _) => cbv zeta
  end.

Ltac preserve := repeat preserve_step.

(** ** Frames: the parts of the state a method does not touch *)

Definition keeps {A F} (f : MemoryBackend → F) (m : M A) : Prop :=
  ∀ s, f (run m s) = f s.

Lemma keeps_preserves {A F} (f : MemoryBackend → F) (m : M A) X :
  keeps f m → preserves (λ s, f s = X) m.
Proof. intros H s Hs. rewrite H. exact Hs. Qed.

Lemma keeps_intro {A F} (f : MemoryBackend → F) (m : M A) :
  (∀ X, preserves (λ s, f s = X) m) → keeps f m.
Proof. intros H s. apply (H (f s)). reflexivity. Qed.

Create HintDb keeps discriminated.

(** [frame_by tac]: walk through the method; calls are discharged from the
    hint database, field updates by [tac]. *)
Ltac frame_by tac :=
  apply keeps_intro; intros ?; preserve;
  lazymatch goal with
  | |- preserves _ (modify _) =>
      apply preserves_modify; let s := fresh "s" in intros s <-; tac
  | |- preserves _ _ => apply keeps_preserves; solve [eauto with keeps]
  end.

Ltac frame := frame_by ltac:(reflexivity).

Section frames.
Context {F : Type} (f : MemoryBackend → F).

(** A projection is untouched by the updates of the other fields. *)
Definition off_objects : Prop := ∀ g s, f (set_objects g s) = f s.
Definition off_lists : Prop :=
  (∀ g s, f (set_lists g s) = f s) ∧ (∀ s, f (bump_loc s) = f s).
Definition off_queues : Prop :=
  off_lists ∧ ∀ g s, f (set_scheduled_decisions g s) = f s.

Lemma keeps_the_process r : keeps f (the_process r).
Proof. unfold the_process. frame. Qed.

Lemma keeps_managed_process pid : keeps f (_managed_process pid).
Proof. unfold _managed_process. frame. Qed.

Lemma keeps_list_read l : keeps f (list_read l).
Proof. unfold list_read. frame. Qed.

Hint Resolve keeps_the_process keeps_managed_process keeps_list_read : keeps.

Lemma keeps_history_append r ev : off_objects → keeps f (history_append r ev).
Proof. intros H. unfold history_append. frame_by ltac:(apply H). Qed.

Lemma keeps_list_remove l d : off_lists → keeps f (list_remove l d).
Proof. intros [H _]. unfold list_remove. frame_by ltac:(apply H). Qed.

Lemma keeps_list_append l d : off_lists → keeps f (list_append l d).
Proof. intros [H _]. unfold list_append. frame_by ltac:(apply H). Qed.

Lemma keeps_new_list q : off_lists → keeps f (new_list q).
Proof.
  intros [H1 H2]. unfold new_list. frame_by ltac:(rewrite H2; apply H1).
Qed.

Hint Resolve keeps_history_append keeps_list_remove keeps_list_append
  keeps_new_list : keeps.

Lemma keeps_schedule_decision now r start timer :
  off_queues → keeps f (_schedule_decision now r start timer).
Proof.
  intros [Hl Hq]. unfold _schedule_decision. frame_by ltac:(apply Hq).
Qed.

Lemma keeps_cancel_decision r : off_lists → keeps f (_cancel_decision r).
Proof. intros Hl. unfold _cancel_decision. frame. Qed.

End frames.

#[export] Hint Resolve keeps_the_process keeps_managed_process keeps_list_read
  keeps_history_append keeps_list_remove keeps_list_append keeps_new_list
  keeps_schedule_decision keeps_cancel_decision : keeps.
#[export] Hint Extern 1 (off_objects _) => (intros ? ?; reflexivity) : keeps.
#[export] Hint Extern 1 (off_lists _) => (split; intros; reflexivity) : keeps.
#[export] Hint Extern 1 (off_queues _) =>
  (split; [split|]; intros; reflexivity) : keeps.

Section cancel_frames.
Context {F : Type} (f : MemoryBackend → F).
Hypothesis f_history : ∀ r ev, keeps f (history_append r ev).
Hypothesis f_lists : off_lists f.
Hypothesis f_store : ∀ g s, f (set_running_processes g s) = f s.

Lemma keeps_cancel_process_internal cp r :
  (∀ c, keeps f (cp c)) → keeps f (_cancel_process_internal cp r).
Proof.
  intros Hcp. unfold _cancel_process_internal. frame_by ltac:(apply f_store).
Qed.

Lemma keeps_cancel_process_rec fuel pid details :
  keeps f (cancel_process_rec fuel pid details).
Proof.
  revert pid details. induction fuel as [|fuel IH]; intros pid details; simpl.
  - frame.
  - pose proof (keeps_cancel_process_internal
                  (λ c, cancel_process_rec fuel c None)) as Hint.
    frame.
Qed.

Lemma keeps_cancel_process pid details : keeps f (cancel_process pid details).
Proof. intros s. apply keeps_cancel_process_rec. Qed.

End cancel_frames.

#[export] Hint Resolve keeps_cancel_process_internal keeps_cancel_process : keeps.

(** * Lookup of a process that is not in the store *)

Lemma managed_process_missing pid s :
  running_processes s !! pid = None → _managed_process pid s = (Raise KeyError, s).
Proof. intros H. unfold _managed_process, bind, gets. rewrite H. reflexivity. Qed.

(** C9, as stated, fails: on the fresh backend the lookup of an unknown
    process id raises Python's [KeyError], which is not the
    "UnknownProcess" error of the specification. *)
Lemma process_by_id_not_UnknownProcess :
  process_by_id (Name "ghost") init = (Raise KeyError, init)
  ∧ outcome (process_by_id (Name "ghost")) init ≠ Raise UnknownProcessException.
Proof. split; [reflexivity | discriminate]. Qed.

(** C9 (amended): for a process id that is not in the store,
    [process_by_id], and with it [signal_process] and [cancel_process]
    (which look the process up first), fail with [KeyError] and leave the
    backend unchanged. *)
Theorem unknown_process_raises_KeyError (now : Z) (pid : ident) (signal : string)
    (data details : payload) (s : MemoryBackend) :
  running_processes s !! pid = None →
  process_by_id pid s = (Raise KeyError, s)
  ∧ signal_process now pid signal data s = (Raise KeyError, s)
  ∧ cancel_process pid details s = (Raise KeyError, s).
Proof.
  intros H. pose proof (managed_process_missing pid s H) as Hm.
  split; [exact Hm|]. split.
  - unfold signal_process, bind. rewrite Hm. reflexivity.
  - unfold cancel_process. simpl. unfold bind at 1. rewrite Hm. reflexivity.
Qed.

Lemma unknown_process_raises_KeyError_witness :
  running_processes init !! Name "ghost" = None
  ∧ process_by_id (Name "ghost") init = (Raise KeyError, init)
  ∧ signal_process 0 (Name "ghost") "wake" None init = (Raise KeyError, init)
  ∧ cancel_process (Name "ghost") None init = (Raise KeyError, init).
Proof.
  split; [reflexivity|].
  apply (unknown_process_raises_KeyError 0 (Name "ghost") "wake" None None init).
  reflexivity.
Defined.

(** * A running example

    Workflow [wf] with workflow timeout 3600 s and decision timeout 60 s;
    activity [act] with scheduled timeout 1 s, execution timeout 60 s and
    heartbeat timeout 30 s; both on the default categories.  One process
    is started at time 0, its first decision task is polled and completed
    with [ScheduleActivity(act, id=a1, input=y)]. *)

Definition wf_template : ProcessTemplate :=
  {| t_id := None; t_workflow := "wf"; t_input := Some "x"; t_tags := [];
     t_parent := None |}.

Definition a1 : ActivityExecution :=
  {| ae_activity := "act"; ae_id := "a1"; ae_input := Some "y" |}.

Definition registered : MemoryBackend :=
  run (register_workflow "wf" Defaults.DECISION_CATEGORY 3600 60 ;;
       register_activity "act" Defaults.ACTIVITY_CATEGORY 1 60 30) init.

Definition started : MemoryBackend := run (start_process 0 wf_template) registered.

Definition deciding : MemoryBackend :=
  run (poll_decision_task 0 Defaults.DECISION_CATEGORY) started.

(** The task handed out by that poll: process object 0, run id 1. *)
Definition first_task : DecisionTask := {| dt_process := 0%nat; dt_run_id := Uuid 1 |}.

Definition activity_scheduled : MemoryBackend :=
  run (complete_decision_task 0 first_task
         (Many [ScheduleActivity "act" "a1" (Some "y") None])) deciding.

Lemma running_example_runs :
  outcome (start_process 0 wf_template) registered = Ok (Uuid 0)
  ∧ outcome (poll_decision_task 0 Defaults.DECISION_CATEGORY) started
    = Ok (Some first_task)
  ∧ outcome (complete_decision_task 0 first_task
               (Many [ScheduleActivity "act" "a1" (Some "y") None])) deciding
    = Ok tt
  ∧ scheduled_activities activity_scheduled !! Defaults.ACTIVITY_CATEGORY
    = Some [ {| sa_execution := a1; sa_process := 0%nat; sa_expiration := 1 |} ].
Proof. vm_compute. repeat split; reflexivity. Qed.

(** The history of the process object behind a reference. *)
Definition history_of (s : MemoryBackend) (r : ref) : list Event :=
  from_option history [] (objects s !! r).

(** * Scheduled timeout (scenario S2)

    C2: two seconds later the scheduled entry of [a1] has expired.
    [poll_activity_task] pops it and returns none, and with that the
    entry is gone: the following [poll_decision_task] finds nothing to
    time out, returns none, and the history of the process never receives
    the [ActivityTimedOut] event.  Had the decision poll come first, the
    sweep would have recorded the timeout and delivered a decision. *)
Theorem scheduled_timeout_lost_by_poll_activity_task :
  let polled := run (poll_activity_task 2 Defaults.ACTIVITY_CATEGORY) activity_scheduled in
  outcome (poll_activity_task 2 Defaults.ACTIVITY_CATEGORY) activity_scheduled = Ok None
  ∧ scheduled_activities polled !! Defaults.ACTIVITY_CATEGORY = Some []
  ∧ outcome (poll_decision_task 2 Defaults.DECISION_CATEGORY) polled = Ok None
  ∧ history_of (run (poll_decision_task 2 Defaults.DECISION_CATEGORY) polled) 0%nat
    = [ProcessStartedEvent; DecisionStartedEvent;
       DecisionEvent (ScheduleActivity "act" "a1" (Some "y") None)]
  ∧ outcome (poll_decision_task 2 Defaults.DECISION_CATEGORY) activity_scheduled
    = Ok (Some {| dt_process := 0%nat; dt_run_id := Uuid 2 |})
  ∧ last (history_of (run (poll_decision_task 2 Defaults.DECISION_CATEGORY)
                          activity_scheduled) 0%nat)
    = Some DecisionStartedEvent
  ∧ ActivityEvent (OfExecution a1) (Some ActivityTimedOut)
    ∈ history_of (run (poll_decision_task 2 Defaults.DECISION_CATEGORY)
                      activity_scheduled) 0%nat.
Proof. vm_compute. repeat split; try reflexivity. repeat constructor. Qed.

(** * Heartbeat with an unknown run id *)

Definition stale_task : ActivityTask :=
  {| at_execution := a1; at_process_id := Uuid 0; at_run_id := Name "stale" |}.

(** C8: [heartbeat_activity_task] has no guard for a run id that is not in
    the running table.  After the sweep at its entry,
    [running_activities.get] returns [None] and indexing it raises
    [TypeError]; the call neither returns none nor raises
    [UnknownActivityException] (as [complete_activity_task] does). *)
Theorem heartbeat_unknown_run_id_raises_TypeError (now : Z) (task : ActivityTask)
    (s : MemoryBackend) :
  outcome (_time_out_activities now) s = Ok tt →
  running_activities (run (_time_out_activities now) s) !! at_run_id task = None →
  heartbeat_activity_task now task s
  = (Raise TypeError, run (_time_out_activities now) s).
Proof.
  intros Hsweep Hnone. unfold heartbeat_activity_task.
  rewrite M_eta, outcome_bind, run_bind, Hsweep.
  revert Hnone. generalize (run (_time_out_activities now) s). intros s' Hnone.
  unfold bind, gets, outcome, run. simpl. rewrite Hnone. reflexivity.
Qed.

Lemma heartbeat_unknown_run_id_raises_TypeError_witness :
  outcome (_time_out_activities 0) init = Ok tt
  ∧ running_activities (run (_time_out_activities 0) init) !! at_run_id stale_task = None
  ∧ heartbeat_activity_task 0 stale_task init = (Raise TypeError, init).
Proof.
  split; [reflexivity|]. split; [reflexivity|].
  apply (heartbeat_unknown_run_id_raises_TypeError 0 stale_task init); reflexivity.
Defined.

(** * Cancellation and the activity tables *)

(** The worker picks up [a1] at time 0 (run id 2); then the process is
    cancelled. *)
Definition working : MemoryBackend :=
  run (poll_activity_task 0 Defaults.ACTIVITY_CATEGORY) activity_scheduled.

Definition a1_task : ActivityTask :=
  {| at_execution := a1; at_process_id := Uuid 0; at_run_id := Uuid 2 |}.

Definition cancelled_while_working : MemoryBackend :=
  run (cancel_process (Uuid 0) None) working.

(** C5, as stated, fails: after [cancel_process] the run id of the
    dispatched task is still in the running table, and
    [complete_activity_task] with it succeeds and changes the state (the
    entry is removed, the event is appended to the history of the removed
    process, and a decision is scheduled for it). *)
Lemma cancel_process_keeps_dispatched_run_id :
  outcome (poll_activity_task 0 Defaults.ACTIVITY_CATEGORY) activity_scheduled
  = Ok (Some a1_task)
  ∧ outcome (cancel_process (Uuid 0) None) working = Ok tt
  ∧ running_processes cancelled_while_working !! Uuid 0 = None
  ∧ is_Some (running_activities cancelled_while_working !! Uuid 2)
  ∧ outcome (complete_activity_task 0 a1_task (Some (ActivityCompleted (Some "z"))))
            cancelled_while_working = Ok tt
  ∧ last (history_of
            (run (complete_activity_task 0 a1_task (Some (ActivityCompleted (Some "z"))))
                 cancelled_while_working) 0%nat)
    = Some (ActivityEvent (OfExecution a1) (Some (ActivityCompleted (Some "z")))).
Proof. vm_compute. repeat split; try reflexivity. eexists; reflexivity. Qed.

(** * Executions

    [m s = (Ok a, s')]: started in [s], the method returns [a] and leaves
    [s'].  The lemmas below take such an execution apart. *)

Lemma bind_Ok {A B} (m : M A) (k : A → M B) s b s' :
  bind m k s = (Ok b, s') → ∃ a s1, m s = (Ok a, s1) ∧ k a s1 = (Ok b, s').
Proof.
  unfold bind. destruct (m s) as [[a|e] s1]; intros H; [|discriminate].
  exists a, s1. split; [reflexivity | exact H].
Qed.

Lemma bind_Ok_intro {A B} (m : M A) (k : A → M B) s a s1 :
  m s = (Ok a, s1) → bind m k s = k a s1.
Proof. unfold bind. intros ->. reflexivity. Qed.

Lemma bind_Raise_intro {A B} (m : M A) (k : A → M B) s e s1 :
  m s = (Raise e, s1) → bind m k s = (Raise e, s1).
Proof. unfold bind. intros ->. reflexivity. Qed.

Lemma gets_Ok {A} (f : MemoryBackend → A) s a s' :
  gets f s = (Ok a, s') → a = f s ∧ s' = s.
Proof. unfold gets. intros [= <- <-]. split; reflexivity. Qed.

Lemma modify_Ok f s u s' : modify f s = (Ok u, s') → s' = f s.
Proof. unfold modify. intros H. inversion H. reflexivity. Qed.

Lemma ret_Ok {A} (a b : A) s s' : ret a s = (Ok b, s') → b = a ∧ s' = s.
Proof. unfold ret. intros [= <- <-]. split; reflexivity. Qed.

Lemma or_raise_Ok {A} e (o : option A) s a s' :
  or_raise e o s = (Ok a, s') → o = Some a ∧ s' = s.
Proof.
  destruct o as [x|]; unfold or_raise, ret, raise; intros [= <- <-].
  split; reflexivity.
Qed.

Lemma lookup_or_raise_Ok {A} (f : MemoryBackend → option A) e s a s' :
  (let* o := gets f in or_raise e o) s = (Ok a, s') → f s = Some a ∧ s' = s.
Proof.
  intros H. apply bind_Ok in H as (o & s1 & H1 & H2).
  apply gets_Ok in H1 as [-> ->]. apply or_raise_Ok in H2. exact H2.
Qed.

Lemma for_each_cons_Ok {A} (x : A) l (body : A → M unit) s u s' :
  for_each (x :: l) body s = (Ok u, s') →
  ∃ s1, body x s = (Ok tt, s1) ∧ for_each l body s1 = (Ok u, s').
Proof.
  simpl. intros H. apply bind_Ok in H as ([] & s1 & H1 & H2).
  exists s1. split; assumption.
Qed.

(** Loop invariants along a successful loop. *)
Lemma for_each_Ok_ind {A} (R : MemoryBackend → Prop) (l : list A)
    (body : A → M unit) s u s' :
  for_each l body s = (Ok u, s') →
  R s →
  (∀ x s1 s2, x ∈ l → R s1 → body x s1 = (Ok tt, s2) → R s2) →
  R s'.
Proof.
  revert s. induction l as [|x l IH]; intros s H HR Hstep.
  - apply ret_Ok in H as [_ ->]. exact HR.
  - apply for_each_cons_Ok in H as (s1 & H1 & H2).
    apply (IH s1 H2).
    + apply (Hstep x s s1); [left | exact HR | exact H1].
    + intros y t1 t2 Hy. apply Hstep. right. exact Hy.
Qed.

(** The same, with a fact [Q x] established by the iteration for [x] and
    kept by the later ones. *)
Lemma for_each_Ok_all {A} (R : MemoryBackend → Prop)
    (Q : A → MemoryBackend → Prop) (l : list A) (body : A → M unit) s u s' :
  for_each l body s = (Ok u, s') →
  R s →
  (∀ x s1 s2, x ∈ l → R s1 → body x s1 = (Ok tt, s2) → R s2 ∧ Q x s2) →
  (∀ x y s1 s2, y ∈ l → R s1 → Q x s1 → body y s1 = (Ok tt, s2) → Q x s2) →
  R s' ∧ ∀ x, x ∈ l → Q x s'.
Proof.
  revert s. induction l as [|x l IH]; intros s H HR Hstep Hkeep.
  - apply ret_Ok in H as [_ ->]. split; [exact HR|]. intros x Hx. inversion Hx.
  - apply for_each_cons_Ok in H as (s1 & H1 & H2).
    destruct (Hstep x s s1) as [HR1 HQ1]; [left | exact HR | exact H1 |].
    destruct (IH s1 H2 HR1) as [HR' HQ'].
    { intros y t1 t2 Hy. apply Hstep. right. exact Hy. }
    { intros y z t1 t2 Hz. apply Hkeep. right. exact Hz. }
    split; [exact HR'|]. intros y Hy. apply elem_of_cons in Hy as [->|Hy].
    + refine (proj2 (for_each_Ok_ind (λ t, R t ∧ Q x t) l body s1 u s' H2
                       (conj HR1 HQ1) _)).
      intros z t1 t2 Hz [Ht1 Hq] Hb. split.
      * apply (Hstep z t1 t2); [right; exact Hz | exact Ht1 | exact Hb].
      * apply (Hkeep x z t1 t2); [right; exact Hz | exact Ht1 | exact Hq | exact Hb].
    + apply HQ', Hy.
Qed.

(** ** [list.remove] *)

Lemma py_remove_Some {A} `{EqDecision A} (x : A) l l' :
  py_remove x l = Some l' → x ∈ l ∧ l' ⊆ l.
Proof.
  revert l'. induction l as [|y l IH]; intros l'; simpl; [discriminate|].
  destruct (decide (x = y)) as [->|Hne].
  - intros [= <-]. split; [left|]. intros z Hz. right. exact Hz.
  - destruct (py_remove x l) as [l1|]; simpl; intros [= <-].
    destruct (IH l1 eq_refl) as [Hx Hsub]. split; [right; exact Hx|].
    intros z Hz. apply elem_of_cons in Hz as [->|Hz]; [left | right; apply Hsub, Hz].
Qed.

Lemma py_remove_elem_of {A} `{EqDecision A} (x : A) l :
  x ∈ l → is_Some (py_remove x l).
Proof.
  induction l as [|y l IH]; intros Hx; [inversion Hx|]. simpl.
  destruct (decide (x = y)); [eexists; reflexivity|].
  apply elem_of_cons in Hx as [->|Hx]; [congruence|].
  destruct (IH Hx) as [l' ->]. eexists; reflexivity.
Qed.

(** Removing an element that satisfies [P] takes one off the count of
    such elements, and leaves the others in place. *)
Lemma py_remove_filter {A} `{EqDecision A} (P : A → Prop) `{∀ x, Decision (P x)}
    (x : A) l l' :
  py_remove x l = Some l' →
  (P x → length (filter P l) = S (length (filter P l')))
  ∧ (¬ P x → filter P l' = filter P l).
Proof.
  revert l'. induction l as [|y l IH]; intros l'; simpl; [discriminate|].
  destruct (decide (x = y)) as [->|Hne].
  - intros [= <-]. split; intros Hy.
    + rewrite filter_cons_True by exact Hy. reflexivity.
    + rewrite filter_cons_False by exact Hy. reflexivity.
  - destruct (py_remove x l) as [l1|]; simpl; intros [= <-].
    destruct (IH l1 eq_refl) as [H1 H2]. rewrite !filter_cons.
    split; intros Hx; destruct (decide (P y)); simpl; auto using f_equal.
Qed.

(** ** List objects *)

Lemma list_read_Ok l s q s' :
  list_read l s = (Ok q, s') → lists s !! l = Some q ∧ s' = s.
Proof. apply (lookup_or_raise_Ok (λ s, lists s !! l)). Qed.

Lemma list_remove_cases l d s :
  (∃ e, list_remove l d s = (Raise e, s))
  ∨ (∃ q q', lists s !! l = Some q ∧ py_remove d q = Some q'
             ∧ list_remove l d s = (Ok tt, set_lists (insert l q') s)).
Proof.
  unfold list_remove, list_read, bind, gets, or_raise, ret, raise, modify.
  destruct (lists s !! l) as [q|] eqn:Hq; [|left; eauto].
  destruct (py_remove d q) as [q'|] eqn:Hq'; [|left; eauto].
  right. eauto.
Qed.

Lemma list_remove_Ok l d s u s' :
  list_remove l d s = (Ok u, s') →
  ∃ q q', lists s !! l = Some q ∧ py_remove d q = Some q'
          ∧ s' = set_lists (insert l q') s.
Proof.
  intros H. apply bind_Ok in H as (q & s1 & H1 & H).
  apply list_read_Ok in H1 as [Hq ->].
  apply bind_Ok in H as (q' & s2 & H2 & H).
  apply or_raise_Ok in H2 as [Hq' ->].
  apply modify_Ok in H. eauto.
Qed.

(** [t] has the list objects of [s], possibly with elements removed. *)
Definition lists_shrink (s t : MemoryBackend) : Prop :=
  ∀ l q', lists t !! l = Some q' → ∃ q, lists s !! l = Some q ∧ q' ⊆ q.

Lemma lists_shrink_refl s : lists_shrink s s.
Proof. intros l q Hq. exists q. split; [exact Hq | done]. Qed.

Lemma lists_shrink_trans s t u :
  lists_shrink s t → lists_shrink t u → lists_shrink s u.
Proof.
  intros H1 H2 l q Hq. destruct (H2 l q Hq) as (q1 & Hq1 & Hsub1).
  destruct (H1 l q1 Hq1) as (q0 & Hq0 & Hsub0).
  exists q0. split; [exact Hq0 | etrans; eassumption].
Qed.

Lemma preserves_lists_shrink_list_remove s0 l d :
  preserves (lists_shrink s0) (list_remove l d).
Proof.
  intros s Hs. unfold run.
  destruct (list_remove_cases l d s) as [[e ->]|(q & q' & Hq & Hq' & ->)];
    [exact Hs|]. simpl.
  apply (lists_shrink_trans _ s); [exact Hs|].
  intros l1 q1. simpl. destruct (decide (l = l1)) as [<-|Hne].
  - rewrite lookup_insert_eq. intros [= <-]. exists q. split; [exact Hq|].
    apply (py_remove_Some d), Hq'.
  - rewrite lookup_insert_ne by exact Hne. intros H. exists q1. split; [exact H|done].
Qed.

Lemma for_each_list_remove_Ok (P : ScheduledDecision → Prop)
    `{∀ x, Decision (P x)} l ds s q u s' :
  lists s !! l = Some q →
  Forall P ds →
  for_each ds (list_remove l) s = (Ok u, s') →
  ∃ q', lists s' !! l = Some q'
        ∧ length (filter P q) = (length ds + length (filter P q'))%nat.
Proof.
  revert s q. induction ds as [|d ds IH]; intros s q Hq HP Hrun.
  - apply ret_Ok in Hrun as [_ ->]. exists q. split; [exact Hq | reflexivity].
  - apply for_each_cons_Ok in Hrun as (s1 & H1 & H2).
    apply list_remove_Ok in H1 as (q0 & q1 & Hq0 & Hrem & ->).
    rewrite Hq in Hq0. injection Hq0 as <-.
    inversion HP as [|? ? Hd HP']; subst.
    destruct (IH (set_lists (insert l q1) s) q1) as (q' & Hq' & Hlen);
      [simpl; apply lookup_insert_eq | exact HP' | exact H2 |].
    exists q'. split; [exact Hq'|].
    destruct (py_remove_filter P d q q1 Hrem) as [Hcount _].
    rewrite (Hcount Hd), Hlen. reflexivity.
Qed.

(** No entry of list object [l] refers to process [r]. *)
Definition clean (r : ref) (s : MemoryBackend) (l : loc) : Prop :=
  ∀ q d, lists s !! l = Some q → d ∈ q → sd_process d ≠ r.

Lemma clean_shrink r s t l : lists_shrink s t → clean r s l → clean r t l.
Proof.
  intros Hsh Hc q d Hq Hd. destruct (Hsh l q Hq) as (q0 & Hq0 & Hsub).
  apply (Hc q0 d Hq0), Hsub, Hd.
Qed.

(** Methods that only read the state keep every state predicate. *)
Lemma preserves_the_process I r : preserves I (the_process r).
Proof. unfold the_process. preserve. Qed.

Lemma preserves_list_read I l : preserves I (list_read l).
Proof. unfold list_read. preserve. Qed.

Lemma preserves_managed_process I pid : preserves I (_managed_process pid).
Proof. unfold _managed_process. preserve. Qed.

Lemma preserves_deque_of I q : preserves I (deque_of q).
Proof. unfold deque_of. preserve. Qed.

Ltac preserve_read :=
  first [ apply preserves_the_process | apply preserves_list_read
        | apply preserves_managed_process | apply preserves_deque_of ].

Ltac preserve_all := repeat first [ preserve_step | preserve_read ].

Lemma preserves_lists_shrink_cancel_decision s0 r :
  preserves (lists_shrink s0) (_cancel_decision r).
Proof.
  unfold _cancel_decision. preserve_all.
  apply preserves_lists_shrink_list_remove.
Qed.

Lemma filter_nil_not_elem_of {A} (P : A → Prop) `{∀ x, Decision (P x)} (l : list A) x :
  length (filter P l) = 0%nat → x ∈ l → ¬ P x.
Proof.
  intros Hlen Hx HP. assert (x ∈ filter P l) as Hin by (apply list_elem_of_filter; auto).
  destruct (filter P l); [inversion Hin | discriminate].
Qed.

(** After [_cancel_decision(process)] no list bound in
    [scheduled_decisions] has an entry of the process. *)
Lemma cancel_decision_Ok r s u s' :
  _cancel_decision r s = (Ok u, s') →
  ∀ cat l, scheduled_decisions s !! cat = Some l → clean r s' l.
Proof.
  intros H cat l Hl. unfold _cancel_decision in H.
  apply bind_Ok in H as (items & s1 & H1 & H). apply gets_Ok in H1 as [-> ->].
  assert ((cat, l) ∈ map_to_list (scheduled_decisions s)) as Hin
    by (apply elem_of_map_to_list; exact Hl).
  refine (proj2 (for_each_Ok_all (lists_shrink s) (λ item t, clean r t item.2)
                   _ _ s u s' H (lists_shrink_refl s) _ _) (cat, l) Hin).
  - intros [c l1] t1 t2 _ Ht1 Hbody. simpl in *.
    apply bind_Ok in Hbody as (q & t & Hq & Hbody).
    apply list_read_Ok in Hq as [Hq ->].
    split.
    + pose proof (preserves_for_each (lists_shrink s)
                    (filter (λ a, sd_process a = r) q) (λ a, list_remove l1 a)
                    (λ x _, preserves_lists_shrink_list_remove s l1 x) t1 Ht1) as Hp.
      unfold run in Hp. rewrite Hbody in Hp. exact Hp.
    + destruct (for_each_list_remove_Ok (λ a, sd_process a = r) l1
                  (filter (λ a, sd_process a = r) q) t1 q tt t2 Hq)
        as (q' & Hq' & Hlen); [|exact Hbody|].
      { apply Forall_forall. intros x Hx. apply list_elem_of_filter in Hx. tauto. }
      intros q2 d Hq2 Hd. rewrite Hq' in Hq2. injection Hq2 as <-.
      apply (filter_nil_not_elem_of (λ a, sd_process a = r) q'); [lia | exact Hd].
  - intros x [c l1] t1 t2 _ Ht1 Hx Hbody. simpl in *.
    apply (clean_shrink r t1); [|exact Hx].
    apply bind_Ok in Hbody as (q & t & Hq & Hbody).
    apply list_read_Ok in Hq as [Hq ->].
    pose proof (preserves_for_each (lists_shrink t1)
                  (filter (λ a, sd_process a = r) q) (λ a, list_remove l1 a)
                  (λ x _, preserves_lists_shrink_list_remove t1 l1 x) t1
                  (lists_shrink_refl t1)) as Hp'.
    unfold run in Hp'. rewrite Hbody in Hp'. exact Hp'.
Qed.

(** ** The attributes of a process that never change *)

Definition static (p : Process) : ident * string * list string * option ident :=
  (p_id p, p_workflow p, p_tags p, p_parent p).

Definition statics (s : MemoryBackend)
    : gmap ref (ident * string * list string * option ident) :=
  static <$> objects s.

Lemma statics_lookup s r p : objects s !! r = Some p → statics s !! r = Some (static p).
Proof. intros H. unfold statics. rewrite lookup_fmap, H. reflexivity. Qed.

Lemma statics_lookup_inv s r st :
  statics s !! r = Some st → ∃ p, objects s !! r = Some p ∧ static p = st.
Proof.
  unfold statics. rewrite lookup_fmap. destruct (objects s !! r) as [p|]; [|discriminate].
  intros [= <-]. eauto.
Qed.

Lemma statics_push_event ev r s :
  statics (set_objects (alter (push_event ev) r) s) = statics s.
Proof.
  unfold statics. simpl. apply map_eq. intros r'. rewrite !lookup_fmap.
  rewrite lookup_alter. case_decide as E; [subst r'|reflexivity].
  destruct (objects s !! r) as [p|]; reflexivity.
Qed.

Lemma keeps_statics_history_append r ev : keeps statics (history_append r ev).
Proof.
  unfold history_append.
  frame_by ltac:(apply statics_push_event).
Qed.

#[export] Hint Resolve keeps_statics_history_append : keeps.

(** ** What a cancellation leaves behind *)

(** Every key of the store maps to a process object with that id. *)
Definition store_consistent (s : MemoryBackend) : Prop :=
  map_Forall (λ pid r, p_id <$> objects s !! r = Some pid) (running_processes s).

#[global] Instance store_consistent_dec s : Decision (store_consistent s).
Proof. unfold store_consistent. apply _. Defined.

Lemma store_consistent_lookup s pid r :
  store_consistent s → running_processes s !! pid = Some r →
  ∃ p, objects s !! r = Some p ∧ p_id p = pid.
Proof.
  intros H Hr. specialize (H pid r Hr). simpl in H.
  destruct (objects s !! r) as [p|]; [|discriminate].
  injection H as <-. eauto.
Qed.

(** A scheduled decision of process object [r] is waiting in some queue. *)
Definition queued (s : MemoryBackend) (r : ref) : Prop :=
  ∃ cat l q d, scheduled_decisions s !! cat = Some l ∧ lists s !! l = Some q
               ∧ d ∈ q ∧ sd_process d = r.

(** [c] is a live process whose parent is [k]. *)
Definition child_of (s : MemoryBackend) (c k : ident) : Prop :=
  ∃ r p, running_processes s !! c = Some r ∧ objects s !! r = Some p
         ∧ p_parent p = Some k.

Inductive descendant (s : MemoryBackend) (pid : ident) : ident → Prop :=
| descendant_child c : child_of s c pid → descendant s pid c
| descendant_step k c : descendant s pid k → child_of s c k → descendant s pid c.

(** The footprint of a cancellation: the store and the list objects only
    lose entries. *)
Definition cancel_frame (s t : MemoryBackend) : Prop :=
  running_processes t ⊆ running_processes s
  ∧ statics t = statics s
  ∧ scheduled_decisions t = scheduled_decisions s
  ∧ lists_shrink s t.

Lemma cancel_frame_refl s : cancel_frame s s.
Proof. repeat split; try reflexivity. apply lists_shrink_refl. Qed.

Lemma cancel_frame_trans s t u : cancel_frame s t → cancel_frame t u → cancel_frame s u.
Proof.
  intros (A1 & A2 & A3 & A4) (B1 & B2 & B3 & B4). repeat split.
  - etrans; eassumption.
  - congruence.
  - congruence.
  - eapply lists_shrink_trans; eassumption.
Qed.

Lemma preserves_store_below X fuel pid details :
  preserves (λ t, running_processes t ⊆ X) (cancel_process_rec fuel pid details).
Proof.
  revert pid details. induction fuel as [|fuel IH]; intros pid details; simpl.
  - preserve.
  - unfold _cancel_process_internal. preserve_all.
    + intros s Hs. rewrite keeps_history_append; [exact Hs|]. intros ? ?; reflexivity.
    + intros s Hs. rewrite keeps_cancel_decision; [exact Hs|].
      split; intros; reflexivity.
    + apply preserves_modify. intros s Hs. simpl.
      etrans; [apply delete_subseteq | exact Hs].
    + apply IH.
Qed.

Lemma preserves_lists_shrink_rec s0 fuel pid details :
  preserves (lists_shrink s0) (cancel_process_rec fuel pid details).
Proof.
  revert pid details. induction fuel as [|fuel IH]; intros pid details; simpl.
  - preserve.
  - unfold _cancel_process_internal. preserve_all.
    + intros s Hs. unfold lists_shrink. rewrite keeps_history_append; [exact Hs|].
      intros ? ?; reflexivity.
    + apply preserves_lists_shrink_cancel_decision.
    + apply preserves_modify. intros s Hs. exact Hs.
    + apply IH.
Qed.

Lemma preserves_cancel_frame_rec s0 fuel pid details :
  preserves (cancel_frame s0) (cancel_process_rec fuel pid details).
Proof.
  intros s (A1 & A2 & A3 & A4). repeat split.
  - apply (preserves_store_below _ fuel pid details s A1).
  - rewrite <- A2. apply (keeps_cancel_process_rec statics); auto with keeps.
  - rewrite <- A3. apply (keeps_cancel_process_rec scheduled_decisions); auto with keeps.
  - apply (preserves_lists_shrink_rec s0 fuel pid details s A4).
Qed.

Definition purged_gone (s t : MemoryBackend) : Prop :=
  ∀ k r, running_processes s !! k = Some r → running_processes t !! k = None →
         ∀ cat l, scheduled_decisions s !! cat = Some l → clean r t l.

Definition children_gone (s t : MemoryBackend) : Prop :=
  ∀ k c, is_Some (running_processes s !! k) → running_processes t !! k = None →
         child_of s c k → running_processes t !! c = None.

(** What a completed cancellation has done between [s] and [t]. *)
Definition cancelled (s t : MemoryBackend) : Prop :=
  cancel_frame s t ∧ purged_gone s t ∧ children_gone s t.

Lemma child_of_statics s t c k r :
  statics t = statics s →
  running_processes s !! c = Some r → running_processes t !! c = Some r →
  child_of s c k → child_of t c k.
Proof.
  intros Hst Hs Ht (r' & p & Hr' & Hp & Hpar).
  rewrite Hs in Hr'. injection Hr' as <-.
  apply statics_lookup in Hp. rewrite <- Hst in Hp.
  apply statics_lookup_inv in Hp as (p' & Hp' & Heq).
  exists r, p'. repeat split; [exact Ht | exact Hp' |].
  unfold static in Heq. injection Heq as _ _ _ ->. exact Hpar.
Qed.

Lemma store_consistent_frame s t :
  cancel_frame s t → store_consistent s → store_consistent t.
Proof.
  intros (Hsub & Hst & _) Hc pid r Hr. simpl.
  destruct (store_consistent_lookup s pid r Hc (lookup_weaken _ _ _ _ Hr Hsub))
    as (p & Hp & Hid).
  apply statics_lookup in Hp. rewrite <- Hst in Hp.
  apply statics_lookup_inv in Hp as (p' & Hp' & Heq).
  rewrite Hp'. simpl. unfold static in Heq. injection Heq as E _ _ _. congruence.
Qed.

Lemma cancelled_refl s : cancelled s s.
Proof.
  split; [apply cancel_frame_refl|]. split.
  - intros k r H1 H2. congruence.
  - intros k c [r H1] H2. congruence.
Qed.

Lemma cancelled_trans s t u : cancelled s t → cancelled t u → cancelled s u.
Proof.
  intros (F1 & D1 & E1) (F2 & D2 & E2).
  split; [eapply cancel_frame_trans; eassumption|].
  destruct F1 as (Sub1 & St1 & Q1 & L1). destruct F2 as (Sub2 & St2 & Q2 & L2).
  split.
  - intros k r Hs Hu cat l Hl.
    destruct (running_processes t !! k) as [r'|] eqn:Ht.
    + pose proof (lookup_weaken _ _ _ _ Ht Sub1) as Hs'.
      rewrite Hs in Hs'. injection Hs' as <-.
      apply (D2 k r Ht Hu cat l). rewrite Q1. exact Hl.
    + apply (clean_shrink r t); [exact L2|]. apply (D1 k r Hs Ht cat l Hl).
  - intros k c [rk Hk] Hu Hchild.
    destruct (running_processes t !! c) as [rc|] eqn:Hc;
      [|eapply lookup_weaken_None; eassumption].
    destruct (running_processes t !! k) as [rk'|] eqn:Ht.
    + apply (E2 k c (mk_is_Some _ _ Ht) Hu).
      apply (child_of_statics s t c k rc St1); [|exact Hc|exact Hchild].
      apply (lookup_weaken _ _ _ _ Hc Sub1).
    + pose proof (E1 k c (mk_is_Some _ _ Hk) Ht Hchild). congruence.
Qed.

Lemma keeps_exec {A F} (f : MemoryBackend → F) (m : M A) s r s' :
  keeps f m → m s = (r, s') → f s' = f s.
Proof. intros H E. specialize (H s). unfold run in H. rewrite E in H. exact H. Qed.

(** [kept f H as E]: from an execution [H : m s = (r, s')] of a method
    that keeps [f], the equation [E : f s' = f s]. *)
Tactic Notation "kept" constr(f) constr(H) "as" ident(E) :=
  lazymatch type of H with
  | ?m ?s = (_, ?s') =>
      assert (f s' = f s) as E
        by (refine (keeps_exec f m s _ s' _ H); solve [eauto with keeps])
  end.

Lemma preserves_exec {A} (I : MemoryBackend → Prop) (m : M A) s r s' :
  preserves I m → m s = (r, s') → I s → I s'.
Proof. intros H E Hs. specialize (H s Hs). unfold run in H. rewrite E in H. exact H. Qed.

Lemma the_process_Ok r s p s' :
  the_process r s = (Ok p, s') → objects s !! r = Some p ∧ s' = s.
Proof. apply (lookup_or_raise_Ok (λ s, objects s !! r)). Qed.

Lemma managed_process_Ok pid s r s' :
  _managed_process pid s = (Ok r, s') → running_processes s !! pid = Some r ∧ s' = s.
Proof. apply (lookup_or_raise_Ok (λ s, running_processes s !! pid)). Qed.

Lemma cancel_process_rec_Ok fuel pid details s u s' :
  store_consistent s →
  cancel_process_rec fuel pid details s = (Ok u, s') →
  cancelled s s' ∧ running_processes s' !! pid = None.
Proof.
  revert pid details s u s'.
  induction fuel as [|fuel IH]; intros pid details s u s' Hcons H; [discriminate|].
  simpl in H.
  apply bind_Ok in H as (mp & s1 & Hmp & H). apply managed_process_Ok in Hmp as [Hmp ->].
  apply bind_Ok in H as ([] & sa & Ha & H).
  unfold _cancel_process_internal in H.
  apply bind_Ok in H as ([] & sb & Hb & H).
  apply bind_Ok in H as (p & s1 & Hp & H). apply the_process_Ok in Hp as [Hp ->].
  apply bind_Ok in H as (r0 & s1 & Hlive & H).
  apply (lookup_or_raise_Ok (λ s, running_processes s !! p_id p)) in Hlive as [Hlive ->].
  apply bind_Ok in H as ([] & sc & Hc & H). apply modify_Ok in Hc.
  apply bind_Ok in H as (children & s1 & Hch & H). apply gets_Ok in Hch as [-> ->].
  (* the state before the loop *)
  kept running_processes Ha as Estore_a. kept running_processes Hb as Estore_b.
  kept statics Ha as Estat_a. kept statics Hb as Estat_b.
  kept scheduled_decisions Ha as Equeue_a. kept scheduled_decisions Hb as Equeue_b.
  kept lists Ha as Elists_a.
  assert (running_processes sb = running_processes s) as Estore by congruence.
  assert (statics sb = statics s) as Estat by congruence.
  assert (scheduled_decisions sb = scheduled_decisions s) as Equeue by congruence.
  assert (lists_shrink s sb) as Hshrink.
  { apply (preserves_exec _ _ _ _ _ (preserves_lists_shrink_cancel_decision s mp) Hb).
    unfold lists_shrink. rewrite Elists_a. apply lists_shrink_refl. }
  assert (p_id p = pid) as Hpid.
  { destruct (store_consistent_lookup s pid mp Hcons Hmp) as (p0 & Hp0 & Hid).
    apply statics_lookup in Hp0, Hp. rewrite Estat, Hp0 in Hp.
    unfold static in Hp. injection Hp as E _ _ _. congruence. }
  rewrite Hpid in *. clear Hlive r0.
  assert (cancel_frame s sc) as Hframe.
  { subst sc. repeat split; simpl; try assumption.
    rewrite Estore. apply delete_subseteq. }
  assert (store_consistent sc) as Hcons_c by (eapply store_consistent_frame; eassumption).
  assert (running_processes sc !! pid = None) as Hgone_c
    by (subst sc; simpl; apply lookup_delete_eq).
  (* the loop over the children *)
  destruct (for_each_Ok_all (cancelled sc) (λ kr t, running_processes t !! kr.1 = None)
              _ _ sc u s' H (cancelled_refl sc)) as [Hloop Hkids].
  { intros [c rc] t1 t2 Hin Ht1 Hbody. simpl in *.
    apply list_elem_of_filter in Hin as [_ Hin]. apply elem_of_map_to_list in Hin.
    apply bind_Ok in Hbody as (pc & t & Hpc & Hbody).
    apply the_process_Ok in Hpc as [Hpc ->].
    assert (store_consistent t1) as Hcons1
      by (eapply store_consistent_frame; [apply Ht1 | exact Hcons_c]).
    assert (p_id pc = c) as Hc_id.
    { destruct (store_consistent_lookup sc c rc Hcons_c Hin) as (p0 & Hp0 & Hid).
      apply statics_lookup in Hp0, Hpc.
      destruct Ht1 as ((_ & St & _) & _). rewrite St, Hp0 in Hpc.
      unfold static in Hpc. injection Hpc as E _ _ _. congruence. }
    rewrite Hc_id in Hbody.
    destruct (IH c None t1 tt t2 Hcons1 Hbody) as [Hcan Hgone].
    split; [eapply cancelled_trans; eassumption | exact Hgone]. }
  { intros [c rc] [c' rc'] t1 t2 Hin Ht1 Hx Hbody. simpl in *.
    apply bind_Ok in Hbody as (pc & t & Hpc & Hbody).
    apply the_process_Ok in Hpc as [Hpc ->].
    pose proof (preserves_exec _ _ _ _ _
                  (preserves_store_below (running_processes t1) fuel (p_id pc) None)
                  Hbody (reflexivity _)) as Hsub.
    eapply lookup_weaken_None; eassumption. }
  destruct Hloop as (Floop & Dloop & Eloop).
  assert (running_processes s' !! pid = None) as Hgone
    by (eapply lookup_weaken_None; [exact Hgone_c | apply Floop]).
  split; [|exact Hgone].
  split; [eapply cancel_frame_trans; eassumption|]. split.
  - intros k r Hk Hk' cat l Hl. destruct (decide (k = pid)) as [->|Hne].
    + rewrite Hmp in Hk. injection Hk as <-.
      apply (clean_shrink mp sb).
      * destruct Floop as (_ & _ & _ & L). subst sc. exact L.
      * apply (cancel_decision_Ok mp sa tt sb Hb cat l). rewrite Equeue_a. exact Hl.
    + apply (Dloop k r) with (cat := cat); [|exact Hk'|].
      * subst sc. simpl. rewrite lookup_delete_ne by congruence.
        rewrite Estore. exact Hk.
      * subst sc. simpl. rewrite Equeue. exact Hl.
  - intros k c [rk Hk] Hk' Hchild.
    destruct (decide (c = pid)) as [->|Hc_ne]; [exact Hgone|].
    destruct Hchild as (rc & pc & Hrc & Hpc & Hpar).
    assert (running_processes sc !! c = Some rc) as Hrc_c.
    { subst sc. simpl. rewrite lookup_delete_ne by congruence.
      rewrite Estore. exact Hrc. }
    assert (∃ pc', objects sc !! rc = Some pc' ∧ p_parent pc' = Some k) as (pc' & Hpc' & Hpar').
    { apply statics_lookup in Hpc.
      destruct Hframe as (_ & St & _). rewrite <- St in Hpc.
      apply statics_lookup_inv in Hpc as (pc' & Hpc' & Heq).
      exists pc'. split; [exact Hpc'|].
      unfold static in Heq. injection Heq as _ _ _ ->. exact Hpar. }
    destruct (decide (k = pid)) as [->|Hk_ne].
    + apply (Hkids (c, rc)). apply list_elem_of_filter. split.
      * simpl. rewrite Hpc'. simpl. rewrite Hpar'. reflexivity.
      * apply elem_of_map_to_list. exact Hrc_c.
    + apply (Eloop k c); [|exact Hk'|].
      * exists rk. subst sc. simpl. rewrite lookup_delete_ne by congruence.
        rewrite Estore. exact Hk.
      * exists rc, pc'. auto.
Qed.

(** ** The recursion budget of [cancel_process] is never exhausted *)

Definition avoids {A} (m : M A) : Prop := ∀ s, outcome m s ≠ Raise OutOfFuel.

Lemma avoids_ret {A} (a : A) : avoids (ret a).
Proof. intros s. discriminate. Qed.

Lemma avoids_raise {A} e : e ≠ OutOfFuel → avoids (raise e : M A).
Proof. intros H s. unfold outcome, raise. simpl. congruence. Qed.

Lemma avoids_gets {A} (f : MemoryBackend → A) : avoids (gets f).
Proof. intros s. discriminate. Qed.

Lemma avoids_modify f : avoids (modify f).
Proof. intros s. discriminate. Qed.

Lemma avoids_or_raise {A} e (o : option A) : e ≠ OutOfFuel → avoids (or_raise e o).
Proof. intros H. destruct o; [apply avoids_ret | apply avoids_raise, H]. Qed.

Lemma avoids_bind {A B} (m : M A) (k : A → M B) :
  avoids m → (∀ a, avoids (k a)) → avoids (bind m k).
Proof.
  intros Hm Hk s. rewrite outcome_bind. specialize (Hm s).
  destruct (outcome m s) as [a|e]; [apply Hk | congruence].
Qed.

(** A loop whose iterations keep [I] and do not run out of fuel under
    [I]. *)
Lemma for_each_avoids {A} (I : MemoryBackend → Prop) (l : list A) (body : A → M unit) :
  (∀ x s, x ∈ l → I s → outcome (body x) s ≠ Raise OutOfFuel ∧ I (run (body x) s)) →
  ∀ s, I s → outcome (for_each l body) s ≠ Raise OutOfFuel.
Proof.
  induction l as [|x l IH]; intros H s Hs; [discriminate|].
  simpl. rewrite outcome_bind.
  destruct (H x s) as [Hx Hrun]; [left | exact Hs |].
  destruct (outcome (body x) s) as [[]|e]; [|congruence].
  apply IH; [|exact Hrun]. intros y t Hy. apply H. right. exact Hy.
Qed.

Lemma avoids_for_each {A} (l : list A) (body : A → M unit) :
  (∀ x, avoids (body x)) → avoids (for_each l body).
Proof.
  intros H s. apply (for_each_avoids (λ _, True)); [|exact I].
  intros x t _ _. split; [apply H | exact I].
Qed.

Ltac avoid_step :=
  lazymatch goal with
  | |- avoids (bind _ _) => apply avoids_bind; [|intros ?]
  | |- avoids (ret _) => apply avoids_ret
  | |- avoids (raise _) => apply avoids_raise; discriminate
  | |- avoids (gets _) => apply avoids_gets
  | |- avoids (modify _) => apply avoids_modify
  | |- avoids (or_raise _ _) => apply avoids_or_raise; discriminate
  | |- avoids (for_each _ _) => apply avoids_for_each; intros ?
  | |- avoids (match ?x with _ => _ end) => destruct x
  end.

Lemma avoids_cancel_prologue pid :
  avoids (_managed_process pid)
  ∧ (∀ r ev, avoids (history_append r ev))
  ∧ (∀ r, avoids (_cancel_decision r))
  ∧ (∀ r, avoids (the_process r)).
Proof.
  unfold _managed_process, history_append, _cancel_decision, the_process,
    list_remove, list_read.
  repeat split; intros; repeat avoid_step.
Qed.

Lemma outcome_lookup_or_raise {A} (f : MemoryBackend → option A) e s :
  outcome (let* o := gets f in or_raise e o) s
  = match f s with Some a => Ok a | None => Raise e end.
Proof. unfold outcome, bind, gets, or_raise. destruct (f s); reflexivity. Qed.

Lemma run_lookup_or_raise {A} (f : MemoryBackend → option A) e s :
  run (let* o := gets f in or_raise e o) s = s.
Proof. unfold run, bind, gets, or_raise. destruct (f s); reflexivity. Qed.

Lemma cancel_process_rec_fuel (n : nat) pid details s :
  (size (running_processes s) ≤ n)%nat →
  outcome (cancel_process_rec (S n) pid details) s ≠ Raise OutOfFuel.
Proof.
  revert pid details s. induction n as [|n IH]; intros pid details s Hsize.
  - assert (running_processes s = ∅) as Hempty by (apply map_size_empty_iff; lia).
    simpl. rewrite outcome_bind. unfold _managed_process at 1.
    unfold outcome at 1, bind, gets. rewrite Hempty, lookup_empty. simpl. discriminate.
  - destruct (avoids_cancel_prologue pid) as (A1 & A2 & A3 & A4).
    change (cancel_process_rec (S (S n)) pid details)
      with (let* mp := _managed_process pid in
            history_append mp (DecisionEvent (CancelProcess details)) ;;
            _cancel_process_internal (λ c, cancel_process_rec (S n) c None) mp).
    rewrite outcome_bind. specialize (A1 s).
    destruct (outcome (_managed_process pid) s) as [mp|e] eqn:E1; [|congruence].
    rewrite (keeps_managed_process (λ s, s) pid s : run _ s = s).
    rewrite outcome_bind. specialize (A2 mp (DecisionEvent (CancelProcess details)) s).
    destruct (outcome (history_append mp _) s) as [[]|e] eqn:E2; [|congruence].
    pose proof (keeps_history_append running_processes mp
                  (DecisionEvent (CancelProcess details)) (λ _ _, eq_refl) s) as K2.
    revert K2. generalize (run (history_append mp (DecisionEvent (CancelProcess details))) s).
    intros sa K2. unfold _cancel_process_internal.
    rewrite outcome_bind. specialize (A3 mp sa).
    destruct (outcome (_cancel_decision mp) sa) as [[]|e] eqn:E3; [|congruence].
    pose proof (keeps_cancel_decision running_processes mp
                  (conj (λ _ _, eq_refl) (λ _, eq_refl)) sa) as K3.
    revert K3. generalize (run (_cancel_decision mp) sa). intros sb K3.
    rewrite outcome_bind. pose proof (A4 mp sb) as A4'.
    destruct (outcome (the_process mp) sb) as [p|e] eqn:E4; [|congruence].
    rewrite (keeps_the_process (λ s, s) mp sb : run _ sb = sb).
    rewrite outcome_bind, outcome_lookup_or_raise, run_lookup_or_raise.
    destruct (running_processes sb !! p_id p) as [r|] eqn:Hlive; [|discriminate].
    rewrite outcome_bind.
    change (outcome (modify (set_running_processes (delete (p_id p)))) sb) with (Ok tt).
    change (run (modify (set_running_processes (delete (p_id p)))) sb)
      with (set_running_processes (delete (p_id p)) sb).
    cbv beta iota. rewrite outcome_bind. unfold outcome at 2, run at 1, gets. simpl.
    apply (for_each_avoids (λ t, (size (running_processes t) ≤ n)%nat)).
    + intros [c rc] t _ Ht. split.
      * rewrite outcome_bind. pose proof (A4 rc t) as A4''. simpl in *.
        destruct (outcome (the_process rc) t) as [pc|e]; [|congruence].
        rewrite (keeps_the_process (λ s, s) rc t : run _ t = t).
        apply IH, Ht.
      * rewrite run_bind. simpl.
        destruct (outcome (the_process rc) t) as [pc|e];
          rewrite (keeps_the_process (λ s, s) rc t : run _ t = t); [|exact Ht].
        pose proof (preserves_store_below (running_processes t) (S n) (p_id pc) None t
                      (reflexivity _)) as Hsub.
        apply map_subseteq_size in Hsub. exact (Nat.le_trans _ _ _ Hsub Ht).
    + simpl. rewrite map_size_delete, Hlive. rewrite K3, K2. lia.
Qed.

Lemma cancel_process_never_out_of_fuel pid details s :
  outcome (cancel_process pid details) s ≠ Raise OutOfFuel.
Proof.
  change (outcome (cancel_process_rec (S (size (running_processes s))) pid details) s
          ≠ Raise OutOfFuel).
  apply (cancel_process_rec_fuel (size (running_processes s)) pid details s). lia.
Qed.

(** * Cancellation and the queues *)

(** Process object [r] is referred to by an entry of a scheduled-activity
    queue, of the running-activities table, of the running-decisions
    table. *)
Definition in_scheduled_activities (s : MemoryBackend) (r : ref) : Prop :=
  ∃ q queue a, scheduled_activities s !! q = Some queue ∧ a ∈ queue ∧ sa_process a = r.

Definition in_running_activities (s : MemoryBackend) (r : ref) : Prop :=
  ∃ k a, running_activities s !! k = Some a ∧ ra_process a = r.

Definition in_running_decisions (s : MemoryBackend) (r : ref) : Prop :=
  ∃ k a, running_decisions s !! k = Some a ∧ rd_process a = r.

(** C1, as stated, fails: cancelling the process of the running example
    leaves its scheduled activity in the queue, its running activity in
    the running-activities table and its running decision in the
    running-decisions table, all three referring to a process that is no
    longer in the store. *)
Lemma cancel_process_leaves_table_entries :
  running_processes activity_scheduled !! Uuid 0 = Some 0%nat
  ∧ cancel_process (Uuid 0) None activity_scheduled
    = (Ok tt, run (cancel_process (Uuid 0) None) activity_scheduled)
  ∧ in_scheduled_activities (run (cancel_process (Uuid 0) None) activity_scheduled) 0%nat
  ∧ in_running_activities (run (cancel_process (Uuid 0) None) working) 0%nat
  ∧ in_running_decisions (run (cancel_process (Uuid 0) None) deciding) 0%nat
  ∧ running_processes (run (cancel_process (Uuid 0) None) activity_scheduled) = ∅
  ∧ running_processes (run (cancel_process (Uuid 0) None) working) = ∅
  ∧ running_processes (run (cancel_process (Uuid 0) None) deciding) = ∅.
Proof.
  split; [reflexivity|]. split; [vm_compute; reflexivity|]. split.
  { exists "default", [ {| sa_execution := a1; sa_process := 0%nat; sa_expiration := 1 |} ],
      {| sa_execution := a1; sa_process := 0%nat; sa_expiration := 1 |}.
    split; [vm_compute; reflexivity|]. split; [left | reflexivity]. }
  split.
  { exists (Uuid 2), {| ra_execution := a1; ra_process := 0%nat;
                        ra_expiration := 60; ra_heartbeat := 30 |}.
    split; [vm_compute; reflexivity | reflexivity]. }
  split.
  { exists (Uuid 1), {| rd_process := 0%nat; rd_expiration := 3600 |}.
    split; [vm_compute; reflexivity | reflexivity]. }
  repeat split; vm_compute; reflexivity.
Qed.

Lemma descendant_live s pid k :
  descendant s pid k → is_Some (running_processes s !! k).
Proof. intros [c (r & p & Hr & _)|k' c _ (r & p & Hr & _)]; eexists; exact Hr. Qed.

(** C1 (amended): when [cancel_process(p)] returns, [p] and its
    transitive descendants have left the store, and no list bound in
    [scheduled_decisions] holds an entry of a process that has left the
    store with them.  The scheduled-activity queues, the
    running-activities table and the running-decisions table are exactly
    as before, whatever they refer to. *)
Theorem cancel_process_purges_scheduled_decisions (pid : ident) (details : payload)
    (s : MemoryBackend) :
  store_consistent s →
  outcome (cancel_process pid details) s = Ok tt →
  let s' := run (cancel_process pid details) s in
  running_processes s' !! pid = None
  ∧ (∀ k, descendant s pid k → running_processes s' !! k = None)
  ∧ (∀ k r, running_processes s !! k = Some r → running_processes s' !! k = None →
            ¬ queued s' r)
  ∧ scheduled_activities s' = scheduled_activities s
  ∧ running_activities s' = running_activities s
  ∧ running_decisions s' = running_decisions s.
Proof.
  intros Hcons Hok s'.
  assert (cancel_process_rec (S (size (running_processes s))) pid details s = (Ok tt, s'))
    as Hrun.
  { change (cancel_process pid details s = (Ok tt, s')).
    rewrite M_eta, Hok. reflexivity. }
  destruct (cancel_process_rec_Ok _ _ _ _ _ _ Hcons Hrun)
    as (((Hsub & Hst & Hq & Hl) & Hpurged & Hkids) & Hgone).
  assert (is_Some (running_processes s !! pid)) as Hlive.
  { simpl in Hrun. apply bind_Ok in Hrun as (mp & s1 & Hmp & _).
    apply managed_process_Ok in Hmp as [Hmp _]. eexists; exact Hmp. }
  split; [exact Hgone|]. split.
  { intros k Hk. induction Hk as [c Hc|k c Hk IH Hc].
    - apply (Hkids pid c Hlive Hgone Hc).
    - apply (Hkids k c (descendant_live s pid k Hk) IH Hc). }
  split.
  { intros k r Hk Hk' (cat & l & q & d & Hcat & Hlq & Hd & Hr).
    rewrite Hq in Hcat. apply (Hpurged k r Hk Hk' cat l Hcat q d Hlq Hd Hr). }
  split; [|split].
  - apply (keeps_cancel_process scheduled_activities); auto with keeps.
  - apply (keeps_cancel_process running_activities); auto with keeps.
  - apply (keeps_cancel_process running_decisions); auto with keeps.
Qed.

(** A parent with a child (scenario S6): the first decision of the running
    example starts a child process, and the parent is signalled, so that
    both have a decision waiting. *)
Definition child_template : ProcessTemplate :=
  {| t_id := None; t_workflow := "wf"; t_input := Some "c"; t_tags := [];
     t_parent := None |}.

Definition family : MemoryBackend :=
  run (complete_decision_task 0 first_task (Many [StartChildProcess child_template]) ;;
       signal_process 0 (Uuid 0) "go" None) deciding.

Lemma family_facts :
  running_processes family !! Uuid 0 = Some 0%nat
  ∧ running_processes family !! Uuid 2 = Some 1%nat
  ∧ descendant family (Uuid 0) (Uuid 2)
  ∧ queued family 0%nat ∧ queued family 1%nat.
Proof.
  split; [reflexivity|]. split; [reflexivity|]. split.
  { apply descendant_child.
    exists 1%nat, {| p_id := Uuid 2; p_workflow := "wf"; p_input := Some "c";
                     p_tags := []; p_parent := Some (Uuid 0); history := [] |}.
    repeat split; vm_compute; reflexivity. }
  split.
  - exists "default", 3%nat,
      [ {| sd_process := 1%nat; sd_start := None; sd_expiration := Some 60;
           sd_timer := None |};
        {| sd_process := 0%nat; sd_start := None; sd_expiration := Some 60;
           sd_timer := None |} ],
      {| sd_process := 0%nat; sd_start := None; sd_expiration := Some 60;
         sd_timer := None |}.
    split; [vm_compute; reflexivity|]. split; [vm_compute; reflexivity|].
    split; [right; left | reflexivity].
  - exists "default", 3%nat,
      [ {| sd_process := 1%nat; sd_start := None; sd_expiration := Some 60;
           sd_timer := None |};
        {| sd_process := 0%nat; sd_start := None; sd_expiration := Some 60;
           sd_timer := None |} ],
      {| sd_process := 1%nat; sd_start := None; sd_expiration := Some 60;
         sd_timer := None |}.
    split; [vm_compute; reflexivity|]. split; [vm_compute; reflexivity|].
    split; [left | reflexivity].
Qed.

Lemma cancel_process_purges_scheduled_decisions_witness :
  store_consistent family
  ∧ outcome (cancel_process (Uuid 0) None) family = Ok tt
  ∧ (let s' := run (cancel_process (Uuid 0) None) family in
     running_processes s' !! Uuid 0 = None
     ∧ (∀ k, descendant family (Uuid 0) k → running_processes s' !! k = None)
     ∧ (∀ k r, running_processes family !! k = Some r →
               running_processes s' !! k = None → ¬ queued s' r)
     ∧ scheduled_activities s' = scheduled_activities family
     ∧ running_activities s' = running_activities family
     ∧ running_decisions s' = running_decisions family).
Proof.
  assert (store_consistent family) as H1
    by (apply (bool_decide_unpack (store_consistent family)); vm_compute; exact I).
  assert (outcome (cancel_process (Uuid 0) None) family = Ok tt) as H2
    by (vm_compute; reflexivity).
  split; [exact H1|]. split; [exact H2|].
  exact (cancel_process_purges_scheduled_decisions (Uuid 0) None family H1 H2).
Defined.

(** * De-duplication of scheduled decisions *)

Lemma insert_by_Permutation {A} (key : A → Z) x l : insert_by key x l ≡ₚ x :: l.
Proof.
  induction l as [|y l IH]; simpl; [reflexivity|].
  destruct (key x <=? key y); [reflexivity|].
  rewrite IH. apply Permutation_swap.
Qed.

Lemma sorted_Permutation {A} (key : A → Z) l : sorted key l ≡ₚ l.
Proof.
  induction l as [|x l IH]; simpl; [reflexivity|].
  unfold sorted in *. simpl. rewrite insert_by_Permutation, IH. reflexivity.
Qed.

(** The queue of a category: the list object bound to it. *)
Definition queue_of (s : MemoryBackend) (category : string)
    : option (list ScheduledDecision) :=
  scheduled_decisions s !! category ≫= λ l, lists s !! l.

(** A non-timer entry of process [r]. *)
Definition nontimer_of (r : ref) (d : ScheduledDecision) : Prop :=
  sd_process d = r ∧ sd_timer d = None.

#[global] Instance nontimer_of_dec r d : Decision (nontimer_of r d).
Proof. unfold nontimer_of. apply _. Defined.

(** A list with at most one non-timer entry per process, whose non-timer
    entries have no start time. *)
Definition deduplicated (q : list ScheduledDecision) : Prop :=
  (∀ r, (length (filter (nontimer_of r) q) ≤ 1)%nat)
  ∧ (∀ d, d ∈ q → sd_timer d = None → sd_start d = None).

Definition queues_deduplicated (s : MemoryBackend) : Prop :=
  ∀ l q, lists s !! l = Some q → deduplicated q.

Lemma deduplicated_nil : deduplicated [].
Proof. split; [intros r; rewrite filter_nil; simpl; lia | intros d Hd; inversion Hd]. Qed.

Lemma deduplicated_Permutation q q' : q ≡ₚ q' → deduplicated q → deduplicated q'.
Proof.
  intros Hp [H1 H2]. split.
  - intros r. rewrite <- Hp. apply H1.
  - intros d Hd. apply H2. rewrite Hp. exact Hd.
Qed.

Lemma deduplicated_remove d q q' :
  py_remove d q = Some q' → deduplicated q → deduplicated q'.
Proof.
  intros Hrem [H1 H2]. split.
  - intros r. specialize (H1 r).
    destruct (py_remove_filter (nontimer_of r) d q q' Hrem) as [Ha Hb].
    destruct (decide (nontimer_of r d)) as [Hd|Hd].
    + rewrite (Ha Hd) in H1. lia.
    + rewrite (Hb Hd). exact H1.
  - intros x Hx. apply H2. apply (py_remove_Some d q q' Hrem), Hx.
Qed.

(** Appending a timer entry, or a non-timer entry that the guard of
    [_schedule_decision] lets through. *)
Lemma deduplicated_append now r start expiration timer q :
  (timer = None → start = None) →
  is_Some timer ∨ matching now r start q = [] →
  deduplicated q →
  deduplicated (q ++ [ {| sd_process := r; sd_start := start;
                          sd_expiration := expiration; sd_timer := timer |} ]).
Proof.
  intros Hstart Hguard [H1 H2]. split.
  - intros r'. rewrite filter_app, length_app. specialize (H1 r').
    destruct timer as [t|].
    + rewrite filter_cons_False, filter_nil by (intros [_ ?]; discriminate).
      simpl. lia.
    + destruct Hguard as [[? ?]|Hguard]; [discriminate|].
      destruct (decide (r' = r)) as [->|Hne].
      * assert (filter (nontimer_of r) q = []) as ->;
          [|rewrite filter_cons_True by (split; reflexivity); simpl; lia].
        destruct (filter (nontimer_of r) q) as [|d ?] eqn:E; [reflexivity|exfalso].
        assert (d ∈ filter (nontimer_of r) q) as Hd by (rewrite E; left).
        apply list_elem_of_filter in Hd as [[Hr Ht] Hd].
        assert (d ∈ matching now r start q) as Hm.
        { unfold matching. apply list_elem_of_filter. split.
          - unfold due_by. rewrite (H2 d Hd Ht). exact I.
          - apply list_elem_of_filter. split; assumption. }
        rewrite Hguard in Hm. inversion Hm.
      * rewrite filter_cons_False, filter_nil by (intros [? _]; simpl in *; congruence).
        simpl. lia.
  - intros d Hd Ht. apply elem_of_app in Hd as [Hd|Hd]; [apply H2; assumption|].
    apply list_elem_of_singleton in Hd. subst d. simpl in *. auto.
Qed.

(** ** [_schedule_decision] in closed form *)

(** The entry that [_schedule_decision] appends. *)
Definition new_entry (now : Z) (r : ref) (start : option Z) (timer : option decision)
    (info : WorkflowInfo) : ScheduledDecision :=
  {| sd_process := r; sd_start := start;
     sd_expiration := match timer with
                      | Some _ => None
                      | None => Some (now + wf_decision_timeout info)
                      end;
     sd_timer := timer |}.

(** The state after the append: the entry is added in place to list
    object [l], and the category is rebound to a new list object holding
    the sorted copy. *)
Definition enqueue (now : Z) (category : string) (l : loc)
    (q : list ScheduledDecision) (d : ScheduledDecision) (s : MemoryBackend)
    : MemoryBackend :=
  set_scheduled_decisions (insert category (next_loc s))
    (bump_loc (set_lists (insert (next_loc s) (sorted (start_key now) (q ++ [d])))
                 (set_lists (insert l (q ++ [d])) s))).

Lemma schedule_decision_eq now r start timer s :
  _schedule_decision now r start timer s =
  match objects s !! r with
  | None => (Raise AttributeError, s)
  | Some p =>
    match workflows s !! p_workflow p with
    | None => (Raise KeyError, s)
    | Some info =>
      match scheduled_decisions s !! wf_category info with
      | None => (Raise KeyError, s)
      | Some l =>
        match lists s !! l with
        | None => (Raise AttributeError, s)
        | Some q =>
            if bool_decide (is_Some timer ∨ matching now r start q = [])
            then (Ok tt, enqueue now (wf_category info) l q
                           (new_entry now r start timer info) s)
            else (Ok tt, s)
        end
      end
    end
  end.
Proof.
  unfold _schedule_decision, the_process, list_append, list_read, new_list,
    bind, gets, or_raise, ret, raise, modify.
  destruct (objects s !! r) as [p|]; [|reflexivity].
  destruct (workflows s !! p_workflow p) as [info|]; [|reflexivity].
  destruct (scheduled_decisions s !! wf_category info) as [l|]; [|reflexivity].
  destruct (lists s !! l) as [q|] eqn:Hq; [|reflexivity].
  destruct (bool_decide (is_Some timer ∨ matching now r start q = [])); [|reflexivity].
  simpl. rewrite Hq. simpl. rewrite lookup_insert_eq. reflexivity.
Qed.

Lemma preserves_dedup_schedule_decision now r start timer :
  (timer = None → start = None) →
  preserves queues_deduplicated (_schedule_decision now r start timer).
Proof.
  intros Hstart s Hs. unfold run. rewrite schedule_decision_eq.
  destruct (objects s !! r) as [p|]; [|exact Hs].
  destruct (workflows s !! p_workflow p) as [info|]; [|exact Hs].
  destruct (scheduled_decisions s !! wf_category info) as [l|]; [|exact Hs].
  destruct (lists s !! l) as [q|] eqn:Hq; [|exact Hs].
  case_bool_decide as Hguard; [|exact Hs]. simpl.
  assert (deduplicated (q ++ [new_entry now r start timer info])) as Hnew
    by (apply (deduplicated_append now); [exact Hstart | exact Hguard | exact (Hs l q Hq)]).
  intros l1 q1. simpl. rewrite lookup_insert. case_decide as E1.
  - intros [= <-]. apply (deduplicated_Permutation (q ++ [new_entry now r start timer info]));
      [symmetry; apply sorted_Permutation | exact Hnew].
  - rewrite lookup_insert. case_decide as E2.
    + intros [= <-]. exact Hnew.
    + apply Hs.
Qed.

Lemma preserves_dedup_list_remove l d :
  preserves queues_deduplicated (list_remove l d).
Proof.
  intros s Hs. unfold run.
  destruct (list_remove_cases l d s) as [[e ->]|(q & q' & Hq & Hq' & ->)]; [exact Hs|].
  intros l1 q1. simpl. rewrite lookup_insert. case_decide as E.
  - intros [= <-]. apply (deduplicated_remove d q q' Hq'), (Hs l q Hq).
  - apply Hs.
Qed.

(** Methods that leave the list objects alone keep the invariant. *)
Lemma preserves_dedup_keeps {A} (m : M A) :
  keeps lists m → preserves queues_deduplicated m.
Proof. intros H s Hs. unfold queues_deduplicated. rewrite H. exact Hs. Qed.

Ltac dedup_leaf :=
  lazymatch goal with
  | |- preserves _ (modify _) =>
      apply preserves_modify; let s := fresh "s" in let H := fresh in
      intros s H; exact H
  | |- preserves _ (_schedule_decision _ _ _ _) =>
      apply preserves_dedup_schedule_decision;
      let H := fresh in intros H; first [reflexivity | discriminate H]
  | |- preserves _ (list_remove _ _) => apply preserves_dedup_list_remove
  | |- preserves _ _ => solve [eauto with dedup]
  end.

Ltac dedup := preserve_all; dedup_leaf.

Create HintDb dedup discriminated.

Lemma dedup_history_append r ev : preserves queues_deduplicated (history_append r ev).
Proof. unfold history_append. dedup. Qed.

Lemma dedup_uuid4 : preserves queues_deduplicated uuid4.
Proof. unfold uuid4. dedup. Qed.

Lemma dedup_new_process p : preserves queues_deduplicated (new_process p).
Proof. unfold new_process. dedup. Qed.

Lemma dedup_deque_remove q a : preserves queues_deduplicated (deque_remove q a).
Proof. unfold deque_remove. dedup. Qed.

Lemma dedup_del_running_activity k : preserves queues_deduplicated (del_running_activity k).
Proof. unfold del_running_activity. dedup. Qed.

Lemma dedup_del_running_decision k : preserves queues_deduplicated (del_running_decision k).
Proof. unfold del_running_decision. dedup. Qed.

#[export] Hint Resolve dedup_history_append dedup_uuid4 dedup_new_process
  dedup_deque_remove dedup_del_running_activity dedup_del_running_decision : dedup.

Lemma dedup_schedule_activity now r activity id input queue :
  preserves queues_deduplicated (_schedule_activity now r activity id input queue).
Proof. unfold _schedule_activity. dedup. Qed.

Lemma dedup_activity_by_id id : preserves queues_deduplicated (_activity_by_id id).
Proof. unfold _activity_by_id. preserve_all. Qed.

Lemma dedup_cancel_activity id : preserves queues_deduplicated (_cancel_activity id).
Proof. unfold _cancel_activity. dedup. Qed.

Lemma dedup_cancel_decision r : preserves queues_deduplicated (_cancel_decision r).
Proof. unfold _cancel_decision. dedup. Qed.

#[export] Hint Resolve dedup_schedule_activity dedup_activity_by_id
  dedup_cancel_activity dedup_cancel_decision : dedup.

Lemma dedup_cancel_process_internal cp r :
  (∀ c, preserves queues_deduplicated (cp c)) →
  preserves queues_deduplicated (_cancel_process_internal cp r).
Proof. intros H. unfold _cancel_process_internal. dedup. Qed.

Lemma dedup_cancel_process_rec fuel pid details :
  preserves queues_deduplicated (cancel_process_rec fuel pid details).
Proof.
  revert pid details. induction fuel as [|fuel IH]; intros pid details; simpl.
  - preserve.
  - preserve_all; [dedup_leaf|]. apply dedup_cancel_process_internal. intros c. apply IH.
Qed.

Lemma dedup_cancel_process pid details :
  preserves queues_deduplicated (cancel_process pid details).
Proof. intros s. apply dedup_cancel_process_rec. Qed.

#[export] Hint Resolve dedup_cancel_process_internal dedup_cancel_process : dedup.

Lemma dedup_register_workflow name category timeout decision_timeout :
  preserves queues_deduplicated (register_workflow name category timeout decision_timeout).
Proof.
  unfold register_workflow, new_list. preserve_all; try dedup_leaf.
  apply preserves_modify. intros s Hs l q. simpl. rewrite lookup_insert.
  case_decide; [intros [= <-]; apply deduplicated_nil | apply Hs].
Qed.

Lemma dedup_register_activity name category st et ht :
  preserves queues_deduplicated (register_activity name category st et ht).
Proof. unfold register_activity. dedup. Qed.

Lemma dedup_start_process now process :
  preserves queues_deduplicated (start_process now process).
Proof. unfold start_process. dedup. Qed.

Lemma dedup_signal_process now pid signal data :
  preserves queues_deduplicated (signal_process now pid signal data).
Proof. unfold signal_process. dedup. Qed.

Lemma dedup_time_out_activities now :
  preserves queues_deduplicated (_time_out_activities now).
Proof. unfold _time_out_activities. dedup. Qed.

Lemma dedup_time_out_decisions now :
  preserves queues_deduplicated (_time_out_decisions now).
Proof. unfold _time_out_decisions. dedup. Qed.

#[export] Hint Resolve dedup_time_out_activities dedup_time_out_decisions : dedup.

Lemma dedup_heartbeat_activity_task now task :
  preserves queues_deduplicated (heartbeat_activity_task now task).
Proof. unfold heartbeat_activity_task. dedup. Qed.

Lemma dedup_apply_decision now task r d :
  preserves queues_deduplicated (apply_decision now task r d).
Proof. unfold apply_decision, decision_effect. destruct d; dedup. Qed.

#[export] Hint Resolve dedup_apply_decision : dedup.

Lemma dedup_complete_decision_task now task decisions :
  preserves queues_deduplicated (complete_decision_task now task decisions).
Proof. unfold complete_decision_task. dedup. Qed.

Lemma dedup_complete_activity_task now task result :
  preserves queues_deduplicated (complete_activity_task now task result).
Proof. unfold complete_activity_task. dedup. Qed.

Lemma dedup_poll_activity_task now category :
  preserves queues_deduplicated (poll_activity_task now category).
Proof. unfold poll_activity_task. dedup. Qed.

Lemma dedup_poll_decision_task now category :
  preserves queues_deduplicated (poll_decision_task now category).
Proof. unfold poll_decision_task. dedup. Qed.

(** ** The operations of the backend, and the states they reach *)

Inductive call :=
| RegisterWorkflow (name category : string) (timeout decision_timeout : Z)
| RegisterActivity (name category : string)
    (scheduled_timeout execution_timeout heartbeat_timeout : Z)
| StartProcess (now : Z) (process : ProcessTemplate)
| SignalProcess (now : Z) (process_id : ident) (signal : string) (data : payload)
| CancelProcessCall (process_id : ident) (details : payload)
| HeartbeatActivityTask (now : Z) (task : ActivityTask)
| CompleteDecisionTask (now : Z) (task : DecisionTask) (decisions : decisions_arg)
| CompleteActivityTask (now : Z) (task : ActivityTask) (result : option ActivityResult)
| ProcessById (pid : ident)
| Processes (workflow tag : option string)
| PollActivityTask (now : Z) (category : string)
| PollDecisionTask (now : Z) (category : string).

(** The state a call leaves, whether it returns or raises. *)
Definition step (c : call) (s : MemoryBackend) : MemoryBackend :=
  match c with
  | RegisterWorkflow name category timeout decision_timeout =>
      run (register_workflow name category timeout decision_timeout) s
  | RegisterActivity name category st et ht =>
      run (register_activity name category st et ht) s
  | StartProcess now process => run (start_process now process) s
  | SignalProcess now pid signal data => run (signal_process now pid signal data) s
  | CancelProcessCall pid details => run (cancel_process pid details) s
  | HeartbeatActivityTask now task => run (heartbeat_activity_task now task) s
  | CompleteDecisionTask now task decisions =>
      run (complete_decision_task now task decisions) s
  | CompleteActivityTask now task result =>
      run (complete_activity_task now task result) s
  | ProcessById pid => run (process_by_id pid) s
  | Processes workflow tag => run (processes workflow tag) s
  | PollActivityTask now category => run (poll_activity_task now category) s
  | PollDecisionTask now category => run (poll_decision_task now category) s
  end.

Inductive reachable : MemoryBackend → Prop :=
| reachable_init : reachable init
| reachable_step c s : reachable s → reachable (step c s).

Lemma queues_deduplicated_init : queues_deduplicated init.
Proof.
  intros l q. unfold init. simpl. rewrite lookup_singleton.
  case_decide; [intros [= <-]; apply deduplicated_nil | discriminate].
Qed.

Lemma queues_deduplicated_step c s :
  queues_deduplicated s → queues_deduplicated (step c s).
Proof.
  destruct c; simpl.
  - apply dedup_register_workflow.
  - apply dedup_register_activity.
  - apply dedup_start_process.
  - apply dedup_signal_process.
  - apply dedup_cancel_process.
  - apply dedup_heartbeat_activity_task.
  - apply dedup_complete_decision_task.
  - apply dedup_complete_activity_task.
  - unfold process_by_id. apply preserves_managed_process.
  - unfold processes. apply preserves_gets.
  - apply dedup_poll_activity_task.
  - apply dedup_poll_decision_task.
Qed.

Lemma reachable_deduplicated s : reachable s → queues_deduplicated s.
Proof.
  induction 1 as [|c s _ IH]; [apply queues_deduplicated_init|].
  apply queues_deduplicated_step, IH.
Qed.

(** All the entries waiting in the queues of all categories. *)
Definition scheduled_entries (s : MemoryBackend) : list ScheduledDecision :=
  map_to_list (scheduled_decisions s) ≫= λ item, default [] (lists s !! item.2).

(** The workflow of the running example is registered again, now under
    the category [other], and the process is signalled. *)
Definition recategorised : MemoryBackend :=
  run (register_workflow "wf" "other" 3600 60) started.

(** C6, as stated, fails: the process already has a scheduled decision
    with no start time (in the queue of its old category), yet scheduling
    one more is not a no-op, and the process ends up with two non-timer
    scheduled decisions that are both due. *)
Lemma schedule_decision_looks_at_one_queue_only :
  queue_of recategorised "default"
  = Some [ {| sd_process := 0%nat; sd_start := None; sd_expiration := Some 60;
              sd_timer := None |} ]
  ∧ outcome (signal_process 0 (Uuid 0) "go" None) recategorised = Ok tt
  ∧ filter (nontimer_of 0%nat)
      (scheduled_entries (run (signal_process 0 (Uuid 0) "go" None) recategorised))
    = [ {| sd_process := 0%nat; sd_start := None; sd_expiration := Some 60;
           sd_timer := None |};
        {| sd_process := 0%nat; sd_start := None; sd_expiration := Some 60;
           sd_timer := None |} ]
  ∧ reachable (run (signal_process 0 (Uuid 0) "go" None) recategorised).
Proof.
  split; [vm_compute; reflexivity|]. split; [vm_compute; reflexivity|].
  split; [vm_compute; reflexivity|].
  apply (reachable_step (SignalProcess 0 (Uuid 0) "go" None)).
  apply (reachable_step (RegisterWorkflow "wf" "other" 3600 60)).
  apply (reachable_step (StartProcess 0 wf_template)).
  change registered with
    (step (RegisterActivity "act" Defaults.ACTIVITY_CATEGORY 1 60 30)
       (step (RegisterWorkflow "wf" Defaults.DECISION_CATEGORY 3600 60) init)).
  repeat apply reachable_step. apply reachable_init.
Qed.

(** C6 (amended): the de-duplication of [_schedule_decision] works within
    the queue of the category of the process's workflow.  Scheduling a
    non-timer decision is a no-op when that queue already holds an entry
    of the process whose start is null or not later than the requested
    start (or now); otherwise an entry with expiry now + decision timeout
    is inserted; a timer entry is always inserted, with null expiry.
    Consequently, in every state the operations can reach, each category
    queue holds at most one non-timer scheduled decision per process (and
    such an entry has a null start, so it is due). *)
Theorem schedule_decision_deduplicates_per_queue (now : Z) (r : ref)
    (start : option Z) (s : MemoryBackend) (p : Process) (info : WorkflowInfo)
    (l : loc) (q : list ScheduledDecision) :
  objects s !! r = Some p →
  workflows s !! p_workflow p = Some info →
  scheduled_decisions s !! wf_category info = Some l →
  lists s !! l = Some q →
  reachable s →
  ((∃ d, d ∈ q ∧ sd_process d = r ∧ due_by now start d) →
     _schedule_decision now r start None s = (Ok tt, s))
  ∧ (¬ (∃ d, d ∈ q ∧ sd_process d = r ∧ due_by now start d) →
     outcome (_schedule_decision now r start None) s = Ok tt
     ∧ queue_of (run (_schedule_decision now r start None) s) (wf_category info)
       = Some (sorted (start_key now)
                 (q ++ [ {| sd_process := r; sd_start := start;
                            sd_expiration := Some (now + wf_decision_timeout info);
                            sd_timer := None |} ])))
  ∧ (∀ timer,
       outcome (_schedule_decision now r start (Some timer)) s = Ok tt
       ∧ queue_of (run (_schedule_decision now r start (Some timer)) s) (wf_category info)
         = Some (sorted (start_key now)
                   (q ++ [ {| sd_process := r; sd_start := start;
                              sd_expiration := None; sd_timer := Some timer |} ])))
  ∧ (∀ category queue process,
       queue_of s category = Some queue →
       (length (filter (nontimer_of process) queue) ≤ 1)%nat
       ∧ ∀ d, d ∈ queue → nontimer_of process d → sd_start d = None).
Proof.
  intros Hp Hinfo Hl Hq Hreach.
  assert (∀ timer, _schedule_decision now r start timer s =
            if bool_decide (is_Some timer ∨ matching now r start q = [])
            then (Ok tt, enqueue now (wf_category info) l q
                           (new_entry now r start timer info) s)
            else (Ok tt, s)) as Heq.
  { intros timer. rewrite schedule_decision_eq, Hp, Hinfo, Hl, Hq. reflexivity. }
  assert (∀ d s', queue_of (enqueue now (wf_category info) l q d s') (wf_category info)
                  = Some (sorted (start_key now) (q ++ [d]))) as Hqueue.
  { intros d s'. unfold queue_of, enqueue. simpl.
    rewrite lookup_insert_eq. simpl. apply lookup_insert_eq. }
  assert ((∃ d, d ∈ q ∧ sd_process d = r ∧ due_by now start d)
          ↔ matching now r start q ≠ []) as Hmatch.
  { unfold matching. split.
    - intros (d & Hd & Hr & Hdue) E.
      assert (d ∈ filter (due_by now start) (filter (λ a, sd_process a = r) q)) as Hin
        by (apply list_elem_of_filter; split; [|apply list_elem_of_filter]; auto).
      rewrite E in Hin. inversion Hin.
    - intros Hne.
      destruct (filter (due_by now start) (filter (λ a, sd_process a = r) q))
        as [|d rest] eqn:E; [congruence|].
      assert (d ∈ filter (due_by now start) (filter (λ a, sd_process a = r) q)) as Hin
        by (rewrite E; left).
      apply list_elem_of_filter in Hin as [Hdue Hin].
      apply list_elem_of_filter in Hin as [Hr Hin]. eauto. }
  split; [|split; [|split]].
  - intros Hex. rewrite Heq. rewrite bool_decide_eq_false_2; [reflexivity|].
    intros [[? ?]|E]; [discriminate|]. apply Hmatch in Hex. contradiction.
  - intros Hnone. unfold outcome, run. rewrite Heq.
    rewrite bool_decide_eq_true_2.
    + split; [reflexivity|]. apply Hqueue.
    + right. destruct (decide (matching now r start q = [])) as [E|E]; [exact E|].
      exfalso. apply Hnone, Hmatch, E.
  - intros timer. unfold outcome, run. rewrite Heq.
    rewrite bool_decide_eq_true_2 by (left; eexists; reflexivity).
    split; [reflexivity|]. apply Hqueue.
  - intros category queue process Hqueue'.
    unfold queue_of in Hqueue'.
    destruct (scheduled_decisions s !! category) as [l'|]; [|discriminate].
    simpl in Hqueue'.
    destruct (reachable_deduplicated s Hreach l' queue Hqueue') as [H1 H2].
    split; [apply H1|]. intros d Hd [_ Ht]. apply H2; assumption.
Qed.

Lemma started_reachable : reachable started.
Proof.
  apply (reachable_step (StartProcess 0 wf_template)).
  change registered with
    (step (RegisterActivity "act" Defaults.ACTIVITY_CATEGORY 1 60 30)
       (step (RegisterWorkflow "wf" Defaults.DECISION_CATEGORY 3600 60) init)).
  repeat apply reachable_step. apply reachable_init.
Defined.

Lemma schedule_decision_deduplicates_per_queue_witness :
  _schedule_decision 5 0%nat None None started = (Ok tt, started)
  ∧ queue_of (run (_schedule_decision 5 0%nat (Some 9) (Some (Timer 4))) started)
      "default"
    = Some (sorted (start_key 5)
              ([ {| sd_process := 0%nat; sd_start := None; sd_expiration := Some 60;
                    sd_timer := None |} ]
               ++ [ {| sd_process := 0%nat; sd_start := Some 9; sd_expiration := None;
                       sd_timer := Some (Timer 4) |} ])).
Proof.
  pose proof (schedule_decision_deduplicates_per_queue 5 0%nat None started
                {| p_id := Uuid 0; p_workflow := "wf"; p_input := Some "x";
                   p_tags := []; p_parent := None; history := [ProcessStartedEvent] |}
                {| wf_category := "default"; wf_timeout := 3600;
                   wf_decision_timeout := 60 |}
                1%nat
                [ {| sd_process := 0%nat; sd_start := None; sd_expiration := Some 60;
                     sd_timer := None |} ]
                eq_refl eq_refl eq_refl eq_refl started_reachable) as (Hnoop & _ & _ & _).
  pose proof (schedule_decision_deduplicates_per_queue 5 0%nat (Some 9) started
                {| p_id := Uuid 0; p_workflow := "wf"; p_input := Some "x";
                   p_tags := []; p_parent := None; history := [ProcessStartedEvent] |}
                {| wf_category := "default"; wf_timeout := 3600;
                   wf_decision_timeout := 60 |}
                1%nat
                [ {| sd_process := 0%nat; sd_start := None; sd_expiration := Some 60;
                     sd_timer := None |} ]
                eq_refl eq_refl eq_refl eq_refl started_reachable) as (_ & _ & Htimer & _).
  split.
  - apply Hnoop. eexists. split; [left|]. split; [reflexivity | exact I].
  - apply (Htimer (Timer 4)).
Defined.

(** * Timers *)

Definition is_timer_event (ev : Event) : Prop :=
  match ev with TimerEvent _ => True | _ => False end.

#[global] Instance is_timer_event_dec ev : Decision (is_timer_event ev).
Proof. destruct ev; simpl; apply _. Defined.

(** The [TimerEvent]s in the history of process object [r]. *)
Definition timer_events (s : MemoryBackend) (r : ref) : list Event :=
  filter is_timer_event (history_of s r).

(** References are allocated in order: nothing lives at or beyond
    [next_ref]. *)
Definition heap_fresh (s : MemoryBackend) : Prop :=
  ∀ r, (next_ref s ≤ r)%nat → objects s !! r = None.

Lemma history_of_push s r r' ev :
  history_of (set_objects (alter (push_event ev) r') s) r
  = if decide (r' = r) then
      match objects s !! r with Some p => history p ++ [ev] | None => [] end
    else history_of s r.
Proof.
  unfold history_of. simpl. rewrite lookup_alter. case_decide as E.
  - subst r'. destruct (objects s !! r); reflexivity.
  - reflexivity.
Qed.

Lemma new_process_eq p s :
  new_process p s = (Ok (next_ref s), bump_ref (set_objects (insert (next_ref s) p) s)).
Proof. reflexivity. Qed.

(** ** Properties of a history that the methods keep

    [P] is a property of the history of process object [r] that survives
    the appending of the events in [allowed], which include every event
    but [TimerEvent]. *)
Section history_inv.
Context (r : ref) (P : list Event → Prop) (allowed : Event → Prop).
Hypothesis P_append : ∀ h ev, allowed ev → P h → P (h ++ [ev]).
Hypothesis P_started : P [] → P [ProcessStartedEvent].
Hypothesis allowed_other : ∀ ev, ¬ is_timer_event ev → allowed ev.

Definition history_inv (s : MemoryBackend) : Prop :=
  heap_fresh s ∧ P (history_of s r).

Lemma hist_keeps {A} (m : M A) :
  keeps objects m → keeps next_ref m → preserves history_inv m.
Proof.
  intros Ho Hn s [Hf Ht]. split.
  - intros r0. rewrite (Hn s), (Ho s). apply Hf.
  - unfold history_of. rewrite (Ho s). exact Ht.
Qed.

Lemma hist_modify f :
  (∀ s, objects (f s) = objects s) → (∀ s, next_ref (f s) = next_ref s) →
  preserves history_inv (modify f).
Proof. intros Ho Hn. apply hist_keeps; intros s; [apply Ho | apply Hn]. Qed.

Lemma hist_history_append r' ev :
  allowed ev → preserves history_inv (history_append r' ev).
Proof.
  intros Hev. unfold history_append. preserve_all.
  apply preserves_modify. intros s [Hf Ht]. split.
  - intros r0 Hr0. simpl. rewrite lookup_alter. case_decide as E; [|apply Hf, Hr0].
    subst r'. rewrite (Hf r0 Hr0). reflexivity.
  - rewrite history_of_push. case_decide as E; [|exact Ht].
    subst r'. unfold history_of in Ht. destruct (objects s !! r) as [p|]; [|exact Ht].
    simpl in Ht. apply P_append; assumption.
Qed.

Lemma hist_new_process p :
  history p = [] ∨ history p = [ProcessStartedEvent] →
  preserves history_inv (new_process p).
Proof.
  intros Hp s [Hf Ht]. unfold run. rewrite new_process_eq. simpl. split.
  - intros r0 Hr0. simpl in *. rewrite lookup_insert_ne by lia. apply Hf. lia.
  - unfold history_of in *. simpl.
    rewrite lookup_insert. case_decide as E; [|exact Ht].
    assert (objects s !! r = None) as H0 by (apply Hf; lia).
    rewrite H0 in Ht. simpl in *. destruct Hp as [-> | ->]; auto.
Qed.

Create HintDb hist discriminated.

Ltac hist_leaf :=
  lazymatch goal with
  | |- preserves _ (modify _) => apply hist_modify; intros; reflexivity
  | |- preserves _ (history_append _ _) =>
      apply hist_history_append;
      first [ apply allowed_other; let H := fresh in intros H; exact H
            | solve [auto] ]
  | |- preserves _ (new_process _) =>
      apply hist_new_process; first [left; reflexivity | right; reflexivity]
  | |- preserves _ _ =>
      first [ solve [eauto with hist]
            | apply hist_keeps; solve [eauto with keeps] ]
  end.

Ltac hist := preserve_all; hist_leaf.

Local Abbreviation keeps_hist := (preserves history_inv).

Lemma hist_uuid4 : keeps_hist uuid4.
Proof. unfold uuid4. hist. Qed.

Lemma hist_deque_remove q a : keeps_hist (deque_remove q a).
Proof. unfold deque_remove. hist. Qed.

Lemma hist_del_running_activity k : keeps_hist (del_running_activity k).
Proof. unfold del_running_activity. hist. Qed.

Lemma hist_del_running_decision k : keeps_hist (del_running_decision k).
Proof. unfold del_running_decision. hist. Qed.

Hint Resolve hist_uuid4 hist_deque_remove hist_del_running_activity
  hist_del_running_decision : hist.

Lemma hist_schedule_activity now p activity id input queue :
  keeps_hist (_schedule_activity now p activity id input queue).
Proof. unfold _schedule_activity. hist. Qed.

Lemma hist_activity_by_id id : keeps_hist (_activity_by_id id).
Proof. unfold _activity_by_id. preserve_all. Qed.

Lemma hist_cancel_activity id : keeps_hist (_cancel_activity id).
Proof. unfold _cancel_activity. hist. Qed.

Hint Resolve hist_schedule_activity hist_activity_by_id hist_cancel_activity : hist.

Lemma hist_cancel_process_internal cp p :
  (∀ c, keeps_hist (cp c)) → keeps_hist (_cancel_process_internal cp p).
Proof. intros H. unfold _cancel_process_internal. hist. Qed.

Lemma hist_cancel_process_rec fuel pid details :
  keeps_hist (cancel_process_rec fuel pid details).
Proof.
  revert pid details. induction fuel as [|fuel IH]; intros pid details; simpl.
  - preserve.
  - preserve_all; [hist_leaf|]. apply hist_cancel_process_internal. intros c. apply IH.
Qed.

Lemma hist_cancel_process pid details : keeps_hist (cancel_process pid details).
Proof. intros s. apply hist_cancel_process_rec. Qed.

Hint Resolve hist_cancel_process_internal hist_cancel_process : hist.

Lemma hist_time_out_activities now : keeps_hist (_time_out_activities now).
Proof. unfold _time_out_activities. hist. Qed.

Lemma hist_time_out_decisions now : keeps_hist (_time_out_decisions now).
Proof. unfold _time_out_decisions. hist. Qed.

Lemma hist_decision_effect now task p d : keeps_hist (decision_effect now task p d).
Proof. unfold decision_effect. destruct d; hist. Qed.

Lemma hist_apply_decision now task p d : keeps_hist (apply_decision now task p d).
Proof. unfold apply_decision, decision_effect. destruct d; hist. Qed.

Hint Resolve hist_time_out_activities hist_time_out_decisions hist_apply_decision
  : hist.

Lemma hist_complete_decision_task now task decisions :
  keeps_hist (complete_decision_task now task decisions).
Proof. unfold complete_decision_task. hist. Qed.

Lemma hist_complete_activity_task now task result :
  keeps_hist (complete_activity_task now task result).
Proof. unfold complete_activity_task. hist. Qed.

Lemma hist_heartbeat_activity_task now task :
  keeps_hist (heartbeat_activity_task now task).
Proof. unfold heartbeat_activity_task. hist. Qed.

Lemma hist_start_process now process : keeps_hist (start_process now process).
Proof. unfold start_process. hist. Qed.

Lemma hist_signal_process now pid signal data :
  keeps_hist (signal_process now pid signal data).
Proof. unfold signal_process. hist. Qed.

Lemma hist_register_workflow name category timeout decision_timeout :
  keeps_hist (register_workflow name category timeout decision_timeout).
Proof. unfold register_workflow. hist. Qed.

Lemma hist_register_activity name category st et ht :
  keeps_hist (register_activity name category st et ht).
Proof. unfold register_activity. hist. Qed.

Lemma hist_poll_activity_task now category :
  keeps_hist (poll_activity_task now category).
Proof. unfold poll_activity_task. hist. Qed.

Lemma hist_poll_decision_task now category :
  (∀ t, allowed (TimerEvent t)) → keeps_hist (poll_decision_task now category).
Proof. intros Ht. unfold poll_decision_task. hist. Qed.

End history_inv.

(** The methods that append no [TimerEvent] leave the timer events of
    every process as they are. *)
Definition timers_are (r : ref) (X : list Event) (s : MemoryBackend) : Prop :=
  heap_fresh s ∧ timer_events s r = X.

Section timers.
Context (r : ref) (X : list Event).

Let P (h : list Event) : Prop := filter is_timer_event h = X.
Let allowed (ev : Event) : Prop := ¬ is_timer_event ev.

Lemma timers_append h ev : allowed ev → P h → P (h ++ [ev]).
Proof.
  unfold P, allowed. intros Hev <-.
  rewrite filter_app, filter_cons_False, filter_nil, app_nil_r by exact Hev.
  reflexivity.
Qed.

Lemma timers_started : P [] → P [ProcessStartedEvent].
Proof. unfold P. intros <-. reflexivity. Qed.

Lemma timers_complete_decision_task now task decisions :
  preserves (timers_are r X) (complete_decision_task now task decisions).
Proof.
  change (preserves (history_inv r P) (complete_decision_task now task decisions)).
  eapply hist_complete_decision_task;
    first [exact timers_append | exact timers_started | exact (λ ev H, H)].
Qed.

Lemma timers_time_out_activities now :
  preserves (timers_are r X) (_time_out_activities now).
Proof.
  change (preserves (history_inv r P) (_time_out_activities now)).
  eapply hist_time_out_activities;
    first [exact timers_append | exact timers_started | exact (λ ev H, H)].
Qed.

Lemma timers_time_out_decisions now :
  preserves (timers_are r X) (_time_out_decisions now).
Proof.
  change (preserves (history_inv r P) (_time_out_decisions now)).
  eapply hist_time_out_decisions;
    first [exact timers_append | exact timers_started | exact (λ ev H, H)].
Qed.

End timers.

(** ** What a successful [poll_decision_task] has done *)

Lemma history_append_Ok r ev s u s' :
  history_append r ev s = (Ok u, s') →
  is_Some (objects s !! r) ∧ s' = set_objects (alter (push_event ev) r) s.
Proof.
  intros H. apply bind_Ok in H as (p & s1 & Hp & H).
  apply the_process_Ok in Hp as [Hp ->]. apply modify_Ok in H.
  split; [eexists; exact Hp | exact H].
Qed.

(** The outcome of the scan and of the bookkeeping that follows it, from
    the state [s2] left by the two sweeps. *)
Definition delivery (now : Z) (l : loc) (queue : list ScheduledDecision)
    (s2 : MemoryBackend) (res : option DecisionTask) (s' : MemoryBackend) : Prop :=
  match head (filter (deliverable now) queue) with
  | None => res = None ∧ s' = s2
  | Some d =>
      ∃ q' info p,
        py_remove d queue = Some q'
        ∧ res = Some {| dt_process := sd_process d; dt_run_id := Uuid (next_uuid s2) |}
        ∧ lists s' = <[l := q']> (lists s2)
        ∧ scheduled_decisions s' = scheduled_decisions s2
        ∧ running_processes s' = running_processes s2
        ∧ objects s' =
            alter (push_event DecisionStartedEvent) (sd_process d)
              (match sd_start d with
               | Some _ => alter (push_event (TimerEvent (sd_timer d))) (sd_process d)
                                 (objects s2)
               | None => objects s2
               end)
        ∧ objects s2 !! sd_process d = Some p
        ∧ workflows s2 !! p_workflow p = Some info
        ∧ running_decisions s' =
            <[Uuid (next_uuid s2) := {| rd_process := sd_process d;
                                        rd_expiration := now + wf_timeout info |}]>
              (running_decisions s2)
  end.

Lemma poll_decision_task_Ok now category s res s' :
  poll_decision_task now category s = (Ok res, s') →
  ∃ s1 s2 l queue,
    _time_out_activities now s = (Ok tt, s1)
    ∧ _time_out_decisions now s1 = (Ok tt, s2)
    ∧ scheduled_decisions s2 !! category = Some l
    ∧ lists s2 !! l = Some queue
    ∧ delivery now l queue s2 res s'.
Proof.
  intros H. unfold poll_decision_task in H.
  apply bind_Ok in H as ([] & s1 & H1 & H).
  apply bind_Ok in H as ([] & s2 & H2 & H).
  apply bind_Ok in H as (l & t & Hl & H).
  apply (lookup_or_raise_Ok (λ s, scheduled_decisions s !! category)) in Hl as [Hl ->].
  apply bind_Ok in H as (queue & t & Hq & H). apply list_read_Ok in Hq as [Hq ->].
  exists s1, s2, l, queue. repeat split; try assumption.
  unfold delivery. destruct (head (filter (deliverable now) queue)) as [d|] eqn:Hd.
  - apply bind_Ok in H as ([] & s3 & H3 & H).
    assert (lists s3 = lists s2 ∧ scheduled_decisions s3 = scheduled_decisions s2
            ∧ running_processes s3 = running_processes s2
            ∧ running_decisions s3 = running_decisions s2
            ∧ workflows s3 = workflows s2 ∧ next_uuid s3 = next_uuid s2
            ∧ objects s3 = match sd_start d with
                           | Some _ => alter (push_event (TimerEvent (sd_timer d)))
                                             (sd_process d) (objects s2)
                           | None => objects s2
                           end) as (E1 & E2 & E3 & E4 & E5 & E6 & E7).
    { destruct (sd_start d).
      - apply history_append_Ok in H3 as [_ ->]. repeat split.
      - apply ret_Ok in H3 as [_ ->]. repeat split. }
    apply bind_Ok in H as ([] & s4 & H4 & H).
    apply list_remove_Ok in H4 as (q0 & q' & Hq0 & Hrem & ->).
    rewrite E1, Hq in Hq0. injection Hq0 as <-.
    apply bind_Ok in H as (run_id & s5 & H5 & H).
    unfold uuid4 in H5. apply bind_Ok in H5 as (n & t & Hn & H5).
    apply gets_Ok in Hn as [-> ->].
    apply bind_Ok in H5 as ([] & t & Hb & H5). apply modify_Ok in Hb. subst t.
    apply ret_Ok in H5 as [-> ->].
    apply bind_Ok in H as (p & t & Hp & H). apply the_process_Ok in Hp as [Hp ->].
    apply bind_Ok in H as (info & t & Hinfo & H).
    apply (lookup_or_raise_Ok (λ s, workflows s !! p_workflow p)) in Hinfo as [Hinfo ->].
    apply bind_Ok in H as ([] & s6 & H6 & H). apply modify_Ok in H6. subst s6.
    apply bind_Ok in H as ([] & s7 & H7 & H). apply history_append_Ok in H7 as [_ ->].
    apply ret_Ok in H as [-> ->]. simpl in *.
    assert (∃ p2, objects s2 !! sd_process d = Some p2 ∧ p_workflow p2 = p_workflow p)
      as (p2 & Hp2 & Hwf).
    { rewrite E7 in Hp. destruct (sd_start d).
      - rewrite lookup_alter, decide_True in Hp by reflexivity.
        destruct (objects s2 !! sd_process d) as [p2|]; [|discriminate].
        injection Hp as <-. eexists; split; reflexivity.
      - eexists; split; [exact Hp | reflexivity]. }
    exists q', info, p2. rewrite E1, E2, E3, E4, E6, E7, Hwf. rewrite <- E5.
    repeat split; assumption.
  - apply ret_Ok in H as [-> ->]. split; reflexivity.
Qed.

Lemma bind_assoc {A B C} (m : M A) (k : A → M B) (h : B → M C) s :
  bind (bind m k) h s = bind m (λ a, bind (k a) h) s.
Proof. unfold bind. destruct (m s) as [[a|e] s1]; reflexivity. Qed.

(** [TimerEvent]s in a heap of process objects. *)
Definition timer_events_in (o : gmap ref Process) (r : ref) : list Event :=
  filter is_timer_event (from_option history [] (o !! r)).

Lemma timer_events_push_other o r r' ev :
  r' ≠ r ∨ ¬ is_timer_event ev →
  timer_events_in (alter (push_event ev) r' o) r = timer_events_in o r.
Proof.
  intros H. unfold timer_events_in. rewrite lookup_alter. case_decide as E; [|reflexivity].
  subst r'. destruct H as [H|H]; [congruence|].
  destruct (o !! r) as [p|]; [|reflexivity]. simpl.
  rewrite filter_app, filter_cons_False, filter_nil, app_nil_r by exact H. reflexivity.
Qed.

Lemma timer_events_push_timer o r t :
  is_Some (o !! r) →
  timer_events_in (alter (push_event (TimerEvent t)) r o) r
  = timer_events_in o r ++ [TimerEvent t].
Proof.
  intros [p Hp]. unfold timer_events_in. rewrite lookup_alter, decide_True by reflexivity.
  rewrite Hp. simpl. rewrite filter_app, filter_cons_True, filter_nil by exact I.
  reflexivity.
Qed.

Lemma queue_of_lookup s category queue :
  queue_of s category = Some queue →
  ∃ l, scheduled_decisions s !! category = Some l ∧ lists s !! l = Some queue.
Proof.
  unfold queue_of. destruct (scheduled_decisions s !! category) as [l|]; [|discriminate].
  simpl. eauto.
Qed.

Lemma head_filter_None {A} (P : A → Prop) `{∀ x, Decision (P x)} (l : list A) :
  (∀ x, x ∈ l → ¬ P x) → head (filter P l) = None.
Proof.
  intros H'. destruct (filter P l) as [|x rest] eqn:E; [reflexivity|exfalso].
  assert (x ∈ filter P l) as Hx by (rewrite E; left).
  apply list_elem_of_filter in Hx as [HP Hx]. exact (H' x Hx HP).
Qed.

Lemma head_filter_Some {A} (P : A → Prop) `{∀ x, Decision (P x)} (l : list A) x :
  head (filter P l) = Some x → P x ∧ x ∈ l.
Proof.
  intros H'. destruct (filter P l) as [|y rest] eqn:E; [discriminate|].
  injection H' as ->. assert (x ∈ filter P l) as Hx by (rewrite E; left).
  apply list_elem_of_filter in Hx. exact Hx.
Qed.

Lemma heap_fresh_intro s :
  map_Forall (λ r _, (r < next_ref s)%nat) (objects s) → heap_fresh s.
Proof.
  intros H r Hr. destruct (objects s !! r) as [p|] eqn:E; [|reflexivity].
  specialize (H r p E). simpl in H. lia.
Qed.

(** Scenario S4: the first decision of the running example is completed
    with [Timer(5)] at time 0. *)
Definition timer_set : MemoryBackend :=
  run (complete_decision_task 0 first_task (Many [Timer 5])) deciding.

Definition timer_entry : ScheduledDecision :=
  {| sd_process := 0%nat; sd_start := Some 5; sd_expiration := None;
     sd_timer := Some (Timer 5) |}.

Lemma timer_set_fresh : heap_fresh timer_set.
Proof.
  apply heap_fresh_intro.
  apply (bool_decide_unpack (map_Forall (λ r _, (r < next_ref timer_set)%nat)
                               (objects timer_set))).
  vm_compute. exact I.
Qed.

(** The scenario, evaluated: nothing at time 4, the timer at time 5, and
    nothing more afterwards. *)
Lemma timer_scenario :
  history_of timer_set 0%nat
  = [ProcessStartedEvent; DecisionStartedEvent; DecisionEvent (Timer 5)]
  ∧ queue_of timer_set "default" = Some [timer_entry]
  ∧ poll_decision_task 4 "default" timer_set = (Ok None, timer_set)
  ∧ outcome (poll_decision_task 5 "default") timer_set
    = Ok (Some {| dt_process := 0%nat; dt_run_id := Uuid 2 |})
  ∧ history_of (run (poll_decision_task 5 "default") timer_set) 0%nat
    = [ProcessStartedEvent; DecisionStartedEvent; DecisionEvent (Timer 5);
       TimerEvent (Some (Timer 5)); DecisionStartedEvent]
  ∧ queue_of (run (poll_decision_task 5 "default") timer_set) "default" = Some []
  ∧ outcome (poll_decision_task 6 "default")
            (run (poll_decision_task 5 "default") timer_set) = Ok None.
Proof. vm_compute. repeat split; reflexivity. Qed.

(** * Decisions after a completion in the same batch *)

(** Histories only grow: what has been appended stays. *)
Lemma decision_effect_extends now task mp d r H s :
  heap_fresh s → H `prefix_of` history_of s r →
  H `prefix_of` history_of (run (decision_effect now task mp d) s) r.
Proof.
  intros Hf Hp.
  refine (proj2 (hist_decision_effect r (λ h, H `prefix_of` h) (λ _, True)
                   _ _ _ now task mp d s (conj Hf Hp))).
  - intros h ev _ Hh. apply prefix_app_r, Hh.
  - intros Hnil. apply prefix_nil_inv in Hnil. subst H. apply prefix_nil.
  - intros ev _. exact I.
Qed.

Lemma heap_fresh_push ev r s :
  heap_fresh s → heap_fresh (set_objects (alter (push_event ev) r) s).
Proof.
  intros Hf r0 Hr0. simpl. rewrite lookup_alter. case_decide as E; [|apply Hf, Hr0].
  subst r. rewrite (Hf r0 Hr0). reflexivity.
Qed.

Lemma history_append_eq r ev s p :
  objects s !! r = Some p →
  history_append r ev s = (Ok tt, set_objects (alter (push_event ev) r) s).
Proof.
  intros Hp. unfold history_append, the_process, bind, gets, or_raise, modify.
  rewrite Hp. reflexivity.
Qed.

(** The first decision of the running example is completed with a batch
    that goes on after [CompleteProcess]. *)
Definition completed : MemoryBackend :=
  run (complete_decision_task 0 first_task (Many [CompleteProcess (Some "done")]))
      deciding.

Definition trailing_batch : list decision :=
  [ CompleteProcess (Some "done");
    ScheduleActivity "act" "a1" (Some "y") None;
    Timer 5;
    CompleteProcess (Some "again") ].

Lemma trailing_decisions_scenario :
  let s' := run (complete_decision_task 0 first_task (Many trailing_batch)) deciding in
  outcome (complete_decision_task 0 first_task (Many trailing_batch)) deciding = Ok tt
  ∧ running_processes s' = ∅
  ∧ history_of s' 0%nat
    = [ProcessStartedEvent; DecisionStartedEvent] ++ map DecisionEvent trailing_batch
  ∧ scheduled_activities s' !! "default"
    = Some [ {| sa_execution := a1; sa_process := 0%nat; sa_expiration := 1 |} ]
  ∧ queue_of s' "default" = Some [timer_entry].
Proof. vm_compute. repeat split; reflexivity. Qed.

Lemma completed_fresh : heap_fresh completed.
Proof.
  apply heap_fresh_intro.
  apply (bool_decide_unpack (map_Forall (λ r _, (r < next_ref completed)%nat)
                               (objects completed))).
  vm_compute. exact I.
Qed.

(** * Frames of the sweeps *)

Section sweep_frames.
Context {F : Type} (f : MemoryBackend → F).
Hypothesis f_history : ∀ r ev, keeps f (history_append r ev).
Hypothesis f_queues : off_queues f.
Hypothesis f_deques : ∀ g s, f (set_scheduled_activities g s) = f s.
Hypothesis f_activities : ∀ g s, f (set_running_activities g s) = f s.
Hypothesis f_decisions : ∀ g s, f (set_running_decisions g s) = f s.

Lemma keeps_deque_of q : keeps f (deque_of q).
Proof. unfold deque_of. frame. Qed.

Lemma keeps_deque_remove q a : keeps f (deque_remove q a).
Proof. unfold deque_remove. frame_by ltac:(apply f_deques). Qed.

Lemma keeps_del_running_activity k : keeps f (del_running_activity k).
Proof. unfold del_running_activity. frame_by ltac:(apply f_activities). Qed.

Lemma keeps_del_running_decision k : keeps f (del_running_decision k).
Proof. unfold del_running_decision. frame_by ltac:(apply f_decisions). Qed.

Hint Resolve keeps_deque_of keeps_deque_remove keeps_del_running_activity
  keeps_del_running_decision : keeps.

Lemma keeps_time_out_activities now : keeps f (_time_out_activities now).
Proof. unfold _time_out_activities. frame. Qed.

Lemma keeps_time_out_decisions now : keeps f (_time_out_decisions now).
Proof.
  destruct f_queues as [Hl _]. unfold _time_out_decisions. frame.
Qed.

End sweep_frames.

Lemma keeps_statics_time_out_activities now : keeps statics (_time_out_activities now).
Proof. apply keeps_time_out_activities; auto with keeps. Qed.

Lemma keeps_statics_time_out_decisions now : keeps statics (_time_out_decisions now).
Proof. apply keeps_time_out_decisions; auto with keeps. Qed.

Lemma keeps_store_time_out_activities now :
  keeps running_processes (_time_out_activities now).
Proof. apply keeps_time_out_activities; auto with keeps. Qed.

Lemma keeps_store_time_out_decisions now :
  keeps running_processes (_time_out_decisions now).
Proof. apply keeps_time_out_decisions; auto with keeps. Qed.

Lemma keeps_workflows_time_out_decisions now :
  keeps workflows (_time_out_decisions now).
Proof. apply keeps_time_out_decisions; auto with keeps. Qed.

Lemma keeps_objects_time_out_decisions now :
  keeps objects (_time_out_decisions now).
Proof.
  unfold _time_out_decisions, del_running_decision. frame.
Qed.

#[export] Hint Resolve keeps_statics_time_out_activities
  keeps_statics_time_out_decisions keeps_store_time_out_activities
  keeps_store_time_out_decisions keeps_workflows_time_out_decisions
  keeps_objects_time_out_decisions : keeps.

(** The decision sweep only deletes from the running-decisions table. *)
Lemma running_decisions_below X now :
  preserves (λ t, running_decisions t ⊆ X) (_time_out_decisions now).
Proof.
  unfold _time_out_decisions, del_running_decision. preserve_all.
  - apply preserves_modify. intros s Hs. simpl. etrans; [apply delete_subseteq | exact Hs].
  - intros s Hs. rewrite keeps_schedule_decision; [exact Hs | auto with keeps].
  - intros s Hs. rewrite keeps_list_remove; [exact Hs | auto with keeps].
  - intros s Hs. rewrite keeps_schedule_decision; [exact Hs | auto with keeps].
Qed.

(** * Completing a process *)

Lemma uuid4_eq s : uuid4 s = (Ok (Uuid (next_uuid s)), bump_uuid s).
Proof. reflexivity. Qed.

Lemma start_process_Ok now template s pid s1 :
  start_process now template s = (Ok pid, s1) →
  pid = Uuid (next_uuid s)
  ∧ running_processes s1 !! pid = Some (next_ref s)
  ∧ objects s1 !! next_ref s
    = Some {| p_id := pid; p_workflow := t_workflow template;
              p_input := t_input template; p_tags := t_tags template;
              p_parent := t_parent template; history := [ProcessStartedEvent] |}.
Proof.
  intros H. unfold start_process in H.
  rewrite (bind_Ok_intro _ _ _ _ _ (uuid4_eq s)) in H.
  rewrite (bind_Ok_intro _ _ _ _ _ (new_process_eq _ _)) in H.
  apply bind_Ok in H as ([] & s2 & H2 & H). apply modify_Ok in H2.
  apply bind_Ok in H as ([] & s3 & H3 & H). apply ret_Ok in H as [-> ->].
  kept running_processes H3 as E1. kept objects H3 as E2.
  rewrite E1, E2. subst s2. simpl.
  split; [reflexivity|]. split; apply lookup_insert_eq.
Qed.

(** Process object [r] has, in the queue of its workflow's category, an
    entry that is due: its start is null or not later than [now]. *)
Definition has_due_decision (now : Z) (s : MemoryBackend) (r : ref) : Prop :=
  ∃ p info queue d,
    objects s !! r = Some p ∧ workflows s !! p_workflow p = Some info
    ∧ queue_of s (wf_category info) = Some queue
    ∧ d ∈ queue ∧ sd_process d = r ∧ due_by now None d.

Lemma matching_elem_of now r start q d :
  d ∈ matching now r start q ↔ d ∈ q ∧ sd_process d = r ∧ due_by now start d.
Proof.
  unfold matching. rewrite !list_elem_of_filter. tauto.
Qed.

(** After a successful [_schedule_decision(process)] the process has a
    due decision, the one found or the one inserted. *)
Lemma schedule_decision_due now r s s' :
  _schedule_decision now r None None s = (Ok tt, s') → has_due_decision now s' r.
Proof.
  rewrite schedule_decision_eq.
  destruct (objects s !! r) as [p|] eqn:Hp; [|discriminate].
  destruct (workflows s !! p_workflow p) as [info|] eqn:Hinfo; [|discriminate].
  destruct (scheduled_decisions s !! wf_category info) as [l|] eqn:Hl; [|discriminate].
  destruct (lists s !! l) as [q|] eqn:Hq; [|discriminate].
  case_bool_decide as Hguard; intros [= <-].
  - exists p, info, (sorted (start_key now) (q ++ [new_entry now r None None info])),
      (new_entry now r None None info).
    split; [exact Hp|]. split; [exact Hinfo|]. split.
    + unfold queue_of, enqueue. simpl. rewrite lookup_insert_eq. simpl.
      apply lookup_insert_eq.
    + split; [|split; [reflexivity | exact I]].
      rewrite sorted_Permutation. apply elem_of_app. right. left.
  - destruct (matching now r None q) as [|d rest] eqn:E.
    { exfalso. apply Hguard. right. reflexivity. }
    assert (d ∈ matching now r None q) as Hd by (rewrite E; left).
    apply matching_elem_of in Hd as (Hd & Hr & Hdue).
    exists p, info, q, d. repeat split; try assumption.
    unfold queue_of. rewrite Hl. simpl. exact Hq.
Qed.

(** [_cancel_process_internal] leaves the process out of the store. *)
Lemma cancel_process_internal_gone r s u s' p :
  objects s !! r = Some p →
  _cancel_process_internal (λ c, cancel_process c None) r s = (Ok u, s') →
  running_processes s' !! p_id p = None.
Proof.
  intros Hp0 H. unfold _cancel_process_internal in H.
  apply bind_Ok in H as ([] & sb & Hb & H).
  kept objects Hb as Eobj.
  apply bind_Ok in H as (p' & t & Hp & H). apply the_process_Ok in Hp as [Hp ->].
  rewrite Eobj, Hp0 in Hp. injection Hp as <-.
  apply bind_Ok in H as (r0 & t & Hlive & H).
  apply (lookup_or_raise_Ok (λ s, running_processes s !! p_id p)) in Hlive as [_ ->].
  apply bind_Ok in H as ([] & sc & Hc & H). apply modify_Ok in Hc.
  apply bind_Ok in H as (children & t & Hch & H). apply gets_Ok in Hch as [-> ->].
  refine (for_each_Ok_ind (λ t, running_processes t !! p_id p = None) _ _ sc u s' H _ _).
  - subst sc. simpl. apply lookup_delete_eq.
  - intros [c rc] t1 t2 _ Hg1 Hbody. simpl in Hbody.
    apply bind_Ok in Hbody as (pc & t & Hpc & Hbody).
    apply the_process_Ok in Hpc as [_ ->].
    pose proof (preserves_exec _ _ _ _ _
                  (preserves_store_below (running_processes t1) _ (p_id pc) None)
                  Hbody (reflexivity _)) as Hsub.
    eapply lookup_weaken_None; eassumption.
Qed.

Lemma statics_alter ev r (o : gmap ref Process) :
  static <$> alter (push_event ev) r o = static <$> o.
Proof.
  apply map_eq. intros r'. rewrite !lookup_fmap, lookup_alter.
  case_decide as E; [subst r'|reflexivity]. destruct (o !! r); reflexivity.
Qed.

Lemma static_lookup_eq s t r p :
  statics t = statics s → objects s !! r = Some p →
  ∃ p', objects t !! r = Some p' ∧ p_id p' = p_id p ∧ p_workflow p' = p_workflow p
        ∧ p_tags p' = p_tags p ∧ p_parent p' = p_parent p.
Proof.
  intros E Hp. apply statics_lookup in Hp. rewrite <- E in Hp.
  apply statics_lookup_inv in Hp as (p' & Hp' & Heq).
  exists p'. split; [exact Hp'|]. unfold static in Heq. injection Heq as -> -> -> ->.
  repeat split.
Qed.

(** C4: a process is started, the decision task that a following poll
    hands out for it is completed with [CompleteProcess(result)], and the
    three calls return.  Then the process is no longer in the store; and
    if it had a parent, the parent is live, the last event of the
    parent's history is [ChildProcessEvent(child-id, workflow, tags,
    ProcessCompleted(result))], and the parent has a due decision in the
    queue of its workflow's category (the one scheduled, or one that was
    already pending). *)
Theorem complete_process_round_trip (now0 now1 now2 : Z) (template : ProcessTemplate)
    (category : string) (result : payload) (s0 s1 s2 s3 : MemoryBackend)
    (pid : ident) (task : DecisionTask) :
  start_process now0 template s0 = (Ok pid, s1) →
  poll_decision_task now1 category s1 = (Ok (Some task), s2) →
  running_processes s1 !! pid = Some (dt_process task) →
  complete_decision_task now2 task (Many [CompleteProcess result]) s2 = (Ok tt, s3) →
  running_processes s3 !! pid = None
  ∧ ∀ parent_id, truthy_id (t_parent template) = Some parent_id →
      ∃ parent,
        running_processes s3 !! parent_id = Some parent
        ∧ last (history_of s3 parent)
          = Some (ChildProcessEvent pid (ProcessCompleted result)
                    (t_workflow template) (t_tags template))
        ∧ has_due_decision now2 s3 parent.
Proof.
  intros Hstart Hpoll Htask Hcomplete.
  (* the started process *)
  apply start_process_Ok in Hstart as (_ & Hstore1 & Hobj1).
  rewrite Htask in Hstore1. injection Hstore1 as Hr.
  set (r := dt_process task) in *. rewrite <- Hr in Hobj1. clear Hr.
  (* the poll *)
  apply poll_decision_task_Ok in Hpoll as (sA & sB & l & queue & HA & HB & _ & _ & Hd).
  kept running_processes HA as EstoreA. kept running_processes HB as EstoreB.
  kept statics HA as EstatA. kept statics HB as EstatB.
  unfold delivery in Hd.
  destruct (head (filter (deliverable now1) queue)) as [d|]; [|destruct Hd; discriminate].
  destruct Hd as (q' & info & p & _ & Htask' & _ & _ & Estore2 & Eobj2 & _ & _ & Erun2).
  injection Htask' as Htask'. 
  assert (sd_process d = r ∧ dt_run_id task = Uuid (next_uuid sB)) as [Hdr Hrun].
  { subst r. rewrite Htask'. split; reflexivity. }
  rewrite Hdr in *. clear Htask'.
  assert (statics s2 = statics s1) as Estat2.
  { unfold statics at 1. rewrite Eobj2, statics_alter.
    destruct (sd_start d); [rewrite statics_alter|]; fold (statics sB); congruence. }
  assert (running_processes s2 !! pid = Some r) as Hstore2 by congruence.
  assert (running_decisions s2 !! dt_run_id task
          = Some {| rd_process := r; rd_expiration := now1 + wf_timeout info |}) as Hrun2.
  { rewrite Erun2, Hrun. apply lookup_insert_eq. }
  (* the completion *)
  unfold complete_decision_task in Hcomplete.
  apply bind_Ok in Hcomplete as ([] & sC & HC & H).
  kept running_processes HC as EstoreC. kept statics HC as EstatC.
  pose proof (preserves_exec _ _ _ _ _ (running_decisions_below (running_decisions s2) now2)
                HC (reflexivity _)) as Hsub.
  apply bind_Ok in H as (o & t & Ho & H). apply gets_Ok in Ho as [-> ->].
  apply bind_Ok in H as (found & t & Hfound & H). apply or_raise_Ok in Hfound as [Hfound ->].
  pose proof (lookup_weaken _ _ _ _ Hfound Hsub) as Hfound'.
  rewrite Hrun2 in Hfound'. injection Hfound' as <-. simpl in H.
  apply bind_Ok in H as ([] & sD & HD & H).
  assert (running_processes sD = running_processes sC ∧ statics sD = statics sC)
    as [EstoreD EstatD].
  { unfold del_running_decision in HD.
    apply bind_Ok in HD as (? & t & Ht & HD). apply gets_Ok in Ht as [_ ->].
    apply bind_Ok in HD as (? & t & Ht & HD). apply or_raise_Ok in Ht as [_ ->].
    apply modify_Ok in HD. subst sD. split; reflexivity. }
  apply bind_Ok in H as ([] & s3' & Happly & H). apply ret_Ok in H as [_ ->].
  unfold apply_decision in Happly.
  apply bind_Ok in Happly as ([] & sE & HE & H).
  kept running_processes HE as EstoreE. kept statics HE as EstatE.
  assert (statics sE = statics s1) as Estat by congruence.
  assert (running_processes sE !! pid = Some r) as HstoreE by congruence.
  destruct (static_lookup_eq s1 sE r _ Estat Hobj1) as (mp & Hmp & Eid & Ewf & Etags & Epar).
  simpl in Eid, Ewf, Etags, Epar.
  unfold decision_effect in H.
  apply bind_Ok in H as (mp' & t & Hmp' & H). apply the_process_Ok in Hmp' as [Hmp' ->].
  rewrite Hmp in Hmp'. injection Hmp' as <-.
  apply bind_Ok in H as (live & t & Hlive & H). apply gets_Ok in Hlive as [-> ->].
  rewrite Eid, HstoreE in H.
  apply bind_Ok in H as ([] & sF & HF & H).
  pose proof (cancel_process_internal_gone r sE tt sF mp Hmp HF) as Hgone.
  rewrite Eid in Hgone. rewrite Epar in H.
  destruct (truthy_id (t_parent template)) as [parent_id|].
  - apply bind_Ok in H as (parent & t & Hparent & H).
    apply managed_process_Ok in Hparent as [Hparent ->].
    apply bind_Ok in H as ([] & sG & HG & H).
    kept running_processes HG as EstoreG. kept running_processes H as Estore3.
    kept objects H as Eobj3.
    apply history_append_Ok in HG as [[pp Hpp] ->].
    split; [congruence|]. intros parent_id' [= <-].
    exists parent. split; [congruence|]. split.
    + unfold history_of. rewrite Eobj3. simpl.
      rewrite lookup_alter, decide_True, Hpp by reflexivity. simpl.
      rewrite last_snoc, Ewf, Etags. reflexivity.
    + apply (schedule_decision_due now2 parent _ _ H).
  - apply ret_Ok in H as [_ ->]. split; [exact Hgone|]. intros parent_id [=].
Qed.

Lemma exec_intro {A} (m : M A) s r : outcome m s = r → m s = (r, run m s).
Proof. intros <-. apply M_eta. Qed.

(** Scenario S5: while the decision of the process of the running example
    is out, a child of that process is started, its decision task is
    polled and completed with [CompleteProcess(ok)]. *)
Definition kid_template : ProcessTemplate :=
  {| t_id := None; t_workflow := "wf"; t_input := Some "c"; t_tags := ["kid"];
     t_parent := Some (Uuid 0) |}.

Definition kid_started : MemoryBackend := run (start_process 0 kid_template) deciding.

Definition kid_deciding : MemoryBackend :=
  run (poll_decision_task 0 "default") kid_started.

Definition kid_task : DecisionTask := {| dt_process := 1%nat; dt_run_id := Uuid 3 |}.

Definition kid_completed : MemoryBackend :=
  run (complete_decision_task 0 kid_task (Many [CompleteProcess (Some "ok")]))
      kid_deciding.

Lemma complete_process_round_trip_witness :
  running_processes kid_completed !! Uuid 2 = None
  ∧ ∀ parent_id, truthy_id (t_parent kid_template) = Some parent_id →
      ∃ parent,
        running_processes kid_completed !! parent_id = Some parent
        ∧ last (history_of kid_completed parent)
          = Some (ChildProcessEvent (Uuid 2) (ProcessCompleted (Some "ok"))
                    (t_workflow kid_template) (t_tags kid_template))
        ∧ has_due_decision 0 kid_completed parent.
Proof.
  apply (complete_process_round_trip 0 0 0 kid_template "default" (Some "ok")
           deciding kid_started kid_deciding kid_completed (Uuid 2) kid_task).
  - apply (exec_intro (start_process 0 kid_template) deciding). vm_compute. reflexivity.
  - apply (exec_intro (poll_decision_task 0 "default") kid_started).
    vm_compute. reflexivity.
  - vm_compute. reflexivity.
  - apply (exec_intro (complete_decision_task 0 kid_task
                         (Many [CompleteProcess (Some "ok")])) kid_deciding).
    vm_compute. reflexivity.
Defined.

Lemma child_completion_scenario :
  running_processes kid_completed !! Uuid 2 = None
  ∧ running_processes kid_completed !! Uuid 0 = Some 0%nat
  ∧ history_of kid_completed 0%nat
    = [ProcessStartedEvent; DecisionStartedEvent;
       ChildProcessEvent (Uuid 2) (ProcessCompleted (Some "ok")) "wf" ["kid"]]
  ∧ queue_of kid_completed "default"
    = Some [ {| sd_process := 0%nat; sd_start := None; sd_expiration := Some 60;
                sd_timer := None |} ].
Proof. vm_compute. repeat split; reflexivity. Qed.

(** * Invariants of the reachable states *)

Section step_history.
Context (r : ref) (P : list Event → Prop) (allowed : Event → Prop).
Hypothesis P_append : ∀ h ev, allowed ev → P h → P (h ++ [ev]).
Hypothesis P_started : P [] → P [ProcessStartedEvent].
Hypothesis allowed_other : ∀ ev, ¬ is_timer_event ev → allowed ev.

(** Every call but [poll_decision_task] keeps a property of a history
    that the events other than [TimerEvent] keep; [poll_decision_task]
    does too when [TimerEvent] keeps it as well. *)
Lemma step_history_inv c s :
  (∀ now category, c = PollDecisionTask now category → ∀ t, allowed (TimerEvent t)) →
  history_inv r P s → history_inv r P (step c s).
Proof.
  intros Hpoll. destruct c; simpl.
  - eapply hist_register_workflow.
  - eapply hist_register_activity.
  - eapply hist_start_process; eassumption.
  - eapply hist_signal_process; eassumption.
  - eapply hist_cancel_process; eassumption.
  - eapply hist_heartbeat_activity_task; eassumption.
  - eapply hist_complete_decision_task; eassumption.
  - eapply hist_complete_activity_task; eassumption.
  - unfold process_by_id. apply preserves_managed_process.
  - unfold processes. apply preserves_gets.
  - eapply hist_poll_activity_task; eassumption.
  - eapply hist_poll_decision_task; try eassumption. eapply Hpoll. reflexivity.
Qed.

End step_history.

Lemma heap_fresh_init : heap_fresh init.
Proof. intros r _. reflexivity. Qed.

Lemma reachable_heap_fresh s : reachable s → heap_fresh s.
Proof.
  induction 1 as [|c s _ IH]; [apply heap_fresh_init|].
  refine (proj1 (step_history_inv 0%nat (λ _, True) (λ _, True) _ _ _ c s _ (conj IH I)));
    auto.
Qed.

(** The history of every process object is append-only: whatever call is
    made on a reachable state, and whether it returns or raises, the
    history a process had before is a prefix of the one it has after. *)
Theorem histories_are_append_only (c : call) (s : MemoryBackend) (r : ref) :
  reachable s → history_of s r `prefix_of` history_of (step c s) r.
Proof.
  intros Hreach.
  refine (proj2 (step_history_inv r (λ h, history_of s r `prefix_of` h) (λ _, True)
                   _ _ _ c s _ (conj (reachable_heap_fresh s Hreach) _))).
  - intros h ev _ Hh. apply prefix_app_r, Hh.
  - intros Hnil. apply prefix_nil_inv in Hnil. rewrite Hnil. apply prefix_nil.
  - intros ev _. exact I.
  - intros now category _ t. exact I.
  - reflexivity.
Qed.

Lemma histories_are_append_only_witness :
  history_of started 0%nat
  `prefix_of` history_of (step (PollDecisionTask 0 "default") started) 0%nat.
Proof.
  apply (histories_are_append_only (PollDecisionTask 0 "default") started 0%nat).
  exact started_reachable.
Defined.

(** A [TimerEvent] is appended by [poll_decision_task] and by no other
    call: on a reachable state every other call leaves the timer events
    of every process as they are. *)
Theorem only_the_decision_poll_appends_timer_events (c : call) (s : MemoryBackend)
    (r : ref) :
  reachable s →
  (∀ now category, c ≠ PollDecisionTask now category) →
  timer_events (step c s) r = timer_events s r.
Proof.
  intros Hreach Hc.
  refine (proj2 (step_history_inv r (λ h, filter is_timer_event h = timer_events s r)
                   (λ ev, ¬ is_timer_event ev)
                   _ _ _ c s _ (conj (reachable_heap_fresh s Hreach) _))).
  - intros h ev Hev <-.
    rewrite filter_app, filter_cons_False, filter_nil, app_nil_r by exact Hev.
    reflexivity.
  - intros <-. reflexivity.
  - intros ev Hev. exact Hev.
  - intros now category E. destruct (Hc now category E).
  - reflexivity.
Qed.

Lemma only_the_decision_poll_appends_timer_events_witness :
  timer_events (step (SignalProcess 7 (Uuid 0) "go" None) started) 0%nat
  = timer_events started 0%nat.
Proof.
  apply (only_the_decision_poll_appends_timer_events
           (SignalProcess 7 (Uuid 0) "go" None) started 0%nat).
  - exact started_reachable.
  - intros now category. discriminate.
Defined.

(** ** The store and the object heap agree *)

Definition well_formed (s : MemoryBackend) : Prop :=
  heap_fresh s ∧ store_consistent s.

Lemma wf_keeps {A} (m : M A) :
  keeps objects m → keeps next_ref m → keeps running_processes m →
  preserves well_formed m.
Proof.
  intros Ho Hn Hs s [Hf Hc]. split.
  - intros r0. rewrite (Hn s), (Ho s). apply Hf.
  - unfold store_consistent. rewrite (Ho s), (Hs s). exact Hc.
Qed.

Lemma wf_modify f :
  (∀ s, objects (f s) = objects s) → (∀ s, next_ref (f s) = next_ref s) →
  (∀ s, running_processes (f s) = running_processes s) →
  preserves well_formed (modify f).
Proof. intros Ho Hn Hs. apply wf_keeps; intros s; [apply Ho | apply Hn | apply Hs]. Qed.

Lemma wf_history_append r ev : preserves well_formed (history_append r ev).
Proof.
  unfold history_append. preserve_all.
  apply preserves_modify. intros s [Hf Hc]. split.
  - apply heap_fresh_push, Hf.
  - intros pid r0 Hr0. simpl. specialize (Hc pid r0 Hr0). simpl in Hc.
    rewrite lookup_alter. case_decide as E; [subst r0|exact Hc].
    destruct (objects s !! r); [exact Hc | discriminate].
Qed.

Lemma wf_delete pid :
  preserves well_formed (modify (set_running_processes (delete pid))).
Proof.
  apply preserves_modify. intros s [Hf Hc]. split; [exact Hf|].
  intros k r Hr. simpl in Hr. apply lookup_delete_Some in Hr as [_ Hr].
  exact (Hc k r Hr).
Qed.

(** Installing a new process object under its own id. *)
Lemma wf_install pid p s :
  p_id p = pid → well_formed s →
  well_formed (set_running_processes (insert pid (next_ref s))
                 (bump_ref (set_objects (insert (next_ref s) p) s))).
Proof.
  intros Hid [Hf Hc]. split.
  - intros r0 Hr0. simpl in *. rewrite lookup_insert_ne by lia. apply Hf. lia.
  - intros k r0 Hr0. simpl in *. rewrite lookup_insert in Hr0. case_decide as E.
    + injection Hr0 as <-. rewrite lookup_insert_eq. simpl. congruence.
    + specialize (Hc k r0 Hr0). simpl in Hc. rewrite lookup_insert_ne; [exact Hc|].
      intros E'. assert (objects s !! r0 = None) as H0 by (apply Hf; lia).
      rewrite H0 in Hc. discriminate.
Qed.

Create HintDb wf discriminated.

Ltac wf_leaf :=
  lazymatch goal with
  | |- preserves _ (modify (set_running_processes (delete _))) => apply wf_delete
  | |- preserves _ (modify _) => apply wf_modify; intros; reflexivity
  | |- preserves _ (history_append _ _) => apply wf_history_append
  | |- preserves _ _ =>
      first [ solve [eauto with wf]
            | apply wf_keeps; solve [eauto with keeps] ]
  end.

Ltac wf := preserve_all; wf_leaf.

Lemma wf_uuid4 : preserves well_formed uuid4.
Proof. unfold uuid4. wf. Qed.

Lemma wf_deque_remove q a : preserves well_formed (deque_remove q a).
Proof. unfold deque_remove. wf. Qed.

Lemma wf_del_running_activity k : preserves well_formed (del_running_activity k).
Proof. unfold del_running_activity. wf. Qed.

Lemma wf_del_running_decision k : preserves well_formed (del_running_decision k).
Proof. unfold del_running_decision. wf. Qed.

#[export] Hint Resolve wf_uuid4 wf_deque_remove wf_del_running_activity
  wf_del_running_decision : wf.

Lemma wf_schedule_activity now p activity id input queue :
  preserves well_formed (_schedule_activity now p activity id input queue).
Proof. unfold _schedule_activity. wf. Qed.

Lemma wf_activity_by_id id : preserves well_formed (_activity_by_id id).
Proof. unfold _activity_by_id. preserve_all. Qed.

Lemma wf_cancel_activity id : preserves well_formed (_cancel_activity id).
Proof. unfold _cancel_activity. wf. Qed.

#[export] Hint Resolve wf_schedule_activity wf_activity_by_id wf_cancel_activity : wf.

Lemma wf_cancel_process_internal cp p :
  (∀ c, preserves well_formed (cp c)) →
  preserves well_formed (_cancel_process_internal cp p).
Proof. intros H. unfold _cancel_process_internal. wf. Qed.

Lemma wf_cancel_process_rec fuel pid details :
  preserves well_formed (cancel_process_rec fuel pid details).
Proof.
  revert pid details. induction fuel as [|fuel IH]; intros pid details; simpl.
  - preserve.
  - preserve_all; [wf_leaf|]. apply wf_cancel_process_internal. intros c. apply IH.
Qed.

Lemma wf_cancel_process pid details : preserves well_formed (cancel_process pid details).
Proof. intros s. apply wf_cancel_process_rec. Qed.

#[export] Hint Resolve wf_cancel_process_internal wf_cancel_process : wf.

Lemma wf_time_out_activities now : preserves well_formed (_time_out_activities now).
Proof. unfold _time_out_activities. wf. Qed.

Lemma wf_time_out_decisions now : preserves well_formed (_time_out_decisions now).
Proof. unfold _time_out_decisions. wf. Qed.

#[export] Hint Resolve wf_time_out_activities wf_time_out_decisions : wf.

Lemma bind_modify {B} f (k : unit → M B) s : bind (modify f) k s = k tt (f s).
Proof. reflexivity. Qed.

Lemma wf_start_process now process : preserves well_formed (start_process now process).
Proof.
  intros s Hwf. unfold run, start_process.
  rewrite (bind_Ok_intro _ _ _ _ _ (uuid4_eq s)).
  rewrite (bind_Ok_intro _ _ _ _ _ (new_process_eq _ _)).
  rewrite bind_modify.
  match goal with
  | |- well_formed (bind ?m ?k ?t).2 =>
      assert (preserves well_formed (bind m k)) as Hp by wf;
      apply (Hp t)
  end.
  apply (wf_install _ _ (bump_uuid s)); [reflexivity | exact Hwf].
Qed.

Lemma the_process_eq r s :
  the_process r s = match objects s !! r with
                    | Some p => (Ok p, s)
                    | None => (Raise AttributeError, s)
                    end.
Proof.
  unfold the_process, bind, gets, or_raise. destruct (objects s !! r); reflexivity.
Qed.

(** The part of the [StartChildProcess] branch that follows the choice of
    the child's id. *)
Lemma wf_install_child now task template id s :
  well_formed s →
  well_formed
    (run (let* tp := the_process (dt_process task) in
          let* process := new_process
              {| p_id := id; p_workflow := t_workflow template;
                 p_input := t_input template; p_tags := t_tags template;
                 p_parent := Some (p_id tp); history := [] |} in
          modify (set_running_processes (insert id process)) ;;
          _schedule_decision now process None None) s).
Proof.
  intros Hwf. unfold run. unfold bind at 1. rewrite the_process_eq.
  destruct (objects s !! dt_process task) as [tp|]; [|exact Hwf].
  rewrite (bind_Ok_intro _ _ _ _ _ (new_process_eq _ _)), bind_modify.
  apply (wf_keeps (_schedule_decision now (next_ref s) None None));
    [auto with keeps ..|].
  apply wf_install; [reflexivity | exact Hwf].
Qed.

Lemma wf_decision_effect now task r d :
  preserves well_formed (decision_effect now task r d).
Proof.
  unfold decision_effect. destruct d; try wf.
  intros s Hwf. unfold run. unfold bind at 1.
  destruct (truthy_id (t_id process)) as [i|].
  - apply (wf_install_child now task process i s Hwf).
  - rewrite uuid4_eq. apply (wf_install_child now task process _ (bump_uuid s) Hwf).
Qed.

Lemma wf_apply_decision now task r d :
  preserves well_formed (apply_decision now task r d).
Proof.
  unfold apply_decision. apply preserves_bind; [apply wf_history_append|].
  intros _. apply wf_decision_effect.
Qed.

#[export] Hint Resolve wf_apply_decision wf_start_process : wf.

Lemma wf_step c s : well_formed s → well_formed (step c s).
Proof.
  destruct c; simpl.
  - revert s. change (preserves well_formed
                        (register_workflow name category timeout decision_timeout)).
    unfold register_workflow, new_list. wf.
  - revert s. change (preserves well_formed
                        (register_activity name category scheduled_timeout
                           execution_timeout heartbeat_timeout)).
    unfold register_activity. wf.
  - apply wf_start_process.
  - revert s. change (preserves well_formed (signal_process now process_id signal data)).
    unfold signal_process. wf.
  - apply wf_cancel_process.
  - revert s. change (preserves well_formed (heartbeat_activity_task now task)).
    unfold heartbeat_activity_task. wf.
  - revert s. change (preserves well_formed (complete_decision_task now task decisions)).
    unfold complete_decision_task. wf.
  - revert s. change (preserves well_formed (complete_activity_task now task result)).
    unfold complete_activity_task. wf.
  - unfold process_by_id. apply preserves_managed_process.
  - unfold processes. apply preserves_gets.
  - revert s. change (preserves well_formed (poll_activity_task now category)).
    unfold poll_activity_task. wf.
  - revert s. change (preserves well_formed (poll_decision_task now category)).
    unfold poll_decision_task. wf.
Qed.

Lemma well_formed_init : well_formed init.
Proof. split; [apply heap_fresh_init|]. intros pid r H. inversion H. Qed.

Lemma reachable_well_formed s : reachable s → well_formed s.
Proof.
  induction 1 as [|c s _ IH]; [apply well_formed_init | apply wf_step, IH].
Qed.

(** In every reachable state the store and the object heap agree: each
    key of the store maps to a process object that exists and carries
    that key as its id, and no object lives beyond the allocation
    pointer.  (So the precondition of the cancellation theorem holds in
    every state the operations can produce.) *)
Theorem reachable_store_is_consistent (s : MemoryBackend) (pid : ident) (r : ref) :
  reachable s →
  running_processes s !! pid = Some r →
  ∃ p, objects s !! r = Some p ∧ p_id p = pid ∧ (r < next_ref s)%nat.
Proof.
  intros Hreach Hr. destruct (reachable_well_formed s Hreach) as [Hf Hc].
  destruct (store_consistent_lookup s pid r Hc Hr) as (p & Hp & Hid).
  exists p. split; [exact Hp|]. split; [exact Hid|].
  destruct (decide (r < next_ref s)%nat) as [Hlt|Hge]; [exact Hlt|].
  assert (objects s !! r = None) as H0 by (apply Hf; lia). congruence.
Qed.

Lemma family_reachable : reachable family.
Proof.
  replace family with
    (step (SignalProcess 0 (Uuid 0) "go" None)
       (step (CompleteDecisionTask 0 first_task (Many [StartChildProcess child_template]))
          (step (PollDecisionTask 0 Defaults.DECISION_CATEGORY) started)))
    by (vm_compute; reflexivity).
  repeat apply reachable_step. exact started_reachable.
Qed.

Lemma reachable_store_is_consistent_witness :
  ∃ p, objects family !! 1%nat = Some p ∧ p_id p = Uuid 2 ∧ (1 < next_ref family)%nat.
Proof.
  apply (reachable_store_is_consistent family (Uuid 2) 1%nat family_reachable).
  reflexivity.
Defined.

(** * Polling for activities *)

Definition expired (now : Z) (a : ScheduledActivity) : Prop := sa_expiration a < now.

#[global] Instance expired_dec now a : Decision (expired now a).
Proof. unfold expired. apply _. Defined.

Lemma pop_live_split now dropped a rest :
  Forall (expired now) dropped → now ≤ sa_expiration a →
  pop_live now (dropped ++ a :: rest) = (Some a, rest).
Proof.
  intros Hd Ha. induction Hd as [|x dropped Hx _ IH]; simpl.
  - rewrite bool_decide_eq_true_2 by exact Ha. reflexivity.
  - rewrite bool_decide_eq_false_2 by (unfold expired in Hx; lia). exact IH.
Qed.

Lemma pop_live_expired now queue :
  Forall (expired now) queue → pop_live now queue = (None, []).
Proof.
  intros H. induction H as [|x queue Hx _ IH]; simpl; [reflexivity|].
  rewrite bool_decide_eq_false_2 by (unfold expired in Hx; lia). exact IH.
Qed.

(** [poll_activity_task] on a category: a missing queue gives none and
    changes nothing; a queue of expired entries gives none and is emptied
    (the entries are dropped without a trace); otherwise the first entry
    that has not expired is handed out under a new run id, the expired
    entries before it are dropped, the entries after it stay in order,
    the running table records the execution and heartbeat deadlines, and
    [ActivityStartedEvent] is appended to the owner's history. *)
Theorem poll_activity_task_takes_first_live_entry (now : Z) (category : string)
    (s : MemoryBackend) :
  (scheduled_activities s !! category = None →
   poll_activity_task now category s = (Ok None, s))
  ∧ (∀ queue,
       scheduled_activities s !! category = Some queue →
       Forall (expired now) queue →
       poll_activity_task now category s
       = (Ok None, set_scheduled_activities (insert category []) s))
  ∧ (∀ dropped a rest info p,
       scheduled_activities s !! category = Some (dropped ++ a :: rest) →
       Forall (expired now) dropped →
       now ≤ sa_expiration a →
       activities s !! ae_activity (sa_execution a) = Some info →
       objects s !! sa_process a = Some p →
       let s' := run (poll_activity_task now category) s in
       outcome (poll_activity_task now category) s
       = Ok (Some {| at_execution := sa_execution a; at_process_id := p_id p;
                     at_run_id := Uuid (next_uuid s) |})
       ∧ scheduled_activities s' = <[category := rest]> (scheduled_activities s)
       ∧ running_activities s'
         = <[Uuid (next_uuid s) :=
               {| ra_execution := sa_execution a; ra_process := sa_process a;
                  ra_expiration := now + act_execution_timeout info;
                  ra_heartbeat := now + act_heartbeat_timeout info |}]>
             (running_activities s)
       ∧ history_of s' (sa_process a)
         = history p ++ [ActivityStartedEvent (sa_execution a)]).
Proof.
  split; [|split].
  - intros Hnone. unfold poll_activity_task, bind, gets. rewrite Hnone. reflexivity.
  - intros queue Hq Hall. unfold poll_activity_task, bind at 1, gets at 1.
    rewrite Hq. simpl. rewrite (pop_live_expired now queue Hall). reflexivity.
  - intros dropped a rest info p Hq Hd Ha Hinfo Hp s'.
    assert (poll_activity_task now category s
            = (Ok (Some {| at_execution := sa_execution a; at_process_id := p_id p;
                           at_run_id := Uuid (next_uuid s) |}),
               set_objects (alter (push_event (ActivityStartedEvent (sa_execution a)))
                              (sa_process a))
                 (set_running_activities
                    (insert (Uuid (next_uuid s))
                       {| ra_execution := sa_execution a; ra_process := sa_process a;
                          ra_expiration := now + act_execution_timeout info;
                          ra_heartbeat := now + act_heartbeat_timeout info |})
                    (bump_uuid (set_scheduled_activities (insert category rest) s)))))
      as E.
    { unfold poll_activity_task, bind at 1, gets at 1.
      rewrite Hq. simpl. rewrite (pop_live_split now dropped a rest Hd Ha).
      rewrite bind_modify. simpl.
      rewrite (bind_Ok_intro _ _ _ _ _ (uuid4_eq _)).
      unfold bind at 1. unfold bind at 1, gets at 1. simpl. rewrite Hinfo.
      simpl. rewrite bind_modify.
      unfold bind at 1. rewrite (history_append_eq _ _ _ p) by exact Hp.
      unfold bind at 1. rewrite the_process_eq. simpl.
      rewrite lookup_alter, decide_True, Hp by reflexivity. reflexivity. }
    subst s'. unfold outcome, run. rewrite E. simpl.
    split; [reflexivity|]. split; [reflexivity|]. split; [reflexivity|].
    unfold history_of. simpl.
    rewrite lookup_alter, decide_True, Hp by reflexivity. reflexivity.
Qed.

Lemma poll_activity_task_takes_first_live_entry_witness :
  outcome (poll_activity_task 0 "default") activity_scheduled
  = Ok (Some {| at_execution := a1; at_process_id := Uuid 0; at_run_id := Uuid 2 |})
  ∧ poll_activity_task 2 "default" activity_scheduled
    = (Ok None, set_scheduled_activities (insert "default" []) activity_scheduled).
Proof.
  destruct (poll_activity_task_takes_first_live_entry 0 "default" activity_scheduled)
    as (_ & _ & Hlive).
  destruct (poll_activity_task_takes_first_live_entry 2 "default" activity_scheduled)
    as (_ & Hdead & _).
  split.
  - apply (Hlive [] {| sa_execution := a1; sa_process := 0%nat; sa_expiration := 1 |} []
             {| act_category := "default"; act_scheduled_timeout := 1;
                act_execution_timeout := 60; act_heartbeat_timeout := 30 |}
             {| p_id := Uuid 0; p_workflow := "wf"; p_input := Some "x"; p_tags := [];
                p_parent := None;
                history := [ProcessStartedEvent; DecisionStartedEvent;
                            DecisionEvent (ScheduleActivity "act" "a1" (Some "y") None)] |}).
    + vm_compute. reflexivity.
    + constructor.
    + simpl. lia.
    + vm_compute. reflexivity.
    + vm_compute. reflexivity.
  - apply (Hdead [ {| sa_execution := a1; sa_process := 0%nat; sa_expiration := 1 |} ]).
    + vm_compute. reflexivity.
    + repeat constructor.
Defined.

(** * Loops over tables and queues *)

(** The value of a projection after a successful loop whose every
    iteration updates it by [g]. *)
Lemma for_each_track {A F} (f : MemoryBackend → F) (g : A → F → F) (l : list A)
    (body : A → M unit) s u s' :
  for_each l body s = (Ok u, s') →
  (∀ x t t', x ∈ l → body x t = (Ok tt, t') → f t' = g x (f t)) →
  f s' = foldl (λ acc x, g x acc) (f s) l.
Proof.
  revert s. induction l as [|x l IH]; intros s H Hstep.
  - apply ret_Ok in H as [_ ->]. reflexivity.
  - apply for_each_cons_Ok in H as (s1 & H1 & H2). simpl.
    rewrite <- (Hstep x s s1 (list_elem_of_here _ _) H1).
    apply (IH s1 H2). intros y t t' Hy. apply Hstep. right. exact Hy.
Qed.

Lemma lookup_foldl_delete {K V B} `{Countable K} (key : B → K) (l : list B)
    (m : gmap K V) (k : K) :
  foldl (λ acc x, delete (key x) acc) m l !! k
  = if decide (k ∈ key <$> l) then None else m !! k.
Proof.
  revert m. induction l as [|x l IH]; intros m.
  - case_decide as Hk; [inversion Hk | reflexivity].
  - cbn [foldl]. rewrite IH, fmap_cons.
    destruct (decide (k ∈ key <$> l)) as [Hin|Hout].
    + rewrite decide_True by (right; exact Hin). reflexivity.
    + destruct (decide (k = key x)) as [->|Hne].
      * rewrite lookup_delete_eq, decide_True by left. reflexivity.
      * rewrite lookup_delete_ne by (intros E; congruence). rewrite decide_False; [reflexivity|].
        intros Hk. apply elem_of_cons in Hk as [Hk|Hk]; [exact (Hne Hk) | exact (Hout Hk)].
Qed.

Lemma lookup_foldl_alter {K V B} `{Countable K} (h : V → V) (key : B → K)
    (l : list B) (m : gmap K V) (k : K) :
  NoDup (key <$> l) →
  foldl (λ acc x, alter h (key x) acc) m l !! k
  = if decide (k ∈ key <$> l) then h <$> m !! k else m !! k.
Proof.
  revert m. induction l as [|x l IH]; intros m Hnd.
  - case_decide as Hk; [inversion Hk | reflexivity].
  - rewrite fmap_cons in Hnd. apply NoDup_cons in Hnd as [Hx Hnd].
    cbn [foldl]. rewrite (IH _ Hnd), fmap_cons.
    destruct (decide (k = key x)) as [->|Hne].
    + rewrite (decide_False (P := key x ∈ key <$> l)) by exact Hx.
      rewrite (decide_True (P := key x ∈ key x :: (key <$> l))) by left.
      apply lookup_alter_eq.
    + rewrite lookup_alter_ne by (intros E; congruence).
      destruct (decide (k ∈ key <$> l)) as [Hin|Hout].
      * rewrite decide_True by (right; exact Hin). reflexivity.
      * rewrite decide_False; [reflexivity|].
        intros Hk. apply elem_of_cons in Hk as [Hk|Hk]; [exact (Hne Hk) | exact (Hout Hk)].
Qed.

(** Deleting the keys of the entries that satisfy [P], one by one, leaves
    the entries that do not. *)
Lemma delete_filtered {K V} `{Countable K} (P : K * V → Prop)
    `{∀ x, Decision (P x)} (m : gmap K V) :
  foldl (λ acc x, delete x.1 acc) m (filter P (map_to_list m))
  = filter (λ x, ¬ P x) m.
Proof.
  apply map_eq. intros k. rewrite (lookup_foldl_delete fst).
  destruct (decide (k ∈ (filter P (map_to_list m)).*1)) as [Hin|Hout].
  - symmetry. apply map_lookup_filter_None. right. intros v Hv HP.
    apply list_elem_of_fmap in Hin as ([k' v'] & -> & Hin). simpl in *.
    apply list_elem_of_filter in Hin as [HP' Hin].
    apply elem_of_map_to_list in Hin. rewrite Hv in Hin. injection Hin as <-.
    exact (HP HP').
  - destruct (m !! k) as [v|] eqn:Hv.
    + symmetry. apply map_lookup_filter_Some. split; [exact Hv|].
      intros HP. apply Hout. apply list_elem_of_fmap. exists (k, v).
      split; [reflexivity|]. apply list_elem_of_filter. split; [exact HP|].
      apply elem_of_map_to_list. exact Hv.
    + symmetry. apply map_lookup_filter_None. left. exact Hv.
Qed.

(** Applying [h] at every key of a map is mapping [h] over it. *)
Lemma alter_all {K V} `{Countable K} (h : V → V) (m : gmap K V) :
  foldl (λ acc x, alter h x.1 acc) m (map_to_list m) = h <$> m.
Proof.
  apply map_eq. intros k.
  rewrite (lookup_foldl_alter h fst) by apply NoDup_fst_map_to_list.
  rewrite lookup_fmap. case_decide as Hk; [reflexivity|].
  destruct (m !! k) as [v|] eqn:Hv; [|reflexivity].
  exfalso. apply Hk. apply list_elem_of_fmap. exists (k, v).
  split; [reflexivity|]. apply elem_of_map_to_list. exact Hv.
Qed.

Lemma py_remove_Permutation {A} `{EqDecision A} (x : A) l l' :
  py_remove x l = Some l' → l ≡ₚ x :: l'.
Proof.
  revert l'. induction l as [|y l IH]; intros l'; simpl; [discriminate|].
  destruct (decide (x = y)) as [->|Hne].
  - intros [= <-]. reflexivity.
  - destruct (py_remove x l) as [l1|]; simpl; intros [= <-].
    rewrite (IH l1 eq_refl). apply Permutation_swap.
Qed.

Lemma filter_none_all {A} (P : A → Prop) `{∀ x, Decision (P x)} (l : list A) :
  length (filter P l) = 0%nat → filter (λ x, ¬ P x) l = l.
Proof.
  induction l as [|x l IH]; [reflexivity|]. rewrite !filter_cons.
  destruct (decide (P x)) as [Hx|Hx]; simpl; [discriminate|].
  intros Hl. rewrite decide_True by exact Hx. f_equal. apply IH, Hl.
Qed.

(** ** Activity queues and the running table, one step at a time *)

Lemma deque_of_eq c s :
  deque_of c s = match scheduled_activities s !! c with
                 | Some q => (Ok q, s)
                 | None => (Raise KeyError, s)
                 end.
Proof.
  unfold deque_of, bind, gets. destruct (scheduled_activities s !! c); reflexivity.
Qed.

Lemma deque_remove_Ok c e s u s' :
  deque_remove c e s = (Ok u, s') →
  ∃ q q1, scheduled_activities s !! c = Some q ∧ py_remove e q = Some q1
          ∧ s' = set_scheduled_activities (insert c q1) s.
Proof.
  intros H. apply bind_Ok in H as (q & s1 & H1 & H).
  apply (lookup_or_raise_Ok (λ s, scheduled_activities s !! c)) in H1 as [Hq ->].
  apply bind_Ok in H as (q1 & s2 & H2 & H).
  apply or_raise_Ok in H2 as [Hq1 ->].
  apply modify_Ok in H. eauto.
Qed.

Lemma deque_remove_eq c e s q q1 :
  scheduled_activities s !! c = Some q → py_remove e q = Some q1 →
  deque_remove c e s = (Ok tt, set_scheduled_activities (insert c q1) s).
Proof.
  intros Hq Hq1. unfold deque_remove, bind, gets, or_raise. rewrite Hq. simpl.
  rewrite Hq1. reflexivity.
Qed.

Lemma del_running_activity_Ok k s u s' :
  del_running_activity k s = (Ok u, s') →
  is_Some (running_activities s !! k) ∧ s' = set_running_activities (delete k) s.
Proof.
  intros H. apply bind_Ok in H as (o & s1 & H1 & H).
  apply gets_Ok in H1 as [-> ->].
  apply bind_Ok in H as (a & s2 & H2 & H).
  apply or_raise_Ok in H2 as [Ha ->].
  apply modify_Ok in H. split; [rewrite Ha; eauto | exact H].
Qed.

Lemma del_running_activity_eq k s :
  is_Some (running_activities s !! k) →
  del_running_activity k s = (Ok tt, set_running_activities (delete k) s).
Proof.
  intros [a Ha]. unfold del_running_activity, bind, gets, or_raise. rewrite Ha.
  reflexivity.
Qed.

(** A loop that removes, from the queue of category [c], the entries of
    that queue that satisfy [P]. *)
Section remove_loop.
Context (P : ScheduledActivity → Prop) `{∀ x, Decision (P x)} (c : string)
  (body : ScheduledActivity → M unit).
Hypothesis body_removes : ∀ e t t', body e t = (Ok tt, t') →
  ∃ q q1, scheduled_activities t !! c = Some q ∧ py_remove e q = Some q1
          ∧ scheduled_activities t' = <[c := q1]> (scheduled_activities t).

Lemma remove_loop_count es t t' q :
  scheduled_activities t !! c = Some q → Forall P es →
  for_each es body t = (Ok tt, t') →
  ∃ q', scheduled_activities t' = <[c := q']> (scheduled_activities t)
        ∧ length (filter P q) = (length es + length (filter P q'))%nat
        ∧ filter (λ x, ¬ P x) q' = filter (λ x, ¬ P x) q.
Proof.
  revert t q. induction es as [|e es IH]; intros t q Hq HP Hrun.
  - apply ret_Ok in Hrun as [_ ->]. exists q. rewrite insert_id by exact Hq. auto.
  - apply for_each_cons_Ok in Hrun as (t1 & H1 & H2).
    destruct (body_removes e t t1 H1) as (q0 & q1 & Hq0 & Hrem & E1).
    rewrite Hq in Hq0. injection Hq0 as <-.
    inversion HP as [|? ? He HP']; subst.
    destruct (IH t1 q1) as (q' & E' & Hlen & Hkeep);
      [rewrite E1; apply lookup_insert_eq | exact HP' | exact H2 |].
    exists q'. split; [rewrite E', E1; apply insert_insert_eq|].
    destruct (py_remove_filter P e q q1 Hrem) as [Hc _].
    destruct (py_remove_filter (λ x, ¬ P x) e q q1 Hrem) as [_ Hk].
    split; [rewrite (Hc He), Hlen; simpl; lia|].
    rewrite Hkeep. apply Hk. intros Hn. exact (Hn He).
Qed.

Lemma remove_loop_filter t t' q :
  scheduled_activities t !! c = Some q →
  for_each (filter P q) body t = (Ok tt, t') →
  scheduled_activities t'
  = alter (filter (λ x, ¬ P x)) c (scheduled_activities t).
Proof.
  intros Hq Hrun.
  destruct (remove_loop_count (filter P q) t t' q Hq) as (q' & E & Hlen & Hkeep).
  { apply Forall_forall. intros x Hx. apply list_elem_of_filter in Hx as [Hx _]. exact Hx. }
  { exact Hrun. }
  assert (length (filter P q') = 0%nat) as Hnone by lia.
  rewrite (filter_none_all P q' Hnone) in Hkeep. subst q'.
  rewrite E. apply map_eq. intros k. destruct (decide (c = k)) as [<-|Hne].
  - rewrite lookup_insert_eq, lookup_alter_eq, Hq. reflexivity.
  - rewrite lookup_insert_ne, lookup_alter_ne by exact Hne. reflexivity.
Qed.

End remove_loop.

Lemma deque_remove_loop_succeeds c es t q :
  scheduled_activities t !! c = Some q → es ⊆+ q →
  ∃ t', for_each es (deque_remove c) t = (Ok tt, t').
Proof.
  revert t q. induction es as [|e es IH]; intros t q Hq Hsub.
  - exists t. reflexivity.
  - assert (e ∈ q) as He.
    { apply singleton_submseteq_l. etrans; [|exact Hsub].
      apply (submseteq_skips_l [e]), submseteq_nil_l. }
    destruct (py_remove_elem_of e q He) as [q1 Hq1].
    destruct (IH (set_scheduled_activities (insert c q1) t) q1) as [t' Ht'].
    { simpl. apply lookup_insert_eq. }
    { apply (submseteq_app_inv_l _ _ [e]). simpl.
      rewrite <- (py_remove_Permutation e q q1 Hq1). exact Hsub. }
    exists t'. simpl. rewrite (bind_Ok_intro _ _ _ _ _ (deque_remove_eq c e t q q1 Hq Hq1)).
    exact Ht'.
Qed.

Lemma del_loop_succeeds (l : list (ident * RunningActivity)) t :
  NoDup l.*1 → (∀ ka, ka ∈ l → is_Some (running_activities t !! ka.1)) →
  ∃ t', for_each l (λ ka, del_running_activity ka.1) t = (Ok tt, t').
Proof.
  revert t. induction l as [|[k a] l IH]; intros t Hnd Hin.
  - exists t. reflexivity.
  - rewrite fmap_cons in Hnd. apply NoDup_cons in Hnd as [Hk Hnd].
    destruct (IH (set_running_activities (delete k) t) Hnd) as [t' Ht'].
    { intros [k' a'] Hka. simpl. rewrite lookup_delete_ne.
      - apply (Hin (k', a')). right. exact Hka.
      - intros ->. apply Hk. apply list_elem_of_fmap. exists (k', a'). split; [reflexivity | exact Hka]. }
    exists t'. simpl.
    rewrite (bind_Ok_intro _ _ _ _ _ (del_running_activity_eq k t (Hin (k, a) (list_elem_of_here _ _)))).
    exact Ht'.
Qed.

Lemma NoDup_filter_items {K V} `{Countable K} (P : K * V → Prop)
    `{∀ x, Decision (P x)} (m : gmap K V) :
  NoDup (filter P (map_to_list m)).*1.
Proof.
  apply (sublist_NoDup _ (map_to_list m).*1); [apply NoDup_fst_map_to_list|].
  apply fmap_sublist, sublist_filter.
Qed.

(** * Cancelling an activity *)

Lemma keeps_objects_cancel_activity id : keeps objects (_cancel_activity id).
Proof. unfold _cancel_activity, deque_remove, deque_of, del_running_activity. frame. Qed.

Lemma keeps_store_cancel_activity id : keeps running_processes (_cancel_activity id).
Proof. unfold _cancel_activity, deque_remove, deque_of, del_running_activity. frame. Qed.

Lemma cancel_scheduled_body id (item : string * list ScheduledActivity) t t' :
  (let* queue := deque_of item.1 in
   for_each (filter (λ a, ae_id (sa_execution a) = id) queue)
     (λ a, deque_remove item.1 a)) t = (Ok tt, t') →
  scheduled_activities t'
  = alter (filter (λ a, ae_id (sa_execution a) ≠ id)) item.1 (scheduled_activities t).
Proof.
  intros H. apply bind_Ok in H as (q & t1 & H1 & H).
  rewrite deque_of_eq in H1.
  destruct (scheduled_activities t !! item.1) as [q0|] eqn:Hq; [|discriminate].
  injection H1 as <- <-.
  apply (remove_loop_filter (λ a, ae_id (sa_execution a) = id) item.1
           (λ a, deque_remove item.1 a)) with (q := q0); [|exact Hq | exact H].
  intros e u u' He. apply deque_remove_Ok in He as (q & q1 & Hq' & Hrem & ->).
  exists q, q1. auto.
Qed.

Lemma cancel_scheduled_succeeds id items t :
  (∀ item, item ∈ items → is_Some (scheduled_activities t !! item.1)) →
  ∃ t', for_each items (λ item : string * list ScheduledActivity,
          let* queue := deque_of item.1 in
          for_each (filter (λ a, ae_id (sa_execution a) = id) queue)
            (λ a, deque_remove item.1 a)) t = (Ok tt, t').
Proof.
  revert t. induction items as [|item items IH]; intros t Hin.
  - exists t. reflexivity.
  - destruct (Hin item (list_elem_of_here _ _)) as [q Hq].
    destruct (deque_remove_loop_succeeds item.1
                (filter (λ a, ae_id (sa_execution a) = id) q) t q Hq) as [t1 H1].
    { apply sublist_submseteq, sublist_filter. }
    assert ((let* queue := deque_of item.1 in
             for_each (filter (λ a, ae_id (sa_execution a) = id) queue)
               (λ a, deque_remove item.1 a)) t = (Ok tt, t1)) as Hbody.
    { unfold bind. rewrite deque_of_eq, Hq. exact H1. }
    destruct (IH t1) as [t' Ht'].
    { intros item' Hitem'. rewrite (cancel_scheduled_body id item t t1 Hbody).
      destruct (decide (item.1 = item'.1)) as [E|E].
      - rewrite E, lookup_alter_eq. apply fmap_is_Some, Hin. right. exact Hitem'.
      - rewrite lookup_alter_ne by exact E. apply Hin. right. exact Hitem'. }
    exists t'. simpl. rewrite (bind_Ok_intro _ _ _ _ _ Hbody). exact Ht'.
Qed.

(** [_cancel_activity] never fails.  It removes, from every queue and from
    the running table, exactly the entries whose activity id is [id], and
    touches neither the histories nor anything else of the processes. *)
Theorem cancel_activity_removes_every_entry (id : string) (s : MemoryBackend) :
  let s' := run (_cancel_activity id) s in
  outcome (_cancel_activity id) s = Ok tt
  ∧ scheduled_activities s'
    = filter (λ a, ae_id (sa_execution a) ≠ id) <$> scheduled_activities s
  ∧ running_activities s'
    = filter (λ ka, ae_id (ra_execution ka.2) ≠ id) (running_activities s)
  ∧ objects s' = objects s
  ∧ running_processes s' = running_processes s.
Proof.
  destruct (cancel_scheduled_succeeds id (map_to_list (scheduled_activities s)) s)
    as [s1 H1].
  { intros [c q] Hitem. apply elem_of_map_to_list in Hitem. simpl. rewrite Hitem. eauto. }
  destruct (del_loop_succeeds
              (filter (λ ka, ae_id (ra_execution ka.2) = id)
                 (map_to_list (running_activities s1))) s1) as [s2 H2].
  { apply (NoDup_filter_items (λ ka : ident * RunningActivity,
                                 ae_id (ra_execution ka.2) = id)). }
  { intros [k a] Hka. apply list_elem_of_filter in Hka as [_ Hka].
    apply elem_of_map_to_list in Hka. simpl. rewrite Hka. eauto. }
  assert (_cancel_activity id s = (Ok tt, s2)) as E.
  { unfold _cancel_activity. unfold bind at 1, gets at 1.
    rewrite (bind_Ok_intro _ _ _ _ _ H1). unfold bind at 1, gets at 1. exact H2. }
  assert (scheduled_activities s1
          = filter (λ a, ae_id (sa_execution a) ≠ id) <$> scheduled_activities s) as E1.
  { rewrite <- alter_all.
    apply (for_each_track scheduled_activities
             (λ (item : string * list ScheduledActivity) m,
                alter (filter (λ a, ae_id (sa_execution a) ≠ id)) item.1 m)
             _ _ s tt s1 H1).
    intros item t t' _. apply cancel_scheduled_body. }
  assert (running_activities s2
          = filter (λ ka, ae_id (ra_execution ka.2) ≠ id) (running_activities s1)) as E2.
  { rewrite <- (delete_filtered (λ ka : ident * RunningActivity,
                                   ae_id (ra_execution ka.2) = id)).
    apply (for_each_track running_activities
             (λ (ka : ident * RunningActivity) m, delete ka.1 m) _ _ s1 tt s2 H2).
    intros ka t t' _ Hd. apply del_running_activity_Ok in Hd as [_ ->]. reflexivity. }
  assert (running_activities s1 = running_activities s) as E3.
  { apply (for_each_Ok_ind (λ t, running_activities t = running_activities s) _ _ s tt s1 H1);
      [reflexivity|].
    intros item t t' _ Ht Hb. apply bind_Ok in Hb as (q & t1 & Hb1 & Hb).
    rewrite deque_of_eq in Hb1. destruct (scheduled_activities t !! item.1); [|discriminate].
    injection Hb1 as <- <-.
    apply (for_each_Ok_ind (λ t, running_activities t = running_activities s) _ _ t tt t' Hb);
      [exact Ht|].
    intros e u u' _ Hu He. apply deque_remove_Ok in He as (? & ? & _ & _ & ->). exact Hu. }
  assert (scheduled_activities s2 = scheduled_activities s1) as E4.
  { apply (for_each_Ok_ind (λ t, scheduled_activities t = scheduled_activities s1)
             _ _ s1 tt s2 H2); [reflexivity|].
    intros ka t t' _ Ht Hd. apply del_running_activity_Ok in Hd as [_ ->]. exact Ht. }
  intros s'. subst s'. unfold outcome, run. rewrite E. simpl.
  split; [reflexivity|]. split; [rewrite E4; exact E1|].
  split; [rewrite E2, E3; reflexivity|].
  split.
  - apply (keeps_exec objects _ _ _ _ (keeps_objects_cancel_activity id) E).
  - apply (keeps_exec running_processes _ _ _ _ (keeps_store_cancel_activity id) E).
Qed.

(** * The sweeps *)

(** Every category is bound to a list object that has been allocated. *)
Definition queues_allocated (s : MemoryBackend) : Prop :=
  map_Forall (λ _ l, (l < next_loc s)%nat) (scheduled_decisions s).

#[global] Instance queues_allocated_dec s : Decision (queues_allocated s).
Proof. unfold queues_allocated. apply _. Defined.

Lemma queues_allocated_frame s s' :
  scheduled_decisions s' = scheduled_decisions s → next_loc s' = next_loc s →
  queues_allocated s → queues_allocated s'.
Proof. unfold queues_allocated. intros -> ->. auto. Qed.

Lemma queues_allocated_schedule_decision now r start timer s s' :
  _schedule_decision now r start timer s = (Ok tt, s') →
  queues_allocated s → queues_allocated s'.
Proof.
  rewrite schedule_decision_eq.
  destruct (objects s !! r) as [p|]; [|discriminate].
  destruct (workflows s !! p_workflow p) as [info|]; [|discriminate].
  destruct (scheduled_decisions s !! wf_category info) as [l|]; [|discriminate].
  destruct (lists s !! l) as [q|]; [|discriminate].
  case_bool_decide; intros [= <-] Hs; [|exact Hs].
  unfold queues_allocated, enqueue. simpl. apply map_Forall_insert_2; [lia|].
  intros c l0 Hl0. specialize (Hs c l0 Hl0). simpl in Hs. lia.
Qed.

Lemma due_frame now r s s' :
  objects s' = objects s → workflows s' = workflows s →
  scheduled_decisions s' = scheduled_decisions s → lists s' = lists s →
  has_due_decision now s r → has_due_decision now s' r.
Proof.
  intros Eo Ew Es El (p & info & queue & d & Hp & Hinfo & Hq & Hd).
  exists p, info, queue, d. unfold queue_of in *. rewrite Eo, Ew, Es, El. auto.
Qed.

Lemma due_history_append now r r' ev s u s' :
  history_append r' ev s = (Ok u, s') →
  has_due_decision now s r → has_due_decision now s' r.
Proof.
  intros H (p & info & queue & d & Hp & Hinfo & Hq & Hd).
  apply history_append_Ok in H as [_ ->].
  destruct (decide (r' = r)) as [->|Hne].
  - exists (push_event ev p), info, queue, d. simpl.
    rewrite lookup_alter_eq, Hp. auto.
  - exists p, info, queue, d. simpl. rewrite lookup_alter_ne by exact Hne. auto.
Qed.

Lemma due_schedule_decision now r r' start timer s s' :
  queues_allocated s →
  _schedule_decision now r' start timer s = (Ok tt, s') →
  has_due_decision now s r → has_due_decision now s' r.
Proof.
  intros Halloc. rewrite schedule_decision_eq.
  destruct (objects s !! r') as [p'|]; [|discriminate].
  destruct (workflows s !! p_workflow p') as [info'|]; [|discriminate].
  destruct (scheduled_decisions s !! wf_category info') as [l|] eqn:Hl; [|discriminate].
  destruct (lists s !! l) as [q|] eqn:Hq; [|discriminate].
  case_bool_decide; intros [= <-] Hdue; [|exact Hdue].
  destruct Hdue as (p & info & queue & d & Hp & Hinfo & Hqueue & Hd & Hrest).
  unfold queue_of in Hqueue.
  destruct (scheduled_decisions s !! wf_category info) as [l0|] eqn:Hl0; [|discriminate].
  simpl in Hqueue.
  destruct (decide (wf_category info' = wf_category info)) as [E|E].
  - exists p, info, (sorted (start_key now) (q ++ [new_entry now r' start timer info'])), d.
    split; [exact Hp|]. split; [exact Hinfo|]. split.
    + unfold queue_of, enqueue. simpl. rewrite E, lookup_insert_eq. simpl.
      apply lookup_insert_eq.
    + split; [|exact Hrest]. rewrite sorted_Permutation. apply elem_of_app. left.
      rewrite E, Hl0 in Hl. injection Hl as <-. rewrite Hqueue in Hq.
      injection Hq as <-. exact Hd.
  - pose proof (Halloc _ _ Hl0) as Hlt. simpl in Hlt.
    destruct (decide (l = l0)) as [<-|El].
    + exists p, info, (q ++ [new_entry now r' start timer info']), d.
      split; [exact Hp|]. split; [exact Hinfo|]. split.
      * unfold queue_of, enqueue. simpl. rewrite lookup_insert_ne by exact E.
        rewrite Hl0. simpl. rewrite lookup_insert_ne by lia. apply lookup_insert_eq.
      * split; [|exact Hrest]. apply elem_of_app. left.
        rewrite Hqueue in Hq. injection Hq as <-. exact Hd.
    + exists p, info, queue, d.
      split; [exact Hp|]. split; [exact Hinfo|]. split; [|split; [exact Hd | exact Hrest]].
      unfold queue_of, enqueue. simpl. rewrite lookup_insert_ne by exact E.
      rewrite Hl0. simpl. rewrite lookup_insert_ne by lia.
      rewrite lookup_insert_ne by exact El. exact Hqueue.
Qed.

(** Process object [r] has been told of [ev]: the event is in its history
    and a decision is due for it. *)
Definition notified (now : Z) (ev : Event) (r : ref) (s : MemoryBackend) : Prop :=
  ev ∈ history_of s r ∧ has_due_decision now s r.

Definition timeout_event (a : ActivityExecution) : Event :=
  ActivityEvent (OfExecution a) (Some ActivityTimedOut).

Lemma history_of_append r r' ev ev' s u s' :
  history_append r' ev' s = (Ok u, s') →
  ev ∈ history_of s r → ev ∈ history_of s' r.
Proof.
  intros H Hev. apply history_append_Ok in H as [_ ->].
  rewrite history_of_push. case_decide as E; [|exact Hev].
  unfold history_of in Hev. destruct (objects s !! r) as [p|]; [|exact Hev].
  apply elem_of_app. left. exact Hev.
Qed.

(** The tail of both loops of the activity sweep: schedule a decision for
    the owner, then append the event to its history. *)
Lemma notify_Ok now r ev t t' :
  (_schedule_decision now r None None ;; history_append r ev) t = (Ok tt, t') →
  queues_allocated t →
  queues_allocated t'
  ∧ notified now ev r t'
  ∧ (∀ ev0 r0, notified now ev0 r0 t → notified now ev0 r0 t')
  ∧ (∀ r0, has_due_decision now t r0 → has_due_decision now t' r0).
Proof.
  intros H Halloc. apply bind_Ok in H as ([] & t1 & H1 & H2).
  pose proof (queues_allocated_schedule_decision _ _ _ _ _ _ H1 Halloc) as Halloc1.
  kept objects H1 as Eo.
  kept scheduled_decisions H2 as Es. kept next_loc H2 as En.
  split; [exact (queues_allocated_frame _ _ Es En Halloc1)|].
  split; [|split].
  - split.
    + pose proof H2 as H2'. apply history_append_Ok in H2' as [[p Hp] ->].
      rewrite history_of_push, decide_True, Hp by reflexivity.
      apply elem_of_app. right. left.
    + apply (due_history_append _ _ _ _ _ _ _ H2), (schedule_decision_due _ _ _ _ H1).
  - intros ev0 r0 [Hev Hdue]. split.
    + apply (history_of_append _ _ _ _ _ _ _ H2). unfold history_of in *.
      rewrite Eo. exact Hev.
    + apply (due_history_append _ _ _ _ _ _ _ H2),
        (due_schedule_decision _ _ _ _ _ _ _ Halloc H1), Hdue.
  - intros r0 Hdue.
    apply (due_history_append _ _ _ _ _ _ _ H2),
      (due_schedule_decision _ _ _ _ _ _ _ Halloc H1), Hdue.
Qed.

(** What a sweep keeps: the notifications made so far, and the due
    decisions. *)
Definition advances (now : Z) (t u : MemoryBackend) : Prop :=
  (∀ ev r, notified now ev r t → notified now ev r u)
  ∧ (∀ r, has_due_decision now t r → has_due_decision now u r).

Lemma advances_refl now t : advances now t t.
Proof. split; auto. Qed.

Lemma advances_trans now t u v : advances now t u → advances now u v → advances now t v.
Proof. intros [H1 H2] [H3 H4]. split; auto. Qed.

Lemma advances_frame now s s' :
  objects s' = objects s → workflows s' = workflows s →
  scheduled_decisions s' = scheduled_decisions s → lists s' = lists s →
  advances now s s'.
Proof.
  intros Eo Ew Es El. split.
  - intros ev r [Hev Hdue]. split; [|apply (due_frame now r s s'); assumption].
    unfold history_of. rewrite Eo. exact Hev.
  - intros r. apply due_frame; assumption.
Qed.

Lemma notify_advances now r ev t t' :
  (_schedule_decision now r None None ;; history_append r ev) t = (Ok tt, t') →
  queues_allocated t →
  queues_allocated t' ∧ advances now t t' ∧ notified now ev r t'
  ∧ scheduled_activities t' = scheduled_activities t
  ∧ running_activities t' = running_activities t.
Proof.
  intros H Halloc.
  destruct (notify_Ok now r ev t t' H Halloc) as (H1 & H2 & H3 & H4).
  split; [exact H1|]. split; [split; assumption|]. split; [exact H2|].
  apply bind_Ok in H as ([] & t1 & Hs & Hh).
  kept scheduled_activities Hs as E1. kept scheduled_activities Hh as E2.
  kept running_activities Hs as E3. kept running_activities Hh as E4.
  split; congruence.
Qed.

(** ** The activity sweep *)

Lemma expire_scheduled_removes now c e t t' :
  (deque_remove c e ;;
   _schedule_decision now (sa_process e) None None ;;
   history_append (sa_process e) (timeout_event (sa_execution e))) t = (Ok tt, t') →
  ∃ q q1, scheduled_activities t !! c = Some q ∧ py_remove e q = Some q1
          ∧ scheduled_activities t' = <[c := q1]> (scheduled_activities t).
Proof.
  intros H. apply bind_Ok in H as ([] & t1 & H1 & H).
  apply deque_remove_Ok in H1 as (q & q1 & Hq & Hrem & ->).
  apply bind_Ok in H as ([] & t2 & Hs & Hh).
  kept scheduled_activities Hs as E1. kept scheduled_activities Hh as E2.
  exists q, q1. split; [exact Hq|]. split; [exact Hrem|]. rewrite E2, E1. reflexivity.
Qed.

Lemma expire_scheduled_Ok now c e t t' :
  (deque_remove c e ;;
   _schedule_decision now (sa_process e) None None ;;
   history_append (sa_process e) (timeout_event (sa_execution e))) t = (Ok tt, t') →
  queues_allocated t →
  queues_allocated t' ∧ advances now t t'
  ∧ notified now (timeout_event (sa_execution e)) (sa_process e) t'
  ∧ running_activities t' = running_activities t.
Proof.
  intros H Halloc. apply bind_Ok in H as ([] & t1 & H1 & H).
  apply deque_remove_Ok in H1 as (q & q1 & Hq & Hrem & ->).
  destruct (notify_advances now _ _ _ _ H) as (Ha & Hadv & Hn & _ & Er).
  { exact Halloc. }
  split; [exact Ha|]. split; [|split; [exact Hn | exact Er]].
  apply (advances_trans now _ (set_scheduled_activities (insert c q1) t)); [|exact Hadv].
  apply advances_frame; reflexivity.
Qed.

Lemma expire_scheduled_loop now c es t t' :
  for_each es (λ expired,
    deque_remove c expired ;;
    _schedule_decision now (sa_process expired) None None ;;
    history_append (sa_process expired) (timeout_event (sa_execution expired))) t
  = (Ok tt, t') →
  queues_allocated t →
  (queues_allocated t' ∧ advances now t t'
   ∧ running_activities t' = running_activities t)
  ∧ ∀ e, e ∈ es → notified now (timeout_event (sa_execution e)) (sa_process e) t'.
Proof.
  intros H Halloc.
  apply (for_each_Ok_all
           (λ u, queues_allocated u ∧ advances now t u
                 ∧ running_activities u = running_activities t)
           (λ e u, notified now (timeout_event (sa_execution e)) (sa_process e) u)
           _ _ _ _ _ H).
  - split; [exact Halloc|]. split; [apply advances_refl | reflexivity].
  - intros e u u' _ (Hu & Hadv & Er) Hb.
    destruct (expire_scheduled_Ok now c e u u' Hb Hu) as (Hu' & Hadv' & Hn & Er').
    split; [|exact Hn]. split; [exact Hu'|].
    split; [exact (advances_trans _ _ _ _ Hadv Hadv') | congruence].
  - intros x e u u' _ (Hu & _) Hx Hb.
    destruct (expire_scheduled_Ok now c e u u' Hb Hu) as (_ & [Hadv' _] & _).
    apply Hadv', Hx.
Qed.

Lemma expire_queue_effect now (item : string * list ScheduledActivity) t t' :
  (let* queue := deque_of item.1 in
   for_each (filter (λ a, sa_expiration a < now) queue) (λ expired,
     deque_remove item.1 expired ;;
     _schedule_decision now (sa_process expired) None None ;;
     history_append (sa_process expired) (timeout_event (sa_execution expired)))) t
  = (Ok tt, t') →
  scheduled_activities t'
  = alter (filter (λ a, ¬ expired now a)) item.1 (scheduled_activities t).
Proof.
  intros H. apply bind_Ok in H as (q & t1 & H1 & H).
  rewrite deque_of_eq in H1.
  destruct (scheduled_activities t !! item.1) as [q0|] eqn:Hq; [|discriminate].
  injection H1 as <- <-.
  apply (remove_loop_filter (λ a, sa_expiration a < now) item.1 _
           (expire_scheduled_removes now item.1) t t' q0 Hq H).
Qed.

Lemma expire_scheduled_all now items t t' :
  NoDup items.*1 →
  (∀ item, item ∈ items → scheduled_activities t !! item.1 = Some item.2) →
  queues_allocated t →
  for_each items (λ item : string * list ScheduledActivity,
    let* queue := deque_of item.1 in
    for_each (filter (λ a, sa_expiration a < now) queue) (λ expired,
      deque_remove item.1 expired ;;
      _schedule_decision now (sa_process expired) None None ;;
      history_append (sa_process expired) (timeout_event (sa_execution expired)))) t
  = (Ok tt, t') →
  queues_allocated t' ∧ advances now t t'
  ∧ running_activities t' = running_activities t
  ∧ ∀ item a, item ∈ items → a ∈ item.2 → expired now a →
      notified now (timeout_event (sa_execution a)) (sa_process a) t'.
Proof.
  revert t. induction items as [|item items IH]; intros t Hnd Hin Halloc H.
  - apply ret_Ok in H as [_ ->]. split; [exact Halloc|].
    split; [apply advances_refl|]. split; [reflexivity|].
    intros item a Hitem. inversion Hitem.
  - rewrite fmap_cons in Hnd. apply NoDup_cons in Hnd as [Hfresh Hnd].
    apply for_each_cons_Ok in H as (t1 & Hbody & Hrest).
    pose proof (expire_queue_effect now item t t1 Hbody) as Eq.
    apply bind_Ok in Hbody as (q & t0 & H0 & Hloop).
    rewrite deque_of_eq, (Hin item (list_elem_of_here _ _)) in H0.
    injection H0 as <- <-.
    destruct (expire_scheduled_loop now _ _ _ _ Hloop Halloc)
      as ((Ha1 & Hadv1 & Er1) & Hn1).
    destruct (IH t1 Hnd) as (Ha' & Hadv' & Er' & Hn'); [|exact Ha1 | exact Hrest |].
    { intros item' Hitem'. rewrite Eq, lookup_alter_ne.
      - apply Hin. right. exact Hitem'.
      - intros E. apply Hfresh. rewrite E. apply list_elem_of_fmap.
        exists item'. split; [reflexivity | exact Hitem']. }
    split; [exact Ha'|]. split; [exact (advances_trans _ _ _ _ Hadv1 Hadv')|].
    split; [congruence|].
    intros item' a Hitem' Ha Hexp. apply elem_of_cons in Hitem' as [->|Hitem'].
    + destruct Hadv' as [Hkeep _]. apply Hkeep, Hn1.
      apply list_elem_of_filter. split; [exact Hexp | exact Ha].
    + apply (Hn' item' a Hitem' Ha Hexp).
Qed.

Lemma expire_running_Ok now (ia : ident * RunningActivity) t t' :
  (del_running_activity ia.1 ;;
   _schedule_decision now (ra_process ia.2) None None ;;
   history_append (ra_process ia.2) (timeout_event (ra_execution ia.2))) t
  = (Ok tt, t') →
  running_activities t' = delete ia.1 (running_activities t)
  ∧ scheduled_activities t' = scheduled_activities t
  ∧ (queues_allocated t →
     queues_allocated t' ∧ advances now t t'
     ∧ notified now (timeout_event (ra_execution ia.2)) (ra_process ia.2) t').
Proof.
  intros H. apply bind_Ok in H as ([] & t1 & H1 & H).
  apply del_running_activity_Ok in H1 as [_ ->].
  pose proof H as H'. apply bind_Ok in H' as ([] & t2 & Hs & Hh).
  kept scheduled_activities Hs as E1. kept scheduled_activities Hh as E2.
  kept running_activities Hs as E3. kept running_activities Hh as E4.
  split; [rewrite E4, E3; reflexivity|]. split; [rewrite E2, E1; reflexivity|].
  intros Halloc.
  destruct (notify_advances now _ _ _ _ H) as (Ha & Hadv & Hn & _).
  { exact Halloc. }
  split; [exact Ha|]. split; [|exact Hn].
  apply (advances_trans now _ (set_running_activities (delete ia.1) t)); [|exact Hadv].
  apply advances_frame; reflexivity.
Qed.

Lemma expire_running_all now (l : list (ident * RunningActivity)) t t' :
  for_each l (λ ia,
    del_running_activity ia.1 ;;
    _schedule_decision now (ra_process ia.2) None None ;;
    history_append (ra_process ia.2) (timeout_event (ra_execution ia.2))) t
  = (Ok tt, t') →
  queues_allocated t →
  (queues_allocated t' ∧ advances now t t'
   ∧ scheduled_activities t' = scheduled_activities t)
  ∧ ∀ ia, ia ∈ l →
      notified now (timeout_event (ra_execution ia.2)) (ra_process ia.2) t'.
Proof.
  intros H Halloc.
  apply (for_each_Ok_all
           (λ u, queues_allocated u ∧ advances now t u
                 ∧ scheduled_activities u = scheduled_activities t)
           (λ (ia : ident * RunningActivity) u,
              notified now (timeout_event (ra_execution ia.2)) (ra_process ia.2) u)
           _ _ _ _ _ H).
  - split; [exact Halloc|]. split; [apply advances_refl | reflexivity].
  - intros ia u u' _ (Hu & Hadv & Es) Hb.
    destruct (expire_running_Ok now ia u u' Hb) as (_ & Es' & Hrest).
    destruct (Hrest Hu) as (Hu' & Hadv' & Hn).
    split; [|exact Hn]. split; [exact Hu'|].
    split; [exact (advances_trans _ _ _ _ Hadv Hadv') | congruence].
  - intros x ia u u' _ (Hu & _) Hx Hb.
    destruct (expire_running_Ok now ia u u' Hb) as (_ & _ & Hrest).
    destruct (Hrest Hu) as (_ & [Hkeep _] & _). apply Hkeep, Hx.
Qed.

(** When the activity sweep returns: every queue has lost exactly its
    entries whose scheduled deadline has passed, the running table exactly
    the entries whose execution or heartbeat deadline has passed; the
    owner of each of them has [ActivityTimedOut] for that execution in
    its history and a decision due; and no process that had a decision
    due has lost it. *)
Theorem activity_sweep_times_out_what_is_overdue (now : Z) (s s' : MemoryBackend) :
  queues_allocated s →
  _time_out_activities now s = (Ok tt, s') →
  scheduled_activities s' = filter (λ a, ¬ expired now a) <$> scheduled_activities s
  ∧ running_activities s'
    = filter (λ ka, ¬ overdue_activity now ka.2) (running_activities s)
  ∧ (∀ c q a, scheduled_activities s !! c = Some q → a ∈ q → expired now a →
       notified now (timeout_event (sa_execution a)) (sa_process a) s')
  ∧ (∀ k a, running_activities s !! k = Some a → overdue_activity now a →
       notified now (timeout_event (ra_execution a)) (ra_process a) s')
  ∧ (∀ r, has_due_decision now s r → has_due_decision now s' r).
Proof.
  intros Halloc H. unfold _time_out_activities in H.
  apply bind_Ok in H as (items & s0 & H0 & H). apply gets_Ok in H0 as [-> ->].
  apply bind_Ok in H as ([] & s1 & H1 & H).
  apply bind_Ok in H as (running & s2 & H2 & H). apply gets_Ok in H2 as [-> ->].
  destruct (expire_scheduled_all now (map_to_list (scheduled_activities s)) s s1
              (NoDup_fst_map_to_list _)) as
    (Ha1 & Hadv1 & Er1 & Hn1); [|exact Halloc | exact H1 |].
  { intros [c q] Hitem. apply elem_of_map_to_list in Hitem. exact Hitem. }
  destruct (expire_running_all now _ s1 s' H Ha1) as ((Ha2 & Hadv2 & Es2) & Hn2).
  assert (scheduled_activities s1
          = filter (λ a, ¬ expired now a) <$> scheduled_activities s) as E1.
  { rewrite <- alter_all.
    apply (for_each_track scheduled_activities
             (λ (item : string * list ScheduledActivity) m,
                alter (filter (λ a, ¬ expired now a)) item.1 m) _ _ s tt s1 H1).
    intros item t t' _. apply expire_queue_effect. }
  assert (running_activities s'
          = filter (λ ka, ¬ overdue_activity now ka.2) (running_activities s1)) as E2.
  { rewrite <- (delete_filtered (λ ka : ident * RunningActivity,
                                   overdue_activity now ka.2)).
    apply (for_each_track running_activities
             (λ (ka : ident * RunningActivity) m, delete ka.1 m) _ _ s1 tt s' H).
    intros ka t t' _ Hb. apply (expire_running_Ok now ka t t' Hb). }
  split; [rewrite Es2; exact E1|]. split; [rewrite E2, Er1; reflexivity|].
  split; [|split].
  - intros c q a Hq Ha Hexp. destruct Hadv2 as [Hkeep _]. apply Hkeep.
    apply (Hn1 (c, q) a); [|exact Ha | exact Hexp].
    apply elem_of_map_to_list. exact Hq.
  - intros k a Hk Hover. apply (Hn2 (k, a)).
    apply list_elem_of_filter. split; [exact Hover|].
    apply elem_of_map_to_list. rewrite Er1. exact Hk.
  - intros r Hr. destruct Hadv1 as [_ Hd1]. destruct Hadv2 as [_ Hd2]. auto.
Qed.

Lemma activity_sweep_times_out_what_is_overdue_witness :
  scheduled_activities (run (_time_out_activities 2) activity_scheduled)
  = filter (λ a, ¬ expired 2 a) <$> scheduled_activities activity_scheduled
  ∧ notified 2 (timeout_event a1) 0%nat (run (_time_out_activities 2) activity_scheduled).
Proof.
  destruct (activity_sweep_times_out_what_is_overdue 2 activity_scheduled
              (run (_time_out_activities 2) activity_scheduled))
    as (E1 & _ & Hn & _).
  - apply (bool_decide_unpack (queues_allocated activity_scheduled)).
    vm_compute. exact I.
  - apply (exec_intro (_time_out_activities 2) activity_scheduled).
    vm_compute. reflexivity.
  - split; [exact E1|].
    apply (Hn "default"
             [ {| sa_execution := a1; sa_process := 0%nat; sa_expiration := 1 |} ]
             {| sa_execution := a1; sa_process := 0%nat; sa_expiration := 1 |}).
    + vm_compute. reflexivity.
    + left.
    + unfold expired. simpl. lia.
Defined.

(** ** The decision sweep *)

Lemma del_running_decision_Ok k s u s' :
  del_running_decision k s = (Ok u, s') →
  is_Some (running_decisions s !! k) ∧ s' = set_running_decisions (delete k) s.
Proof.
  intros H. apply bind_Ok in H as (o & s1 & H1 & H).
  apply gets_Ok in H1 as [-> ->].
  apply bind_Ok in H as (a & s2 & H2 & H).
  apply or_raise_Ok in H2 as [Ha ->].
  apply modify_Ok in H. split; [rewrite Ha; eauto | exact H].
Qed.

Lemma py_remove_other {A} `{EqDecision A} (x y : A) l l' :
  py_remove x l = Some l' → y ≠ x → y ∈ l → y ∈ l'.
Proof.
  intros H Hne Hy. apply py_remove_Permutation in H. rewrite H in Hy.
  apply elem_of_cons in Hy as [Hy|Hy]; [contradiction | exact Hy].
Qed.

Definition keeps_due (now : Z) (t u : MemoryBackend) : Prop :=
  ∀ r, has_due_decision now t r → has_due_decision now u r.

Lemma reschedule_running_Ok now (ia : ident * RunningDecision) t t' :
  (del_running_decision ia.1 ;;
   _schedule_decision now (rd_process ia.2) None None) t = (Ok tt, t') →
  running_decisions t' = delete ia.1 (running_decisions t)
  ∧ (queues_allocated t →
     queues_allocated t' ∧ keeps_due now t t'
     ∧ has_due_decision now t' (rd_process ia.2)).
Proof.
  intros H. apply bind_Ok in H as ([] & t1 & H1 & H).
  apply del_running_decision_Ok in H1 as [_ ->].
  kept running_decisions H as E. split; [rewrite E; reflexivity|].
  intros Halloc.
  assert (queues_allocated (set_running_decisions (delete ia.1) t)) as Halloc1
    by exact Halloc.
  split; [exact (queues_allocated_schedule_decision _ _ _ _ _ _ H Halloc1)|].
  split; [|exact (schedule_decision_due _ _ _ _ H)].
  intros r Hr. apply (due_schedule_decision _ _ _ _ _ _ _ Halloc1 H).
  apply (due_frame now r t); auto.
Qed.

Lemma reschedule_stale_Ok now l e t t' :
  (list_remove l e ;; _schedule_decision now (sd_process e) None None) t
  = (Ok tt, t') →
  queues_allocated t →
  queues_allocated t' ∧ keeps_due now t t'.
Proof.
  intros H Halloc. apply bind_Ok in H as ([] & t1 & H1 & H).
  apply list_remove_Ok in H1 as (q & q1 & Hq & Hrem & ->).
  assert (queues_allocated (set_lists (insert l q1) t)) as Halloc1 by exact Halloc.
  split; [exact (queues_allocated_schedule_decision _ _ _ _ _ _ H Halloc1)|].
  intros r Hr. destruct (decide (sd_process e = r)) as [<-|Hne].
  { exact (schedule_decision_due _ _ _ _ H). }
  apply (due_schedule_decision _ _ _ _ _ _ _ Halloc1 H).
  destruct Hr as (p & info & queue & d & Hp & Hinfo & Hqueue & Hd & Hr & Hdue).
  unfold queue_of in Hqueue.
  destruct (scheduled_decisions t !! wf_category info) as [l0|] eqn:Hl0; [|discriminate].
  simpl in Hqueue. destruct (decide (l = l0)) as [<-|El].
  - exists p, info, q1, d. split; [exact Hp|]. split; [exact Hinfo|]. split.
    + unfold queue_of. simpl. rewrite Hl0. simpl. apply lookup_insert_eq.
    + split; [|split; [exact Hr | exact Hdue]].
      rewrite Hq in Hqueue. injection Hqueue as <-.
      apply (py_remove_other e d q q1 Hrem); [|exact Hd].
      intros ->. exact (Hne Hr).
  - exists p, info, queue, d. split; [exact Hp|]. split; [exact Hinfo|]. split.
    + unfold queue_of. simpl. rewrite Hl0. simpl.
      rewrite lookup_insert_ne by exact El. exact Hqueue.
    + split; [exact Hd|]. split; [exact Hr | exact Hdue].
Qed.

(** When the decision sweep returns: the running table has lost exactly
    the decision tasks whose deadline has passed, the process of each of
    them has a decision due again, no process that had a decision due has
    lost it, and neither the histories nor the activity tables have
    changed: a decision task that times out leaves no event. *)
Theorem decision_sweep_reschedules_what_is_overdue (now : Z) (s s' : MemoryBackend) :
  queues_allocated s →
  _time_out_decisions now s = (Ok tt, s') →
  running_decisions s'
  = filter (λ kd, ¬ rd_expiration kd.2 < now) (running_decisions s)
  ∧ (∀ k d, running_decisions s !! k = Some d → rd_expiration d < now →
       has_due_decision now s' (rd_process d))
  ∧ (∀ r, has_due_decision now s r → has_due_decision now s' r)
  ∧ objects s' = objects s
  ∧ scheduled_activities s' = scheduled_activities s
  ∧ running_activities s' = running_activities s.
Proof.
  intros Halloc H.
  kept objects H as Eo.
  assert (scheduled_activities s' = scheduled_activities s) as Es.
  { refine (keeps_exec scheduled_activities _ _ _ _ _ H).
    apply keeps_time_out_decisions; auto with keeps. }
  assert (running_activities s' = running_activities s) as Er.
  { refine (keeps_exec running_activities _ _ _ _ _ H).
    apply keeps_time_out_decisions; auto with keeps. }
  unfold _time_out_decisions in H.
  apply bind_Ok in H as (running & s0 & H0 & H). apply gets_Ok in H0 as [-> ->].
  apply bind_Ok in H as ([] & s1 & H1 & H).
  apply bind_Ok in H as (items & s2 & H2 & H). apply gets_Ok in H2 as [-> ->].
  destruct (for_each_Ok_all
              (λ u, queues_allocated u ∧ keeps_due now s u)
              (λ (ia : ident * RunningDecision) u, has_due_decision now u (rd_process ia.2))
              _ _ _ _ _ H1) as ((Ha1 & Hk1) & Hn1).
  { split; [exact Halloc|]. intros r Hr. exact Hr. }
  { intros ia u u' _ (Hu & Hk) Hb.
    destruct (reschedule_running_Ok now ia u u' Hb) as (_ & Hrest).
    destruct (Hrest Hu) as (Hu' & Hk' & Hn).
    split; [|exact Hn]. split; [exact Hu'|]. intros r Hr. apply Hk', Hk, Hr. }
  { intros x ia u u' _ (Hu & _) Hx Hb.
    destruct (reschedule_running_Ok now ia u u' Hb) as (_ & Hrest).
    destruct (Hrest Hu) as (_ & Hk' & _). apply Hk', Hx. }
  assert (queues_allocated s' ∧ keeps_due now s1 s') as [_ Hk2].
  { apply (for_each_Ok_ind (λ u, queues_allocated u ∧ keeps_due now s1 u) _ _ _ _ _ H).
    - split; [exact Ha1|]. intros r Hr. exact Hr.
    - intros item u u' _ (Hu & Hk) Hb.
      apply bind_Ok in Hb as (queue & u0 & Hread & Hb).
      apply list_read_Ok in Hread as [_ ->].
      apply (for_each_Ok_ind (λ v, queues_allocated v ∧ keeps_due now s1 v) _ _ _ _ _ Hb).
      + split; assumption.
      + intros e v v' _ (Hv & Hkv) He.
        destruct (reschedule_stale_Ok now _ e v v' He Hv) as (Hv' & Hk').
        split; [exact Hv'|]. intros r Hr. apply Hk', Hkv, Hr. }
  assert (running_decisions s1
          = filter (λ kd, ¬ rd_expiration kd.2 < now) (running_decisions s)) as E1.
  { rewrite <- (delete_filtered (λ kd : ident * RunningDecision,
                                   rd_expiration kd.2 < now)).
    apply (for_each_track running_decisions
             (λ (kd : ident * RunningDecision) m, delete kd.1 m) _ _ s tt s1 H1).
    intros kd t t' _ Hb. apply (reschedule_running_Ok now kd t t' Hb). }
  assert (running_decisions s' = running_decisions s1) as E2.
  { apply (for_each_Ok_ind (λ u, running_decisions u = running_decisions s1) _ _ _ _ _ H);
      [reflexivity|].
    intros item u u' _ Hu Hb.
    apply bind_Ok in Hb as (queue & u0 & Hread & Hb).
    apply list_read_Ok in Hread as [_ ->].
    apply (for_each_Ok_ind (λ v, running_decisions v = running_decisions s1) _ _ _ _ _ Hb);
      [exact Hu|].
    intros e v v' _ Hv He. apply bind_Ok in He as ([] & v1 & He1 & He2).
    apply list_remove_Ok in He1 as (? & ? & _ & _ & ->).
    kept running_decisions He2 as E. rewrite E. exact Hv. }
  split; [rewrite E2; exact E1|]. split; [|split].
  - intros k d Hk Hexp. apply Hk2. apply (Hn1 (k, d)).
    apply list_elem_of_filter. split; [exact Hexp|].
    apply elem_of_map_to_list. exact Hk.
  - intros r Hr. apply Hk2, Hk1, Hr.
  - auto.
Qed.

Lemma decision_sweep_reschedules_what_is_overdue_witness :
  running_decisions (run (_time_out_decisions 4000) deciding) = ∅
  ∧ has_due_decision 4000 (run (_time_out_decisions 4000) deciding) 0%nat.
Proof.
  destruct (decision_sweep_reschedules_what_is_overdue 4000 deciding
              (run (_time_out_decisions 4000) deciding))
    as (E1 & Hn & _).
  - apply (bool_decide_unpack (queues_allocated deciding)). vm_compute. exact I.
  - apply (exec_intro (_time_out_decisions 4000) deciding). vm_compute. reflexivity.
  - split.
    + rewrite E1. vm_compute. reflexivity.
    + apply (Hn (Uuid 1) {| rd_process := 0%nat; rd_expiration := 3600 |}).
      * vm_compute. reflexivity.
      * simpl. lia.
Defined.

(** ** Every reachable state has its queues allocated *)

Lemma alloc_schedule_decision now r start timer :
  preserves queues_allocated (_schedule_decision now r start timer).
Proof.
  intros s Hs. unfold run.
  destruct (_schedule_decision now r start timer s) as [[[]|e] s'] eqn:E.
  - exact (queues_allocated_schedule_decision _ _ _ _ _ _ E Hs).
  - rewrite schedule_decision_eq in E.
    destruct (objects s !! r) as [p|]; [|injection E as _ <-; exact Hs].
    destruct (workflows s !! p_workflow p) as [info|]; [|injection E as _ <-; exact Hs].
    destruct (scheduled_decisions s !! wf_category info) as [l|];
      [|injection E as _ <-; exact Hs].
    destruct (lists s !! l) as [q|]; [|injection E as _ <-; exact Hs].
    case_bool_decide; discriminate.
Qed.

Lemma alloc_register_workflow name category timeout decision_timeout :
  preserves queues_allocated (register_workflow name category timeout decision_timeout).
Proof.
  intros s Hs. unfold run, register_workflow. rewrite bind_modify.
  unfold bind at 1, gets at 1. simpl.
  destruct (scheduled_decisions s !! category) as [l|] eqn:El; [exact Hs|].
  simpl. unfold queues_allocated. simpl. apply map_Forall_insert_2; [lia|].
  intros c l0 Hl0. specialize (Hs c l0 Hl0). simpl in Hs. lia.
Qed.

Create HintDb alloc discriminated.

Ltac alloc_leaf :=
  lazymatch goal with
  | |- preserves _ (modify _) =>
      apply preserves_modify; let H := fresh in intros ? H; exact H
  | |- preserves _ (_schedule_decision _ _ _ _) => apply alloc_schedule_decision
  | |- preserves _ _ => solve [eauto with alloc]
  end.

Ltac alloc := preserve_all; alloc_leaf.

Lemma alloc_history_append r ev : preserves queues_allocated (history_append r ev).
Proof. unfold history_append, the_process. alloc. Qed.

Lemma alloc_list_remove l d : preserves queues_allocated (list_remove l d).
Proof. unfold list_remove, list_read. alloc. Qed.

Lemma alloc_uuid4 : preserves queues_allocated uuid4.
Proof. unfold uuid4. alloc. Qed.

Lemma alloc_new_process p : preserves queues_allocated (new_process p).
Proof. unfold new_process. alloc. Qed.

#[export] Hint Resolve alloc_history_append alloc_list_remove alloc_uuid4
  alloc_new_process alloc_schedule_decision : alloc.

Lemma alloc_cancel_activity id : preserves queues_allocated (_cancel_activity id).
Proof. unfold _cancel_activity, deque_of, deque_remove, del_running_activity. alloc. Qed.

Lemma alloc_cancel_decision r : preserves queues_allocated (_cancel_decision r).
Proof. unfold _cancel_decision, list_read. alloc. Qed.

#[export] Hint Resolve alloc_cancel_activity alloc_cancel_decision : alloc.

Lemma alloc_cancel_process_internal cp p :
  (∀ c, preserves queues_allocated (cp c)) →
  preserves queues_allocated (_cancel_process_internal cp p).
Proof. intros H. unfold _cancel_process_internal, the_process. alloc. Qed.

Lemma alloc_cancel_process_rec fuel pid details :
  preserves queues_allocated (cancel_process_rec fuel pid details).
Proof.
  revert pid details. induction fuel as [|fuel IH]; intros pid details; simpl.
  - preserve.
  - unfold _managed_process. preserve_all; [alloc_leaf|].
    apply alloc_cancel_process_internal. intros c. apply IH.
Qed.

Lemma alloc_cancel_process pid details :
  preserves queues_allocated (cancel_process pid details).
Proof. intros s. apply alloc_cancel_process_rec. Qed.

#[export] Hint Resolve alloc_cancel_process_internal alloc_cancel_process : alloc.

Lemma alloc_time_out_activities now :
  preserves queues_allocated (_time_out_activities now).
Proof.
  unfold _time_out_activities, deque_of, deque_remove, del_running_activity. alloc.
Qed.

Lemma alloc_time_out_decisions now :
  preserves queues_allocated (_time_out_decisions now).
Proof. unfold _time_out_decisions, del_running_decision, list_read. alloc. Qed.

Lemma alloc_decision_effect now task r d :
  preserves queues_allocated (decision_effect now task r d).
Proof.
  unfold decision_effect, _schedule_activity, _activity_by_id, the_process,
    _managed_process.
  destruct d; alloc.
Qed.

#[export] Hint Resolve alloc_time_out_activities alloc_time_out_decisions
  alloc_decision_effect : alloc.

Lemma queues_allocated_step c s : queues_allocated s → queues_allocated (step c s).
Proof.
  destruct c; simpl.
  - apply alloc_register_workflow.
  - revert s. change (preserves queues_allocated
                        (register_activity name category scheduled_timeout
                           execution_timeout heartbeat_timeout)).
    unfold register_activity. alloc.
  - revert s. change (preserves queues_allocated (start_process now process)).
    unfold start_process. alloc.
  - revert s. change (preserves queues_allocated (signal_process now process_id signal data)).
    unfold signal_process, _managed_process. alloc.
  - apply alloc_cancel_process.
  - revert s. change (preserves queues_allocated (heartbeat_activity_task now task)).
    unfold heartbeat_activity_task. alloc.
  - revert s. change (preserves queues_allocated (complete_decision_task now task decisions)).
    unfold complete_decision_task, del_running_decision, apply_decision. alloc.
  - revert s. change (preserves queues_allocated (complete_activity_task now task result)).
    unfold complete_activity_task, del_running_activity. alloc.
  - unfold process_by_id, _managed_process. revert s.
    change (preserves queues_allocated
              (let* o := gets (λ s, running_processes s !! pid) in or_raise KeyError o)).
    alloc.
  - unfold processes. apply preserves_gets.
  - revert s. change (preserves queues_allocated (poll_activity_task now category)).
    unfold poll_activity_task, the_process. alloc.
  - revert s. change (preserves queues_allocated (poll_decision_task now category)).
    unfold poll_decision_task, the_process, list_read. alloc.
Qed.

Lemma reachable_queues_allocated s : reachable s → queues_allocated s.
Proof.
  induction 1 as [|c s _ IH]; [|apply queues_allocated_step, IH].
  apply (bool_decide_unpack (queues_allocated init)). vm_compute. exact I.
Qed.

(** * Completing and refreshing an activity task *)

Lemma expire_scheduled_running now c e t t' :
  (deque_remove c e ;;
   _schedule_decision now (sa_process e) None None ;;
   history_append (sa_process e) (timeout_event (sa_execution e))) t = (Ok tt, t') →
  running_activities t' = running_activities t.
Proof.
  intros H. apply bind_Ok in H as ([] & t1 & H1 & H).
  apply deque_remove_Ok in H1 as (q & q1 & _ & _ & ->).
  apply bind_Ok in H as ([] & t2 & Hs & Hh).
  kept running_activities Hs as E1. kept running_activities Hh as E2.
  rewrite E2, E1. reflexivity.
Qed.

(** The tables after the activity sweep. *)
Lemma activity_sweep_tables now s s' :
  _time_out_activities now s = (Ok tt, s') →
  scheduled_activities s' = filter (λ a, ¬ expired now a) <$> scheduled_activities s
  ∧ running_activities s'
    = filter (λ ka, ¬ overdue_activity now ka.2) (running_activities s).
Proof.
  intros H. unfold _time_out_activities in H.
  apply bind_Ok in H as (items & s0 & H0 & H). apply gets_Ok in H0 as [-> ->].
  apply bind_Ok in H as ([] & s1 & H1 & H).
  apply bind_Ok in H as (running & s2 & H2 & H). apply gets_Ok in H2 as [-> ->].
  assert (scheduled_activities s1
          = filter (λ a, ¬ expired now a) <$> scheduled_activities s) as E1.
  { rewrite <- alter_all.
    apply (for_each_track scheduled_activities
             (λ (item : string * list ScheduledActivity) m,
                alter (filter (λ a, ¬ expired now a)) item.1 m) _ _ s tt s1 H1).
    intros item t t' _. apply expire_queue_effect. }
  assert (running_activities s'
          = filter (λ ka, ¬ overdue_activity now ka.2) (running_activities s1)) as E2.
  { rewrite <- (delete_filtered (λ ka : ident * RunningActivity,
                                   overdue_activity now ka.2)).
    apply (for_each_track running_activities
             (λ (ka : ident * RunningActivity) m, delete ka.1 m) _ _ s1 tt s' H).
    intros ka t t' _ Hb. apply (expire_running_Ok now ka t t' Hb). }
  assert (running_activities s1 = running_activities s) as E3.
  { apply (for_each_Ok_ind (λ u, running_activities u = running_activities s) _ _ _ _ _ H1);
      [reflexivity|].
    intros item u u' _ Hu Hb. apply bind_Ok in Hb as (q & u0 & Hq & Hb).
    rewrite deque_of_eq in Hq. destruct (scheduled_activities u !! item.1); [|discriminate].
    injection Hq as <- <-.
    apply (for_each_Ok_ind (λ v, running_activities v = running_activities s) _ _ _ _ _ Hb);
      [exact Hu|].
    intros e v v' _ Hv He. rewrite (expire_scheduled_running now _ e v v' He). exact Hv. }
  assert (scheduled_activities s' = scheduled_activities s1) as E4.
  { apply (for_each_Ok_ind (λ u, scheduled_activities u = scheduled_activities s1)
             _ _ _ _ _ H); [reflexivity|].
    intros ka u u' _ Hu Hb.
    destruct (expire_running_Ok now ka u u' Hb) as (_ & E & _). congruence. }
  split; [rewrite E4; exact E1 | rewrite E2, E3; reflexivity].
Qed.

(** A run id survives the activity sweep exactly when it is known and
    neither of its deadlines has passed. *)
Lemma running_after_sweep now s s1 k :
  _time_out_activities now s = (Ok tt, s1) →
  (∀ a, running_activities s !! k = Some a → ¬ overdue_activity now a →
        running_activities s1 !! k = Some a)
  ∧ ((∀ a, running_activities s !! k = Some a → overdue_activity now a) →
     running_activities s1 !! k = None).
Proof.
  intros H. destruct (activity_sweep_tables now s s1 H) as [_ E]. rewrite E. split.
  - intros a Ha Hlive. apply map_lookup_filter_Some. split; [exact Ha | exact Hlive].
  - intros Hdead. apply map_lookup_filter_None.
    destruct (running_activities s !! k) as [a|] eqn:Ha; [right | left; reflexivity].
    intros a' [= <-] Hlive. apply Hlive, Hdead. reflexivity.
Qed.

(** [complete_activity_task], given that the sweep at its entry returns.
    For a run id that is unknown, or whose execution or heartbeat deadline
    has passed, it raises [UnknownActivityException] and leaves the state
    as the sweep left it.  For a live run id it succeeds whenever the
    owner's workflow is registered with a bound queue; when it succeeds the
    run id is consumed, the result is the last event of the owner's
    history, the owner has a decision due, and the scheduled queues are as
    the sweep left them. *)
Theorem complete_activity_task_consumes_the_run_id (now : Z) (task : ActivityTask)
    (result : option ActivityResult) (s s1 : MemoryBackend) :
  _time_out_activities now s = (Ok tt, s1) →
  ((∀ a, running_activities s !! at_run_id task = Some a → overdue_activity now a) →
   complete_activity_task now task result s = (Raise UnknownActivityException, s1))
  ∧ (∀ a, running_activities s !! at_run_id task = Some a →
          ¬ overdue_activity now a →
      (∀ p info l q,
         objects s1 !! ra_process a = Some p →
         workflows s1 !! p_workflow p = Some info →
         scheduled_decisions s1 !! wf_category info = Some l →
         lists s1 !! l = Some q →
         outcome (complete_activity_task now task result) s = Ok tt)
      ∧ (∀ s', complete_activity_task now task result s = (Ok tt, s') →
           running_activities s' = delete (at_run_id task) (running_activities s1)
           ∧ history_of s' (ra_process a)
             = history_of s1 (ra_process a)
               ++ [ActivityEvent (OfExecution (ra_execution a)) result]
           ∧ has_due_decision now s' (ra_process a)
           ∧ scheduled_activities s' = scheduled_activities s1)).
Proof.
  intros Hsweep. destruct (running_after_sweep now s s1 (at_run_id task) Hsweep)
    as [Hlive Hdead].
  split.
  - intros Hd. unfold complete_activity_task.
    rewrite (bind_Ok_intro _ _ _ _ _ Hsweep). unfold bind, gets.
    rewrite (Hdead Hd). reflexivity.
  - intros a Ha Hnot. specialize (Hlive a Ha Hnot).
    assert (complete_activity_task now task result s
            = (history_append (ra_process a)
                 (ActivityEvent (OfExecution (ra_execution a)) result) ;;
               _schedule_decision now (ra_process a) None None)
                (set_running_activities (delete (at_run_id task)) s1)) as Hred.
    { unfold complete_activity_task.
      rewrite (bind_Ok_intro _ _ _ _ _ Hsweep).
      unfold bind at 1, gets at 1. rewrite Hlive. simpl.
      unfold bind at 1. unfold ret at 1.
      rewrite (bind_Ok_intro _ _ _ _ _
                 (del_running_activity_eq (at_run_id task) s1 (mk_is_Some _ _ Hlive))).
      reflexivity. }
    split.
    + intros p info l q Hp Hinfo Hl Hq. unfold outcome. rewrite Hred.
      rewrite (bind_Ok_intro _ _ _ _ _
                 (history_append_eq (ra_process a) _
                    (set_running_activities (delete (at_run_id task)) s1) p Hp)).
      rewrite schedule_decision_eq. simpl.
      rewrite lookup_alter_eq, Hp. simpl. rewrite Hinfo, Hl, Hq.
      case_bool_decide; reflexivity.
    + intros s' H. rewrite Hred in H.
      apply bind_Ok in H as ([] & t1 & Hh & Hs).
      pose proof (schedule_decision_due _ _ _ _ Hs) as Hdue.
      kept objects Hs as Eo. kept running_activities Hs as Er.
      kept scheduled_activities Hs as Es.
      apply history_append_Ok in Hh as [[p Hp] ->]. simpl in *.
      split; [exact Er|]. split; [|split; [exact Hdue | exact Es]].
      unfold history_of. rewrite Eo. simpl.
      rewrite lookup_alter_eq, Hp. reflexivity.
Qed.

Lemma complete_activity_task_consumes_the_run_id_witness :
  outcome (complete_activity_task 10 a1_task (Some (ActivityCompleted (Some "r")))) working
  = Ok tt
  ∧ complete_activity_task 100 a1_task None working
    = (Raise UnknownActivityException, run (_time_out_activities 100) working).
Proof.
  destruct (complete_activity_task_consumes_the_run_id 10 a1_task
              (Some (ActivityCompleted (Some "r"))) working
              (run (_time_out_activities 10) working)) as [_ Hlive].
  { apply (exec_intro (_time_out_activities 10) working). vm_compute. reflexivity. }
  destruct (complete_activity_task_consumes_the_run_id 100 a1_task None working
              (run (_time_out_activities 100) working)) as [Hdead _].
  { apply (exec_intro (_time_out_activities 100) working). vm_compute. reflexivity. }
  split.
  - destruct (Hlive {| ra_execution := a1; ra_process := 0%nat; ra_expiration := 60;
                       ra_heartbeat := 30 |}) as [Hok _].
    + vm_compute. reflexivity.
    + unfold overdue_activity. simpl. lia.
    + apply (Hok {| p_id := Uuid 0; p_workflow := "wf"; p_input := Some "x";
                    p_tags := []; p_parent := None;
                    history := [ProcessStartedEvent; DecisionStartedEvent;
                                DecisionEvent (ScheduleActivity "act" "a1" (Some "y") None);
                                ActivityStartedEvent a1] |}
                 {| wf_category := "default"; wf_timeout := 3600;
                    wf_decision_timeout := 60 |} 1%nat []);
        vm_compute; reflexivity.
  - apply Hdead. intros a Ha. vm_compute in Ha. injection Ha as <-.
    left. simpl. lia.
Defined.

(** [heartbeat_activity_task], given that the sweep at its entry returns:
    for a live run id of a registered activity it replaces the heartbeat
    deadline by [now] plus the heartbeat timeout and changes nothing else
    (the execution deadline stays); for a run id that is unknown or whose
    deadline has passed it raises [TypeError] and leaves the state as the
    sweep left it. *)
Theorem heartbeat_moves_only_the_heartbeat_deadline (now : Z) (task : ActivityTask)
    (s s1 : MemoryBackend) :
  _time_out_activities now s = (Ok tt, s1) →
  (∀ a info,
     running_activities s !! at_run_id task = Some a →
     ¬ overdue_activity now a →
     activities s !! ae_activity (ra_execution a) = Some info →
     heartbeat_activity_task now task s
     = (Ok tt,
        set_running_activities
          (insert (at_run_id task)
             {| ra_execution := ra_execution a; ra_process := ra_process a;
                ra_expiration := ra_expiration a;
                ra_heartbeat := now + act_heartbeat_timeout info |}) s1))
  ∧ ((∀ a, running_activities s !! at_run_id task = Some a → overdue_activity now a) →
     heartbeat_activity_task now task s = (Raise TypeError, s1)).
Proof.
  intros Hsweep. destruct (running_after_sweep now s s1 (at_run_id task) Hsweep)
    as [Hlive Hdead].
  assert (activities s1 = activities s) as Ea.
  { refine (keeps_exec activities _ _ _ _ _ Hsweep).
    apply keeps_time_out_activities; auto with keeps. }
  split.
  - intros a info Ha Hnot Hinfo. unfold heartbeat_activity_task.
    rewrite (bind_Ok_intro _ _ _ _ _ Hsweep). unfold bind, gets, or_raise, ret, modify.
    rewrite (Hlive a Ha Hnot), Ea, Hinfo. reflexivity.
  - intros Hd. unfold heartbeat_activity_task.
    rewrite (bind_Ok_intro _ _ _ _ _ Hsweep). unfold bind, gets.
    rewrite (Hdead Hd). reflexivity.
Qed.

Lemma heartbeat_moves_only_the_heartbeat_deadline_witness :
  running_activities (run (heartbeat_activity_task 10 a1_task) working) !! Uuid 2
  = Some {| ra_execution := a1; ra_process := 0%nat; ra_expiration := 60;
            ra_heartbeat := 40 |}
  ∧ outcome (heartbeat_activity_task 31 a1_task) working = Raise TypeError.
Proof.
  destruct (heartbeat_moves_only_the_heartbeat_deadline 10 a1_task working
              (run (_time_out_activities 10) working)) as [Hlive _].
  { apply (exec_intro (_time_out_activities 10) working). vm_compute. reflexivity. }
  destruct (heartbeat_moves_only_the_heartbeat_deadline 31 a1_task working
              (run (_time_out_activities 31) working)) as [_ Hdead].
  { apply (exec_intro (_time_out_activities 31) working). vm_compute. reflexivity. }
  split.
  - unfold run at 1.
    rewrite (Hlive {| ra_execution := a1; ra_process := 0%nat; ra_expiration := 60;
                      ra_heartbeat := 30 |}
               {| act_category := "default"; act_scheduled_timeout := 1;
                  act_execution_timeout := 60; act_heartbeat_timeout := 30 |}).
    + unfold set_running_activities. cbn [running_activities]. apply lookup_insert_eq.
    + vm_compute. reflexivity.
    + unfold overdue_activity. simpl. lia.
    + vm_compute. reflexivity.
  - unfold outcome. rewrite Hdead; [reflexivity|].
    intros a Ha. vm_compute in Ha. injection Ha as <-. right. simpl. lia.
Defined.

(** * Exceptions a method cannot raise *)

Definition never {A} (e : exn) (m : M A) : Prop := ∀ s, outcome m s ≠ Raise e.

Lemma never_ret {A} e (a : A) : never e (ret a).
Proof. intros s. discriminate. Qed.

Lemma never_raise {A} e e' : e' ≠ e → never e (raise e' : M A).
Proof. intros H s. unfold outcome, raise. simpl. congruence. Qed.

Lemma never_gets {A} e (f : MemoryBackend → A) : never e (gets f).
Proof. intros s. discriminate. Qed.

Lemma never_modify e f : never e (modify f).
Proof. intros s. discriminate. Qed.

Lemma never_or_raise {A} e e' (o : option A) : e' ≠ e → never e (or_raise e' o).
Proof. intros H. destruct o; [apply never_ret | apply never_raise, H]. Qed.

Lemma never_bind {A B} e (m : M A) (k : A → M B) :
  never e m → (∀ a, never e (k a)) → never e (bind m k).
Proof.
  intros Hm Hk s. rewrite outcome_bind. specialize (Hm s).
  destruct (outcome m s) as [a|e0]; [apply Hk | congruence].
Qed.

Lemma never_for_each {A} e (l : list A) (body : A → M unit) :
  (∀ x, never e (body x)) → never e (for_each l body).
Proof.
  intros H. induction l as [|x l IH]; simpl; [apply never_ret|].
  apply never_bind; [apply H | intros _; exact IH].
Qed.

Ltac never_step :=
  lazymatch goal with
  | |- never _ (bind _ _) => apply never_bind; [|intros ?]
  | |- never _ (ret _) => apply never_ret
  | |- never _ (raise _) => apply never_raise; discriminate
  | |- never _ (gets _) => apply never_gets
  | |- never _ (modify _) => apply never_modify
  | |- never _ (or_raise _ _) => apply never_or_raise; discriminate
  | |- never _ (for_each _ _) => apply never_for_each; intros ?
  | |- never _ (match ?x with _ => _ end) => destruct x
  | |- never _ (if ?x then _ else _) => destruct x
  | |- never _ (let _ := _ in _) => cbv zeta
  end.

Lemma history_append_not_unknown_activity r ev :
  never UnknownActivityException (history_append r ev).
Proof. unfold history_append, the_process. repeat never_step. Qed.

Lemma schedule_decision_not_unknown_activity now r start timer :
  never UnknownActivityException (_schedule_decision now r start timer).
Proof.
  unfold _schedule_decision, the_process, list_append, list_read, new_list.
  repeat never_step.
Qed.

Lemma time_out_activities_not_unknown_activity now :
  never UnknownActivityException (_time_out_activities now).
Proof.
  unfold _time_out_activities, deque_of, deque_remove, del_running_activity.
  repeat first [ never_step | apply schedule_decision_not_unknown_activity
               | apply history_append_not_unknown_activity ].
Qed.

(** The rest of [complete_activity_task] once the sweep has returned and
    the run id has been found. *)
Lemma complete_activity_task_live now task result s s1 a :
  _time_out_activities now s = (Ok tt, s1) →
  running_activities s1 !! at_run_id task = Some a →
  complete_activity_task now task result s
  = (history_append (ra_process a)
       (ActivityEvent (OfExecution (ra_execution a)) result) ;;
     _schedule_decision now (ra_process a) None None)
      (set_running_activities (delete (at_run_id task)) s1).
Proof.
  intros Hsweep Hlive. unfold complete_activity_task.
  rewrite (bind_Ok_intro _ _ _ _ _ Hsweep).
  unfold bind at 1, gets at 1. rewrite Hlive. simpl.
  unfold bind at 1. unfold ret at 1.
  rewrite (bind_Ok_intro _ _ _ _ _
             (del_running_activity_eq (at_run_id task) s1 (mk_is_Some _ _ Hlive))).
  reflexivity.
Qed.

(** * Cancellation and the tasks already handed out *)

(** C5 (amended): [cancel_process] never touches the running-activities
    table, so the run id of a task that was already dispatched stays
    known after the cancellation.  A later [complete_activity_task] with
    a run id that was in the table before the cancellation, and whose
    deadlines have not passed, is therefore never rejected with
    [UnknownActivityException]; and when it returns it has changed the
    state: the run id is consumed and the result is the last event of the
    history of the owner, cancelled or not. *)
Theorem cancel_process_keeps_running_activities (pid : ident) (details : payload)
    (s : MemoryBackend) :
  running_activities (run (cancel_process pid details) s) = running_activities s
  ∧ ∀ now task result a,
      running_activities s !! at_run_id task = Some a →
      ¬ overdue_activity now a →
      outcome (complete_activity_task now task result) (run (cancel_process pid details) s)
      ≠ Raise UnknownActivityException
      ∧ ∀ s',
          complete_activity_task now task result (run (cancel_process pid details) s)
          = (Ok tt, s') →
          running_activities s' !! at_run_id task = None
          ∧ last (history_of s' (ra_process a))
            = Some (ActivityEvent (OfExecution (ra_execution a)) result).
Proof.
  assert (running_activities (run (cancel_process pid details) s) = running_activities s)
    as Ekeep by (apply (keeps_cancel_process running_activities); auto with keeps).
  split; [exact Ekeep|].
  intros now task result a Ha Hlive. rewrite <- Ekeep in Ha.
  set (c := run (cancel_process pid details) s) in *. clearbody c.
  destruct (_time_out_activities now c) as [[[]|e] s1] eqn:Hsweep.
  - destruct (running_after_sweep now c s1 (at_run_id task) Hsweep) as [Hkept _].
    specialize (Hkept a Ha Hlive).
    unfold outcome. rewrite (complete_activity_task_live now task result c s1 a Hsweep Hkept).
    split.
    + apply (never_bind UnknownActivityException);
        [apply history_append_not_unknown_activity|].
      intros _. apply schedule_decision_not_unknown_activity.
    + intros s' H. apply bind_Ok in H as ([] & t1 & Hh & Hs).
      kept objects Hs as Eo. kept running_activities Hs as Er.
      apply history_append_Ok in Hh as [[p Hp] ->]. simpl in *.
      split; [rewrite Er; apply lookup_delete_eq|].
      unfold history_of. rewrite Eo. simpl. rewrite lookup_alter_eq, Hp. simpl.
      apply last_snoc.
  - assert (complete_activity_task now task result c = (Raise e, s1)) as E.
    { unfold complete_activity_task. apply bind_Raise_intro. exact Hsweep. }
    split.
    + unfold outcome. rewrite E. simpl. intros [= ->].
      apply (time_out_activities_not_unknown_activity now c).
      unfold outcome. rewrite Hsweep. reflexivity.
    + intros s' H. rewrite E in H. discriminate.
Qed.

Lemma cancel_process_keeps_running_activities_witness :
  running_activities (run (cancel_process (Uuid 0) None) working) !! Uuid 2
  = running_activities working !! Uuid 2
  ∧ outcome (complete_activity_task 10 a1_task (Some (ActivityCompleted (Some "z"))))
            (run (cancel_process (Uuid 0) None) working)
    ≠ Raise UnknownActivityException.
Proof.
  destruct (cancel_process_keeps_running_activities (Uuid 0) None working) as [E H].
  split; [rewrite E; reflexivity|].
  apply (H 10 a1_task (Some (ActivityCompleted (Some "z")))
           {| ra_execution := a1; ra_process := 0%nat; ra_expiration := 60;
              ra_heartbeat := 30 |}).
  - vm_compute. reflexivity.
  - unfold overdue_activity. cbn [ra_expiration ra_heartbeat]. lia.
Defined.

(** * The delivery of timers *)

Lemma list_remove_eq l d s q q' :
  lists s !! l = Some q → py_remove d q = Some q' →
  list_remove l d s = (Ok tt, set_lists (insert l q') s).
Proof.
  intros Hq Hq'. unfold list_remove, list_read, bind, gets, or_raise, ret, modify.
  rewrite Hq. simpl. rewrite Hq'. reflexivity.
Qed.

(** The [TimerEvent]s that the delivery of entry [d] appends to the
    history of process object [r]. *)
Definition delivered_timer (r : ref) (d : ScheduledDecision) : list Event :=
  match sd_start d with
  | Some _ => if decide (sd_process d = r) then [TimerEvent (sd_timer d)] else []
  | None => []
  end.

(** C7 (amended): a [Timer] decision applied by [complete_decision_task]
    appends no [TimerEvent] (whatever the batch, the timer events of every
    process are the same after the call); the [Timer] branch appends only
    the [DecisionEvent] and inserts the timer entry, with start now +
    delay.  A [poll_decision_task] that returns appends a [TimerEvent]
    exactly when the entry it hands out carries a start time: then that
    start is not later than now, [TimerEvent(timer)] is appended to the
    history of the entry's process and to no other, and the entry is
    removed from the queue by the same call, so it cannot be delivered
    again; a poll that hands out an entry without a start, or none,
    appends no [TimerEvent].  The poll does return, with the event
    appended, whenever the sweeps return and the first deliverable entry
    belongs to a process of a registered workflow.  While every entry of
    the queue starts in the future the poll returns none. *)
Theorem timer_event_is_appended_by_the_poll (now : Z) (r : ref) (s : MemoryBackend) :
  heap_fresh s →
  let swept := run (_time_out_activities now ;; _time_out_decisions now) s in
  (∀ task decisions,
     timer_events (run (complete_decision_task now task decisions) s) r
     = timer_events s r)
  ∧ (∀ task delay s',
       apply_decision now task r (Timer delay) s = (Ok tt, s') →
       history_of s' r = history_of s r ++ [DecisionEvent (Timer delay)]
       ∧ ∃ category queue,
           queue_of s' category = Some queue
           ∧ {| sd_process := r; sd_start := Some (now + delay);
                sd_expiration := None; sd_timer := Some (Timer delay) |} ∈ queue)
  ∧ (∀ category res s',
       poll_decision_task now category s = (Ok res, s') →
       ∃ queue,
         queue_of swept category = Some queue
         ∧ match head (filter (deliverable now) queue) with
           | None => res = None ∧ s' = swept ∧ timer_events s' r = timer_events s r
           | Some d =>
               res = Some {| dt_process := sd_process d;
                             dt_run_id := Uuid (next_uuid swept) |}
               ∧ queue_of s' category = py_remove d queue
               ∧ timer_events s' r = timer_events s r ++ delivered_timer r d
               ∧ (∀ t, sd_start d = Some t → t ≤ now)
           end)
  ∧ (∀ category queue d t p info,
       outcome (_time_out_activities now ;; _time_out_decisions now) s = Ok tt →
       queue_of swept category = Some queue →
       head (filter (deliverable now) queue) = Some d →
       sd_start d = Some t →
       sd_process d = r →
       objects swept !! r = Some p →
       workflows swept !! p_workflow p = Some info →
       outcome (poll_decision_task now category) s
       = Ok (Some {| dt_process := r; dt_run_id := Uuid (next_uuid swept) |})
       ∧ timer_events (run (poll_decision_task now category) s) r
         = timer_events s r ++ [TimerEvent (sd_timer d)])
  ∧ (∀ category queue,
       outcome (_time_out_activities now ;; _time_out_decisions now) s = Ok tt →
       queue_of swept category = Some queue →
       (∀ d, d ∈ queue → ∃ t, sd_start d = Some t ∧ now < t) →
       poll_decision_task now category s = (Ok None, swept)).
Proof.
  intros Hfresh swept.
  assert (∀ category res s',
            poll_decision_task now category s = (Ok res, s') →
            ∃ queue,
              queue_of swept category = Some queue
              ∧ match head (filter (deliverable now) queue) with
                | None => res = None ∧ s' = swept ∧ timer_events s' r = timer_events s r
                | Some d =>
                    res = Some {| dt_process := sd_process d;
                                  dt_run_id := Uuid (next_uuid swept) |}
                    ∧ queue_of s' category = py_remove d queue
                    ∧ timer_events s' r = timer_events s r ++ delivered_timer r d
                    ∧ (∀ t, sd_start d = Some t → t ≤ now)
                end) as Hpoll.
  { intros category res s' H.
    apply poll_decision_task_Ok in H as (s1 & s2 & l & queue & H1 & H2 & Hl & Hq & Hd).
    assert (timers_are r (timer_events s r) s2) as [_ Ht2].
    { apply (preserves_exec _ _ _ _ _ (timers_time_out_decisions r _ now) H2).
      apply (preserves_exec _ _ _ _ _ (timers_time_out_activities r _ now) H1).
      split; [exact Hfresh | reflexivity]. }
    assert (swept = s2) as Hswept.
    { unfold swept, run. rewrite (bind_Ok_intro _ _ _ _ _ H1), H2. reflexivity. }
    rewrite Hswept. exists queue.
    split; [unfold queue_of; rewrite Hl; simpl; exact Hq|].
    unfold delivery in Hd.
    destruct (head (filter (deliverable now) queue)) as [d|] eqn:Hhead.
    - destruct Hd as (q' & info & p & Hrem & -> & Hlists & Hsched & _ & Hobj & Hp & _).
      apply head_filter_Some in Hhead as [[Hstart _] Hin].
      split; [reflexivity|]. split.
      { unfold queue_of. rewrite Hsched, Hl. simpl. rewrite Hlists, Hrem.
        apply lookup_insert_eq. }
      split.
      + change (timer_events s2 r) with (timer_events_in (objects s2) r) in Ht2.
        change (timer_events s' r) with (timer_events_in (objects s') r).
        rewrite Hobj, timer_events_push_other by (right; intros []).
        unfold delivered_timer. destruct (sd_start d) as [t|] eqn:Est.
        * case_decide as Hr.
          -- rewrite Hr in *.
             rewrite timer_events_push_timer, Ht2 by (eexists; exact Hp). reflexivity.
          -- rewrite timer_events_push_other by (left; exact Hr).
             rewrite app_nil_r. exact Ht2.
        * rewrite app_nil_r. exact Ht2.
      + intros t Et. rewrite Et in Hstart. exact Hstart.
    - destruct Hd as [-> ->]. split; [reflexivity|]. split; [reflexivity | exact Ht2]. }
  split; [|split; [|split; [exact Hpoll|split]]].
  - intros task decisions.
    apply (timers_complete_decision_task r (timer_events s r) now task decisions s).
    split; [exact Hfresh | reflexivity].
  - intros task delay s' H. unfold apply_decision in H.
    apply bind_Ok in H as ([] & s1 & H1 & H).
    apply history_append_Ok in H1 as [[p Hp] ->].
    unfold decision_effect in H. rewrite schedule_decision_eq in H. simpl in H.
    rewrite lookup_alter, decide_True, Hp in H by reflexivity. simpl in H.
    destruct (workflows s !! p_workflow p) as [info|]; [|discriminate].
    destruct (scheduled_decisions s !! wf_category info) as [l|]; [|discriminate].
    destruct (lists s !! l) as [q|]; [|discriminate].
    injection H as <-. split.
    + unfold history_of. simpl. rewrite lookup_alter, decide_True, Hp by reflexivity.
      reflexivity.
    + exists (wf_category info), (sorted (start_key now)
                (q ++ [new_entry now r (Some (now + delay)) (Some (Timer delay)) info])).
      split.
      * unfold queue_of, enqueue. simpl. rewrite lookup_insert_eq. simpl.
        apply lookup_insert_eq.
      * rewrite sorted_Permutation. apply elem_of_app. right. left.
  - intros category queue d t p info Hok Hqueue Hhead Hstart Hr Hp Hinfo.
    assert (outcome (poll_decision_task now category) s
            = Ok (Some {| dt_process := r; dt_run_id := Uuid (next_uuid swept) |})) as E.
    { unfold outcome, poll_decision_task.
      change (_time_out_activities now ;; _time_out_decisions now ;; ?k)
        with (bind (_time_out_activities now) (λ _, bind (_time_out_decisions now) (λ _, k))).
      rewrite <- (bind_assoc (_time_out_activities now) (λ _, _time_out_decisions now)).
      rewrite (bind_Ok_intro _ _ s tt swept) by (unfold swept; rewrite M_eta, Hok; reflexivity).
      clearbody swept. apply queue_of_lookup in Hqueue as (l & Hl & Hq).
      unfold bind at 1. unfold bind at 1, gets at 1. rewrite Hl. simpl.
      unfold bind at 1. unfold list_read, bind at 1, gets at 1. rewrite Hq. simpl.
      rewrite Hhead, Hstart, Hr.
      apply head_filter_Some in Hhead as [_ Hin].
      destruct (py_remove_elem_of d queue Hin) as [q' Hrem].
      rewrite (bind_Ok_intro _ _ _ _ _ (history_append_eq r _ swept p Hp)).
      rewrite (bind_Ok_intro _ _ _ _ _
                 (list_remove_eq l d
                    (set_objects (alter (push_event (TimerEvent (sd_timer d))) r) swept)
                    queue q' Hq Hrem)).
      rewrite (bind_Ok_intro _ _ _ _ _ (uuid4_eq _)).
      unfold bind at 1. rewrite the_process_eq. simpl.
      rewrite lookup_alter_eq, Hp. simpl.
      unfold bind at 1. unfold bind at 1, gets at 1. simpl. rewrite Hinfo. simpl.
      rewrite bind_modify.
      unfold bind at 1.
      rewrite (history_append_eq r DecisionStartedEvent _
                 (push_event (TimerEvent (sd_timer d)) p))
        by (simpl; rewrite lookup_alter_eq, Hp; reflexivity).
      reflexivity. }
    split; [exact E|].
    destruct (Hpoll category (Some {| dt_process := r; dt_run_id := Uuid (next_uuid swept) |})
                (run (poll_decision_task now category) s)) as (queue' & Hq' & Hd).
    { rewrite M_eta, E. reflexivity. }
    rewrite Hqueue in Hq'. injection Hq' as <-. rewrite Hhead in Hd.
    destruct Hd as (_ & _ & Ht & _). rewrite Ht. unfold delivered_timer.
    rewrite Hstart, decide_True by exact Hr. reflexivity.
  - intros category queue Hok Hqueue Hfuture.
    unfold poll_decision_task.
    change (_time_out_activities now ;; _time_out_decisions now ;; ?k)
      with (bind (_time_out_activities now) (λ _, bind (_time_out_decisions now) (λ _, k))).
    rewrite <- (bind_assoc (_time_out_activities now) (λ _, _time_out_decisions now)).
    rewrite (bind_Ok_intro _ _ s tt swept) by (unfold swept; rewrite M_eta, Hok; reflexivity).
    clearbody swept. apply queue_of_lookup in Hqueue as (l & Hl & Hq).
    unfold bind at 1. unfold bind at 1, gets at 1. rewrite Hl. simpl.
    unfold bind at 1. unfold list_read, bind at 1, gets at 1. rewrite Hq. simpl.
    rewrite head_filter_None; [reflexivity|].
    intros d Hd [Hstart _]. destruct (Hfuture d Hd) as (t & Et & Hlt).
    rewrite Et in Hstart. lia.
Qed.

Lemma timer_event_is_appended_by_the_poll_witness :
  heap_fresh timer_set
  ∧ poll_decision_task 4 "default" timer_set
    = (Ok None, run (_time_out_activities 4 ;; _time_out_decisions 4) timer_set)
  ∧ outcome (poll_decision_task 5 "default") timer_set
    = Ok (Some {| dt_process := 0%nat;
                  dt_run_id :=
                    Uuid (next_uuid (run (_time_out_activities 5 ;; _time_out_decisions 5)
                                         timer_set)) |})
  ∧ timer_events (run (poll_decision_task 5 "default") timer_set) 0%nat
    = timer_events timer_set 0%nat ++ [TimerEvent (sd_timer timer_entry)].
Proof.
  split; [exact timer_set_fresh|]. split.
  - destruct (timer_event_is_appended_by_the_poll 4 0%nat timer_set timer_set_fresh)
      as (_ & _ & _ & _ & Hskip).
    apply (Hskip "default" [timer_entry]).
    + vm_compute. reflexivity.
    + vm_compute. reflexivity.
    + intros d Hd. apply list_elem_of_singleton in Hd. subst d.
      exists 5. split; [reflexivity | lia].
  - destruct (timer_event_is_appended_by_the_poll 5 0%nat timer_set timer_set_fresh)
      as (_ & _ & _ & Hfire & _).
    apply (Hfire "default" [timer_entry] timer_entry 5
             {| p_id := Uuid 0; p_workflow := "wf"; p_input := Some "x"; p_tags := [];
                p_parent := None;
                history := [ProcessStartedEvent; DecisionStartedEvent;
                            DecisionEvent (Timer 5)] |}
             {| wf_category := "default"; wf_timeout := 3600;
                wf_decision_timeout := 60 |});
      vm_compute; reflexivity.
Defined.

(** The process of the timer scenario is cancelled before its timer is
    due. *)
Definition timer_cancelled : MemoryBackend :=
  run (cancel_process (Uuid 0) None) timer_set.

(** C7, as stated, fails on "exactly once": the process of the running
    example sets [Timer(5)] and is then cancelled.  The cancellation
    removes the timer entry from the queue, and from then on every
    [poll_decision_task], at whatever time, returns none and changes
    nothing: the [TimerEvent] of that [Timer] decision is never appended. *)
Lemma cancelled_timer_never_fires :
  history_of timer_set 0%nat
  = [ProcessStartedEvent; DecisionStartedEvent; DecisionEvent (Timer 5)]
  ∧ queue_of timer_set "default" = Some [timer_entry]
  ∧ outcome (cancel_process (Uuid 0) None) timer_set = Ok tt
  ∧ queue_of timer_cancelled "default" = Some []
  ∧ timer_events timer_cancelled 0%nat = []
  ∧ (∀ now, poll_decision_task now "default" timer_cancelled = (Ok None, timer_cancelled)).
Proof.
  split; [vm_compute; reflexivity|]. split; [vm_compute; reflexivity|].
  split; [vm_compute; reflexivity|]. split; [vm_compute; reflexivity|].
  split; [vm_compute; reflexivity|].
  intros now. vm_compute. reflexivity.
Qed.

(** * A batch that goes on after the completion *)



















(** * Completing a decision task *)

(** The running table after the decision sweep. *)
Lemma decision_sweep_table now s s' :
  _time_out_decisions now s = (Ok tt, s') →
  running_decisions s'
  = filter (λ kd, ¬ rd_expiration kd.2 < now) (running_decisions s).
Proof.
  intros H. unfold _time_out_decisions in H.
  apply bind_Ok in H as (running & s0 & H0 & H). apply gets_Ok in H0 as [-> ->].
  apply bind_Ok in H as ([] & s1 & H1 & H).
  apply bind_Ok in H as (items & s2 & H2 & H). apply gets_Ok in H2 as [-> ->].
  assert (running_decisions s1
          = filter (λ kd, ¬ rd_expiration kd.2 < now) (running_decisions s)) as E1.
  { rewrite <- (delete_filtered (λ kd : ident * RunningDecision,
                                   rd_expiration kd.2 < now)).
    apply (for_each_track running_decisions
             (λ (kd : ident * RunningDecision) m, delete kd.1 m) _ _ s tt s1 H1).
    intros kd t t' _ Hb. apply (reschedule_running_Ok now kd t t' Hb). }
  assert (running_decisions s' = running_decisions s1) as E2.
  { apply (for_each_Ok_ind (λ u, running_decisions u = running_decisions s1) _ _ _ _ _ H);
      [reflexivity|].
    intros item u u' _ Hu Hb.
    apply bind_Ok in Hb as (queue & u0 & Hread & Hb).
    apply list_read_Ok in Hread as [_ ->].
    apply (for_each_Ok_ind (λ v, running_decisions v = running_decisions s1) _ _ _ _ _ Hb);
      [exact Hu|].
    intros e v v' _ Hv He. apply bind_Ok in He as ([] & v1 & He1 & He2).
    apply list_remove_Ok in He1 as (? & ? & _ & _ & ->).
    kept running_decisions He2 as E. rewrite E. exact Hv. }
  rewrite E2. exact E1.
Qed.

Lemma deciding_after_sweep now s s1 k :
  _time_out_decisions now s = (Ok tt, s1) →
  (∀ d, running_decisions s !! k = Some d → ¬ rd_expiration d < now →
        running_decisions s1 !! k = Some d)
  ∧ ((∀ d, running_decisions s !! k = Some d → rd_expiration d < now) →
     running_decisions s1 !! k = None).
Proof.
  intros H. rewrite (decision_sweep_table now s s1 H). split.
  - intros d Hd Hlive. apply map_lookup_filter_Some. split; [exact Hd | exact Hlive].
  - intros Hdead. apply map_lookup_filter_None.
    destruct (running_decisions s !! k) as [d|] eqn:Hd; [right | left; reflexivity].
    intros d' [= <-] Hlive. apply Hlive, Hdead. reflexivity.
Qed.

Lemma keeps_running_decisions_apply_decision now task r d :
  keeps running_decisions (apply_decision now task r d).
Proof.
  unfold apply_decision, decision_effect, _schedule_activity, _activity_by_id,
    _cancel_activity, deque_of, deque_remove, del_running_activity, new_process, uuid4.
  destruct d; frame.
Qed.

(** One decision of the batch: its [DecisionEvent] is appended to the
    history of the deciding process, and whatever follows comes after. *)
Lemma apply_decision_history now task r d t t' :
  heap_fresh t →
  apply_decision now task r d t = (Ok tt, t') →
  heap_fresh t'
  ∧ ∃ extra, history_of t' r = history_of t r ++ DecisionEvent d :: extra.
Proof.
  intros Hf H. unfold apply_decision in H.
  apply bind_Ok in H as ([] & t1 & H1 & H2).
  apply history_append_Ok in H1 as [[p Hp] ->].
  assert (history_of (set_objects (alter (push_event (DecisionEvent d)) r) t) r
          = history_of t r ++ [DecisionEvent d]) as E.
  { rewrite history_of_push, decide_True, Hp by reflexivity.
    unfold history_of. rewrite Hp. reflexivity. }
  pose proof (hist_decision_effect r
                (λ h, (history_of t r ++ [DecisionEvent d]) `prefix_of` h) (λ _, True)
                (λ h ev _ Hh, prefix_app_r _ _ [ev] Hh)) as Hinv.
  assert (history_of t r ++ [DecisionEvent d] `prefix_of` []
          → history_of t r ++ [DecisionEvent d] `prefix_of` [ProcessStartedEvent])
    as Hstart.
  { intros Hnil. apply prefix_nil_inv in Hnil.
    destruct (history_of t r); discriminate. }
  specialize (Hinv Hstart (λ _ _, I)).
  assert (run (decision_effect now task r d)
            (set_objects (alter (push_event (DecisionEvent d)) r) t) = t') as Erun
    by (unfold run; rewrite H2; reflexivity).
  destruct (Hinv now task r d (set_objects (alter (push_event (DecisionEvent d)) r) t))
    as [Hf' [extra Hx]].
  { split; [apply heap_fresh_push, Hf | rewrite E; reflexivity]. }
  rewrite Erun in Hf', Hx. split; [exact Hf'|].
  exists extra. rewrite Hx, <- app_assoc. reflexivity.
Qed.

Lemma apply_batch_history now task r ds t t' :
  heap_fresh t →
  for_each ds (apply_decision now task r) t = (Ok tt, t') →
  ∃ suffix, history_of t' r = history_of t r ++ suffix
            ∧ (DecisionEvent <$> ds) `sublist_of` suffix.
Proof.
  revert t. induction ds as [|d ds IH]; intros t Hf H.
  - apply ret_Ok in H as [_ ->]. exists []. rewrite app_nil_r. split; [reflexivity|].
    constructor.
  - apply for_each_cons_Ok in H as (t1 & H1 & H2).
    destruct (apply_decision_history now task r d t t1 Hf H1) as [Hf1 [extra E1]].
    destruct (IH t1 Hf1 H2) as (suffix & E & Hsub).
    exists (DecisionEvent d :: extra ++ suffix). split.
    + rewrite E, E1, <- app_assoc. reflexivity.
    + rewrite fmap_cons. apply sublist_skip. apply sublist_inserts_l. exact Hsub.
Qed.

(** [complete_decision_task], given that the sweep at its entry returns.
    For a run id that is unknown or whose deadline has passed it raises
    [UnknownDecisionException]; none of the decisions is applied: the
    process objects and the store are what they were before the call.
    For a live run id the task is consumed whatever happens to the
    decisions, the running table being the swept one without the run id;
    and when the call returns, the history of the deciding process has
    grown by a suffix that contains the [DecisionEvent]s of the batch, in
    the order of the batch. *)
Theorem complete_decision_task_applies_the_batch (now : Z) (task : DecisionTask)
    (decisions : decisions_arg) (s s1 : MemoryBackend) :
  _time_out_decisions now s = (Ok tt, s1) →
  ((∀ d, running_decisions s !! dt_run_id task = Some d → rd_expiration d < now) →
   complete_decision_task now task decisions s = (Raise UnknownDecisionException, s1)
   ∧ objects s1 = objects s ∧ running_processes s1 = running_processes s)
  ∧ (∀ d, running_decisions s !! dt_run_id task = Some d → ¬ rd_expiration d < now →
       running_decisions (run (complete_decision_task now task decisions) s)
       = delete (dt_run_id task) (running_decisions s1)
       ∧ (heap_fresh s →
          ∀ s', complete_decision_task now task decisions s = (Ok tt, s') →
                ∃ suffix,
                  history_of s' (rd_process d) = history_of s (rd_process d) ++ suffix
                  ∧ (DecisionEvent <$> as_list decisions) `sublist_of` suffix)).
Proof.
  intros Hsweep.
  destruct (deciding_after_sweep now s s1 (dt_run_id task) Hsweep) as [Hlive Hdead].
  kept objects Hsweep as Eo. kept running_processes Hsweep as Es.
  split.
  - intros Hd. split; [|split; [exact Eo | exact Es]].
    unfold complete_decision_task.
    rewrite (bind_Ok_intro _ _ _ _ _ Hsweep). unfold bind, gets.
    rewrite (Hdead Hd). reflexivity.
  - intros d Hd Hnot. specialize (Hlive d Hd Hnot).
    assert (complete_decision_task now task decisions s
            = for_each (as_list decisions) (apply_decision now task (rd_process d))
                (set_running_decisions (delete (dt_run_id task)) s1)) as Hred.
    { unfold complete_decision_task.
      rewrite (bind_Ok_intro _ _ _ _ _ Hsweep).
      unfold bind at 1, gets at 1. rewrite Hlive. simpl.
      unfold bind at 1. unfold ret at 1.
      unfold bind at 1. unfold del_running_decision, bind, gets, or_raise, ret, modify.
      rewrite Hlive. reflexivity. }
    split.
    + unfold run. rewrite Hred.
      assert (keeps running_decisions
                (for_each (as_list decisions) (apply_decision now task (rd_process d))))
        as Hk.
      { pose proof (keeps_running_decisions_apply_decision now task (rd_process d)) as Hd'.
        frame. }
      pose proof (Hk (set_running_decisions (delete (dt_run_id task)) s1)) as Hk'.
      unfold run in Hk'. exact Hk'.
    + intros Hf s' H. rewrite Hred in H.
      destruct (apply_batch_history now task (rd_process d) (as_list decisions)
                  (set_running_decisions (delete (dt_run_id task)) s1) s')
        as (suffix & E & Hsub); [|exact H|].
      { intros r Hr. simpl. rewrite Eo.
        apply Hf.
        assert (next_ref s1 = next_ref s) as En.
        { refine (keeps_exec next_ref _ _ _ _ _ Hsweep).
          apply keeps_time_out_decisions; auto with keeps. }
        rewrite <- En. exact Hr. }
      exists suffix. split; [|exact Hsub].
      rewrite E. unfold history_of. simpl. rewrite Eo. reflexivity.
Qed.

Lemma deciding_fresh : heap_fresh deciding.
Proof.
  apply heap_fresh_intro.
  apply (bool_decide_unpack (map_Forall (λ r _, (r < next_ref deciding)%nat)
                               (objects deciding))).
  vm_compute. exact I.
Qed.

Lemma complete_decision_task_applies_the_batch_witness :
  complete_decision_task 4000 first_task (Many [Timer 5]) deciding
  = (Raise UnknownDecisionException, run (_time_out_decisions 4000) deciding)
  ∧ running_decisions (run (complete_decision_task 0 first_task (Many [Timer 5])) deciding)
    = delete (Uuid 1) (running_decisions (run (_time_out_decisions 0) deciding))
  ∧ ∃ suffix,
      history_of timer_set 0%nat = history_of deciding 0%nat ++ suffix
      ∧ [DecisionEvent (Timer 5)] `sublist_of` suffix.
Proof.
  destruct (complete_decision_task_applies_the_batch 4000 first_task (Many [Timer 5])
              deciding (run (_time_out_decisions 4000) deciding)) as [Hlate _].
  { apply (exec_intro (_time_out_decisions 4000) deciding). vm_compute. reflexivity. }
  destruct (complete_decision_task_applies_the_batch 0 first_task (Many [Timer 5])
              deciding (run (_time_out_decisions 0) deciding)) as [_ Hlive].
  { apply (exec_intro (_time_out_decisions 0) deciding). vm_compute. reflexivity. }
  split.
  - apply Hlate. intros d Hd. vm_compute in Hd. injection Hd as <-.
    cbn [rd_expiration]. lia.
  - destruct (Hlive {| rd_process := 0%nat; rd_expiration := 3600 |}) as [Htable Hhist].
    + vm_compute. reflexivity.
    + cbn [rd_expiration]. lia.
    + split; [exact Htable|].
      apply (Hhist deciding_fresh timer_set).
      apply (exec_intro (complete_decision_task 0 first_task (Many [Timer 5])) deciding).
      vm_compute. reflexivity.
Defined.

(** * The sweeps at the entry of the operations *)

(** The first decision task of the running example has scheduled [a1]
    (scheduled deadline 1); the process is signalled and its second
    decision task is handed out at time 0 (run id 2, deadline 3600). *)
Definition signalled : MemoryBackend :=
  run (signal_process 0 (Uuid 0) "go" None) activity_scheduled.

Definition redeciding : MemoryBackend :=
  run (poll_decision_task 0 Defaults.DECISION_CATEGORY) signalled.

Definition second_task : DecisionTask := {| dt_process := 0%nat; dt_run_id := Uuid 2 |}.

(** C3, as stated, fails: only [poll_decision_task] runs the full sweep.
    At time 2 the scheduled entry of [a1] is overdue, yet
    [complete_decision_task] returns with the entry still in its queue and
    no [ActivityTimedOut] in the history (the activity sweep would have
    removed the entry and appended the event).  At time 4000 the first
    decision task (deadline 3600) is overdue, yet after
    [complete_activity_task] and after [heartbeat_activity_task] it is
    still in the running table (the decision sweep would have removed
    it). *)
Lemma half_sweeps_leave_overdue_entries :
  outcome (poll_decision_task 0 Defaults.DECISION_CATEGORY) signalled
  = Ok (Some second_task)
  ∧ outcome (complete_decision_task 2 second_task (Many [])) redeciding = Ok tt
  ∧ scheduled_activities (run (complete_decision_task 2 second_task (Many [])) redeciding)
      !! "default"
    = Some [ {| sa_execution := a1; sa_process := 0%nat; sa_expiration := 1 |} ]
  ∧ history_of (run (complete_decision_task 2 second_task (Many [])) redeciding) 0%nat
    = history_of redeciding 0%nat
  ∧ scheduled_activities (run (_time_out_activities 2) redeciding) !! "default" = Some []
  ∧ last (history_of (run (_time_out_activities 2) redeciding) 0%nat)
    = Some (ActivityEvent (OfExecution a1) (Some ActivityTimedOut))
  ∧ running_decisions deciding !! Uuid 1
    = Some {| rd_process := 0%nat; rd_expiration := 3600 |}
  ∧ running_decisions (run (complete_activity_task 4000 stale_task None) deciding)
      !! Uuid 1
    = Some {| rd_process := 0%nat; rd_expiration := 3600 |}
  ∧ running_decisions (run (heartbeat_activity_task 4000 stale_task) deciding) !! Uuid 1
    = Some {| rd_process := 0%nat; rd_expiration := 3600 |}
  ∧ running_decisions (run (_time_out_decisions 4000) deciding) !! Uuid 1 = None.
Proof. vm_compute. repeat split; reflexivity. Qed.

(** What the activity sweep has done when it returns [s1] from [s]: the
    queues have lost exactly the entries whose scheduled deadline has
    passed and the running table exactly the entries whose execution or
    heartbeat deadline has passed; the owner of each of them has
    [ActivityTimedOut] for the execution in its history and a decision
    due; no process has lost a due decision; the running decisions are
    untouched. *)
Definition activities_timed_out (now : Z) (s s1 : MemoryBackend) : Prop :=
  scheduled_activities s1 = filter (λ a, ¬ expired now a) <$> scheduled_activities s
  ∧ running_activities s1
    = filter (λ ka, ¬ overdue_activity now ka.2) (running_activities s)
  ∧ (∀ c q a, scheduled_activities s !! c = Some q → a ∈ q → expired now a →
       notified now (timeout_event (sa_execution a)) (sa_process a) s1)
  ∧ (∀ k a, running_activities s !! k = Some a → overdue_activity now a →
       notified now (timeout_event (ra_execution a)) (ra_process a) s1)
  ∧ (∀ r, has_due_decision now s r → has_due_decision now s1 r)
  ∧ running_decisions s1 = running_decisions s.

(** What the decision sweep has done when it returns [s1] from [s]: the
    running table has lost exactly the decision tasks whose deadline has
    passed, the process of each of them has a decision due, no process has
    lost a due decision, and the histories and the activity tables are
    untouched. *)
Definition decisions_timed_out (now : Z) (s s1 : MemoryBackend) : Prop :=
  running_decisions s1
  = filter (λ kd, ¬ rd_expiration kd.2 < now) (running_decisions s)
  ∧ (∀ k d, running_decisions s !! k = Some d → rd_expiration d < now →
       has_due_decision now s1 (rd_process d))
  ∧ (∀ r, has_due_decision now s r → has_due_decision now s1 r)
  ∧ objects s1 = objects s
  ∧ scheduled_activities s1 = scheduled_activities s
  ∧ running_activities s1 = running_activities s.

Lemma activity_sweep_spec now s s1 :
  queues_allocated s →
  _time_out_activities now s = (Ok tt, s1) →
  activities_timed_out now s s1.
Proof.
  intros Halloc H.
  destruct (activity_sweep_tables now s s1 H) as [E1 E2].
  assert (running_decisions s1 = running_decisions s) as Ed.
  { refine (keeps_exec running_decisions _ _ _ _ _ H).
    apply keeps_time_out_activities; auto with keeps. }
  unfold _time_out_activities in H.
  apply bind_Ok in H as (items & s0 & H0 & H). apply gets_Ok in H0 as [-> ->].
  apply bind_Ok in H as ([] & t1 & H1 & H).
  apply bind_Ok in H as (running & t2 & H2 & H). apply gets_Ok in H2 as [-> ->].
  destruct (expire_scheduled_all now (map_to_list (scheduled_activities s)) s t1
              (NoDup_fst_map_to_list _)) as
    (Ha1 & Hadv1 & Er1 & Hn1); [|exact Halloc | exact H1 |].
  { intros [c q] Hitem. apply elem_of_map_to_list in Hitem. exact Hitem. }
  destruct (expire_running_all now _ t1 s1 H Ha1) as ((Ha2 & Hadv2 & Es2) & Hn2).
  split; [exact E1|]. split; [exact E2|]. split; [|split; [|split; [|exact Ed]]].
  - intros c q a Hq Ha Hexp. destruct Hadv2 as [Hkeep _]. apply Hkeep.
    apply (Hn1 (c, q) a); [|exact Ha | exact Hexp].
    apply elem_of_map_to_list. exact Hq.
  - intros k a Hk Hover. apply (Hn2 (k, a)).
    apply list_elem_of_filter. split; [exact Hover|].
    apply elem_of_map_to_list. rewrite Er1. exact Hk.
  - intros r Hr. destruct Hadv1 as [_ Hd1]. destruct Hadv2 as [_ Hd2]. auto.
Qed.

Lemma decision_sweep_spec now s s1 :
  queues_allocated s →
  _time_out_decisions now s = (Ok tt, s1) →
  decisions_timed_out now s s1.
Proof.
  intros Halloc H.
  pose proof (decision_sweep_table now s s1 H) as E1.
  kept objects H as Eo.
  assert (scheduled_activities s1 = scheduled_activities s) as Es.
  { refine (keeps_exec scheduled_activities _ _ _ _ _ H).
    apply keeps_time_out_decisions; auto with keeps. }
  assert (running_activities s1 = running_activities s) as Er.
  { refine (keeps_exec running_activities _ _ _ _ _ H).
    apply keeps_time_out_decisions; auto with keeps. }
  unfold _time_out_decisions in H.
  apply bind_Ok in H as (running & s0 & H0 & H). apply gets_Ok in H0 as [-> ->].
  apply bind_Ok in H as ([] & t1 & H1 & H).
  apply bind_Ok in H as (items & t2 & H2 & H). apply gets_Ok in H2 as [-> ->].
  destruct (for_each_Ok_all
              (λ u, queues_allocated u ∧ keeps_due now s u)
              (λ (ia : ident * RunningDecision) u, has_due_decision now u (rd_process ia.2))
              _ _ _ _ _ H1) as ((Ha1 & Hk1) & Hn1).
  { split; [exact Halloc|]. intros r Hr. exact Hr. }
  { intros ia u u' _ (Hu & Hk) Hb.
    destruct (reschedule_running_Ok now ia u u' Hb) as (_ & Hrest).
    destruct (Hrest Hu) as (Hu' & Hk' & Hn).
    split; [|exact Hn]. split; [exact Hu'|]. intros r Hr. apply Hk', Hk, Hr. }
  { intros x ia u u' _ (Hu & _) Hx Hb.
    destruct (reschedule_running_Ok now ia u u' Hb) as (_ & Hrest).
    destruct (Hrest Hu) as (_ & Hk' & _). apply Hk', Hx. }
  assert (queues_allocated s1 ∧ keeps_due now t1 s1) as [_ Hk2].
  { apply (for_each_Ok_ind (λ u, queues_allocated u ∧ keeps_due now t1 u) _ _ _ _ _ H).
    - split; [exact Ha1|]. intros r Hr. exact Hr.
    - intros item u u' _ (Hu & Hk) Hb.
      apply bind_Ok in Hb as (queue & u0 & Hread & Hb).
      apply list_read_Ok in Hread as [_ ->].
      apply (for_each_Ok_ind (λ v, queues_allocated v ∧ keeps_due now t1 v) _ _ _ _ _ Hb).
      + split; assumption.
      + intros e v v' _ (Hv & Hkv) He.
        destruct (reschedule_stale_Ok now _ e v v' He Hv) as (Hv' & Hk').
        split; [exact Hv'|]. intros r Hr. apply Hk', Hkv, Hr. }
  split; [exact E1|]. split; [|split; [|auto]].
  - intros k d Hk Hexp. apply Hk2. apply (Hn1 (k, d)).
    apply list_elem_of_filter. split; [exact Hexp|].
    apply elem_of_map_to_list. exact Hk.
  - intros r Hr. apply Hk2, Hk1, Hr.
Qed.

(** C3 (amended): each operation runs its own sweep at its entry, and
    only [poll_decision_task] runs both.  [heartbeat_activity_task] and
    [complete_activity_task] run the activity sweep and then do their own
    work from the state it leaves, in which the running decisions are
    those of before the call; [complete_decision_task] runs the decision
    sweep and then does its own work from the state it leaves, in which
    the histories and the activity tables are those of before the call;
    [poll_decision_task] runs the activity sweep, then the decision
    sweep, and hands out a task from the state they leave.  When it
    returns, the activity sweep has removed exactly the scheduled
    activities whose scheduled deadline has passed and the running
    activities whose execution or heartbeat deadline has passed, the
    owner of each of them has [ActivityTimedOut] in its history and a
    decision due, and no process has lost a due decision; when it
    returns, the decision sweep has removed exactly the running decisions
    whose deadline has passed, the process of each of them has a decision
    due, and no process has lost a due decision. *)
Theorem each_operation_runs_its_own_sweep (now : Z) (s : MemoryBackend) :
  queues_allocated s →
  (∀ s1, _time_out_activities now s = (Ok tt, s1) →
     activities_timed_out now s s1
     ∧ (∀ task,
          heartbeat_activity_task now task s
          = match running_activities s1 !! at_run_id task with
            | None => (Raise TypeError, s1)
            | Some a =>
                match activities s1 !! ae_activity (ra_execution a) with
                | None => (Raise KeyError, s1)
                | Some info =>
                    (Ok tt,
                     set_running_activities
                       (insert (at_run_id task)
                          {| ra_execution := ra_execution a; ra_process := ra_process a;
                             ra_expiration := ra_expiration a;
                             ra_heartbeat := now + act_heartbeat_timeout info |}) s1)
                end
            end)
     ∧ (∀ task result,
          complete_activity_task now task result s
          = match running_activities s1 !! at_run_id task with
            | None => (Raise UnknownActivityException, s1)
            | Some a =>
                (history_append (ra_process a)
                   (ActivityEvent (OfExecution (ra_execution a)) result) ;;
                 _schedule_decision now (ra_process a) None None)
                  (set_running_activities (delete (at_run_id task)) s1)
            end))
  ∧ (∀ s1, _time_out_decisions now s = (Ok tt, s1) →
       decisions_timed_out now s s1
       ∧ (∀ task decisions,
            complete_decision_task now task decisions s
            = match running_decisions s1 !! dt_run_id task with
              | None => (Raise UnknownDecisionException, s1)
              | Some d =>
                  for_each (as_list decisions) (apply_decision now task (rd_process d))
                    (set_running_decisions (delete (dt_run_id task)) s1)
              end))
  ∧ (∀ category res s',
       poll_decision_task now category s = (Ok res, s') →
       ∃ s1 s2 l queue,
         _time_out_activities now s = (Ok tt, s1)
         ∧ activities_timed_out now s s1
         ∧ _time_out_decisions now s1 = (Ok tt, s2)
         ∧ decisions_timed_out now s1 s2
         ∧ scheduled_decisions s2 !! category = Some l
         ∧ lists s2 !! l = Some queue
         ∧ delivery now l queue s2 res s').
Proof.
  intros Halloc. split; [|split].
  - intros s1 Hsweep. split; [exact (activity_sweep_spec now s s1 Halloc Hsweep)|]. split.
    + intros task. unfold heartbeat_activity_task.
      rewrite (bind_Ok_intro _ _ _ _ _ Hsweep). unfold bind, gets, or_raise, ret, raise, modify.
      destruct (running_activities s1 !! at_run_id task) as [a|]; [|reflexivity].
      destruct (activities s1 !! ae_activity (ra_execution a)); reflexivity.
    + intros task result.
      destruct (running_activities s1 !! at_run_id task) as [a|] eqn:Ha.
      * exact (complete_activity_task_live now task result s s1 a Hsweep Ha).
      * unfold complete_activity_task. rewrite (bind_Ok_intro _ _ _ _ _ Hsweep).
        unfold bind, gets. rewrite Ha. reflexivity.
  - intros s1 Hsweep. split; [exact (decision_sweep_spec now s s1 Halloc Hsweep)|].
    intros task decisions. unfold complete_decision_task.
    rewrite (bind_Ok_intro _ _ _ _ _ Hsweep).
    unfold bind at 1, gets at 1.
    destruct (running_decisions s1 !! dt_run_id task) as [d|] eqn:Hd; [|reflexivity].
    simpl. unfold bind at 1. unfold ret at 1.
    unfold bind at 1. unfold del_running_decision, bind, gets, or_raise, ret, modify.
    rewrite Hd. reflexivity.
  - intros category res s' H.
    apply poll_decision_task_Ok in H as (s1 & s2 & l & queue & H1 & H2 & Hl & Hq & Hd).
    exists s1, s2, l, queue.
    split; [exact H1|]. split; [exact (activity_sweep_spec now s s1 Halloc H1)|].
    split; [exact H2|]. split; [|auto].
    apply (decision_sweep_spec now s1 s2); [|exact H2].
    exact (preserves_exec _ _ _ _ _ (alloc_time_out_activities now) H1 Halloc).
Qed.

Lemma each_operation_runs_its_own_sweep_witness :
  activities_timed_out 2 redeciding (run (_time_out_activities 2) redeciding)
  ∧ decisions_timed_out 4000 deciding (run (_time_out_decisions 4000) deciding)
  ∧ complete_decision_task 4000 first_task (Many []) deciding
    = (Raise UnknownDecisionException, run (_time_out_decisions 4000) deciding).
Proof.
  destruct (each_operation_runs_its_own_sweep 2 redeciding) as (HA & _ & _).
  { apply (bool_decide_unpack (queues_allocated redeciding)). vm_compute. exact I. }
  destruct (each_operation_runs_its_own_sweep 4000 deciding) as (_ & HD & _).
  { apply (bool_decide_unpack (queues_allocated deciding)). vm_compute. exact I. }
  destruct (HA (run (_time_out_activities 2) redeciding)) as [Hact _].
  { apply (exec_intro (_time_out_activities 2) redeciding). vm_compute. reflexivity. }
  destruct (HD (run (_time_out_decisions 4000) deciding)) as [Hdec Hcomplete].
  { apply (exec_intro (_time_out_decisions 4000) deciding). vm_compute. reflexivity. }
  split; [exact Hact|]. split; [exact Hdec|].
  rewrite (Hcomplete first_task (Many [])).
  replace (running_decisions (run (_time_out_decisions 4000) deciding) !! dt_run_id first_task)
    with (@None RunningDecision) by (vm_compute; reflexivity).
  reflexivity.
Defined.
